(** * Agent-invocation and change-reconciliation pipeline

    A shallow embedding of the code-agent pipeline of the Event Schema
    Manager: the [/api/code-agent] and [/api/cli-inject] handlers of
    [server.js] (workspace preparation, stdout forwarding, post-run
    diffing) and the approve workflow of [src/App.js]
    ([handleApproveChanges], [writeFileToDirectoryHandle]).

    Modelling conventions.
    - JavaScript strings are Rocq [string]s: a character is one 8-bit code
      unit, so the model covers the strings whose code points are below
      256.  File contents are strings as well; the UTF-8 encoding done by
      [fs.writeFile] and undone by [fs.readFile(_, 'utf8')] is the
      identity on them.
    - Paths follow the POSIX flavour of Node's [path] module.  An absolute
      path that went through [path.join] is represented by its list of
      segments, root first.
    - A file system is a tree: a directory is an association list from
      entry names to nodes, looked up first match first. *)

From Stdlib Require Import String Ascii List ZArith Lia Bool.
From stdpp Require Import base option list strings gmap.

Local Open Scope string_scope.
Local Open Scope list_scope.

(** ** JavaScript string primitives *)

Module JsString.

(** [s.split(sep)] for a one-character separator: never empty, and
    [''.split(sep)] is [['']]. *)
Fixpoint split (sep : ascii) (s : string) : list string :=
  match s with
  | EmptyString => [EmptyString]
  | String c s' =>
      if Ascii.eqb c sep then EmptyString :: split sep s'
      else match split sep s' with
           | [] => [String c EmptyString]
           | h :: t => String c h :: t
           end
  end.

(** [parts.join(sep)]. *)
Fixpoint join (sep : string) (parts : list string) : string :=
  match parts with
  | [] => ""
  | [p] => p
  | p :: ps => p +:+ sep +:+ join sep ps
  end.

(** The code units below 256 that [String.prototype.trim] strips: TAB, LF,
    VT, FF, CR, SPACE and NBSP. *)
Definition is_whitespace (c : ascii) : bool :=
  let n := nat_of_ascii c in
  (((9 <=? n) && (n <=? 13)) || (n =? 32) || (n =? 160))%nat.

Fixpoint all_whitespace (s : string) : bool :=
  match s with
  | EmptyString => true
  | String c s' => is_whitespace c && all_whitespace s'
  end.

(** [s.trim() !== ''] *)
Definition non_blank (s : string) : bool := negb (all_whitespace s).

Fixpoint trim_start (s : string) : string :=
  match s with
  | EmptyString => EmptyString
  | String c s' => if is_whitespace c then trim_start s' else s
  end.

Fixpoint trim_end (s : string) : string :=
  match s with
  | EmptyString => EmptyString
  | String c s' =>
      match trim_end s' with
      | EmptyString => if is_whitespace c then EmptyString else String c EmptyString
      | t => String c t
      end
  end.

(** [s.trim()] *)
Definition trim (s : string) : string := trim_end (trim_start s).

(** [s.replace(/\\/g, '/')] *)
Fixpoint replace_backslashes (s : string) : string :=
  match s with
  | EmptyString => EmptyString
  | String c s' =>
      String (if Ascii.eqb c "\"%char then "/"%char else c) (replace_backslashes s')
  end.

(** [s.endsWith(suffix)] *)
Definition endsWith (s suffix : string) : bool :=
  let n := String.length s in
  let k := String.length suffix in
  (k <=? n)%nat && String.eqb (String.substring (n - k) k s) suffix.

Definition last_char (s : string) : option ascii :=
  String.get (String.length s - 1) s.

End JsString.

Definition LF : ascii := "010"%char.
Definition SLASH : ascii := "/"%char.

(** ** Node's [path] module (POSIX flavour) *)

Module Path.

(** The result of [path.join] on an absolute base: the segments below the
    root, and whether the string ends in a separator. *)
Record t := mk { segments : list string; trailingSep : bool }.

Definition of_segments (segs : list string) : t :=
  {| segments := segs; trailingSep := false |}.

(** [normalizeString(path, false, '/', ...)]: empty and [.] segments are
    skipped, [..] drops the last segment kept so far (and does nothing at
    the root), every other segment is appended. *)
Fixpoint normalizeString (res : list string) (parts : list string) : list string :=
  match parts with
  | [] => res
  | part :: rest =>
      if (String.eqb part "" || String.eqb part ".")%bool then normalizeString res rest
      else if String.eqb part ".." then normalizeString (removelast res) rest
      else normalizeString (res ++ [part]) rest
  end.

(** [path.join(base, rel)] for an absolute, normalized [base]:
    [normalize(base + '/' + rel)]. *)
Definition join (base : list string) (rel : string) : t :=
  let segs := normalizeString base (JsString.split SLASH rel) in
  {| segments := segs;
     trailingSep :=
       match JsString.last_char rel, segs with
       | Some c, _ :: _ => Ascii.eqb c SLASH
       | _, _ => false
       end |}.

(** [path.dirname(p)]: the last segment is dropped, with the trailing
    separator if there is one. *)
Definition dirname (p : t) : list string := removelast (segments p).

(** [path.relative(from, to)] for absolute, normalized arguments: one [..]
    for each segment of [from] below the common prefix, then what is left of
    [to]. *)
Fixpoint relative_segments (from to : list string) : list string :=
  match from, to with
  | f :: from', s :: to' =>
      if String.eqb f s then relative_segments from' to'
      else map (fun _ => "..") from ++ to
  | _, _ => map (fun _ => "..") from ++ to
  end.

Definition relative (from to : list string) : string :=
  JsString.join "/" (relative_segments from to).

(** [path.basename(p)]: the last non-empty segment. *)
Definition basename (p : string) : string :=
  List.last (List.filter (fun s => negb (String.eqb s "")) (JsString.split SLASH p)) "".

(** A segment that [normalizeString] keeps as it is. *)
Definition plain_segment (s : string) : bool :=
  negb (String.eqb s "" || String.eqb s "." || String.eqb s "..").

(** A name a directory entry can have: a plain segment without
    separator. *)
Definition valid_name (s : string) : bool :=
  match JsString.split SLASH s with
  | [p] => plain_segment p
  | _ => false
  end.

(** A relative path is normalized when each of its segments is plain. *)
Definition normalized (rel : string) : bool :=
  forallb plain_segment (JsString.split SLASH rel).

(** No [..] segment. *)
Definition dotdot_free (rel : string) : bool :=
  forallb (fun s => negb (String.eqb s "..")) (JsString.split SLASH rel).

Fixpoint is_prefix (p q : list string) : bool :=
  match p, q with
  | [], _ => true
  | x :: p', y :: q' => String.eqb x y && is_prefix p' q'
  | _ :: _, [] => false
  end.

(** Neither path is the other or lies on the way to it. *)
Definition independent (p q : list string) : bool :=
  negb (is_prefix p q) && negb (is_prefix q p).

Fixpoint pairwise_independent (paths : list (list string)) : bool :=
  match paths with
  | [] => true
  | p :: rest => forallb (independent p) rest && pairwise_independent rest
  end.

End Path.

(** ** File trees *)

Module Fs.

#[warnings="-register-all"]
Inductive node :=
| File (content : string)
| Dir (entries : list (string * node)).

Fixpoint alookup (name : string) (es : list (string * node)) : option node :=
  match es with
  | [] => None
  | (k, v) :: es' => if String.eqb k name then Some v else alookup name es'
  end.

(** Replace the entry in place, or append a new one. *)
Fixpoint ainsert (name : string) (n : node) (es : list (string * node)) : list (string * node) :=
  match es with
  | [] => [(name, n)]
  | (k, v) :: es' =>
      if String.eqb k name then (k, n) :: es' else (k, v) :: ainsert name n es'
  end.

Fixpoint adelete (name : string) (es : list (string * node)) : list (string * node) :=
  match es with
  | [] => []
  | (k, v) :: es' =>
      if String.eqb k name then adelete name es' else (k, v) :: adelete name es'
  end.

(** The node a path resolves to. *)
Fixpoint lookup (p : list string) (n : node) : option node :=
  match p with
  | [] => Some n
  | s :: p' =>
      match n with
      | Dir es =>
          match alookup s es with
          | Some child => lookup p' child
          | None => None
          end
      | File _ => None
      end
  end.

(** Put [new] at [p]; the parent of [p] must resolve to a directory,
    otherwise nothing changes. *)
Fixpoint set_at (p : list string) (new : node) (n : node) : node :=
  match p with
  | [] => new
  | s :: p' =>
      match n with
      | Dir es =>
          match alookup s es with
          | Some child => Dir (ainsert s (set_at p' new child) es)
          | None =>
              match p' with
              | [] => Dir (ainsert s new es)
              | _ :: _ => n
              end
          end
      | File _ => n
      end
  end.

(** Remove what [p] resolves to, if anything. *)
Fixpoint remove_at (p : list string) (n : node) : node :=
  match p with
  | [] => n
  | s :: p' =>
      match n with
      | Dir es =>
          match p' with
          | [] => Dir (adelete s es)
          | _ :: _ =>
              match alookup s es with
              | Some child => Dir (ainsert s (remove_at p' child) es)
              | None => n
              end
          end
      | File _ => n
      end
  end.

(** A node with nothing below it. *)
Definition leaf (n : node) : Prop :=
  match n with
  | File _ => True
  | Dir es => es = []
  end.

(** What [stat] tells about a path. *)
Inductive kind :=
| IsFile (content : string)
| IsDir.

Definition kind_of (n : node) : kind :=
  match n with
  | File c => IsFile c
  | Dir _ => IsDir
  end.

Definition stat (p : list string) (n : node) : option kind :=
  kind_of <$> lookup p n.

(** Two trees that [stat] cannot tell apart. *)
Definition same_stat (t s : node) : Prop :=
  forall q, stat q t = stat q s.

(** Both files, or both directories. *)
Definition same_class (k k' : kind) : Prop :=
  match k, k' with
  | IsFile _, IsFile _ => True
  | IsDir, IsDir => True
  | _, _ => False
  end.

(** The content of the file at [p], if [p] resolves to a file. *)
Definition file_at (p : list string) (n : node) : option string :=
  match lookup p n with
  | Some (File c) => Some c
  | _ => None
  end.

(** Entry names are valid and unique in every directory. *)
Fixpoint wf (n : node) : bool :=
  match n with
  | File _ => true
  | Dir es =>
      (fix go (seen : list string) (es : list (string * node)) : bool :=
         match es with
         | [] => true
         | (k, v) :: es' =>
             Path.valid_name k
             && negb (existsb (String.eqb k) seen)
             && wf v
             && go (k :: seen) es'
         end) [] es
  end.

(** Every file below a node, with the path that leads to it and its
    content, in the order a recursive listing meets them. *)
Fixpoint files_under (n : node) : list (list string * string) :=
  match n with
  | File _ => []
  | Dir es =>
      (fix each (es : list (string * node)) : list (list string * string) :=
         match es with
         | [] => []
         | (k, v) :: es' =>
             match v with
             | File c => [([k], c)]
             | Dir _ => map (fun rc => (k :: rc.1, rc.2)) (files_under v)
             end ++ each es'
         end) es
  end.

(** *** Asynchronous file operations

    An operation takes the tree and gives the tree it leaves with [Some]
    result, or with [None] when its promise is rejected.  The rejections
    are those the tree decides: a file where a directory is needed, a
    directory where a file is written.  What the platform refuses beyond
    that (a name or a path that is too long, no space left, no permission)
    is not in the tree: the operation is then rejected where it completes
    here.  Properties of a sequence of operations are therefore stated
    for a sequence that completed, or so that they hold also when it was
    rejected on the way. *)

Definition io (A : Type) : Type := node -> node * option A.

Definition ret {A} (a : A) : io A := fun d => (d, Some a).

Definition throw {A} : io A := fun d => (d, None).

Definition bind {A B} (m : io A) (k : A -> io B) : io B :=
  fun d =>
    match m d with
    | (d', Some a) => k a d'
    | (d', None) => (d', None)
    end.

(** [fs.rm(p, { recursive: true, force: true })] *)
Definition rm (p : list string) : io unit :=
  fun d => (remove_at p d, Some tt).

(** [fs.mkdir(p, { recursive: true })]: every missing directory on the way
    is created; an existing file on the way rejects. *)
Fixpoint mkdir_from (cur rest : list string) : io unit :=
  match rest with
  | [] => ret tt
  | s :: rest' =>
      let next := cur ++ [s] in
      fun d =>
        match lookup next d with
        | Some (Dir _) => mkdir_from next rest' d
        | Some (File _) => (d, None)
        | None => mkdir_from next rest' (set_at next (Dir []) d)
        end
  end.

Definition mkdir (p : list string) : io unit :=
  fun d =>
    match d with
    | Dir _ => mkdir_from [] p d
    | File _ => (d, None)
    end.

(** [fs.writeFile(p, content)]: the parent must be a directory and [p] must
    not be one; the file is created or replaced. *)
Definition writeFile (p : Path.t) (content : string) : io unit :=
  fun d =>
    if Path.trailingSep p then (d, None)
    else
      match Path.segments p with
      | [] => (d, None)
      | _ :: _ =>
          match lookup (removelast (Path.segments p)) d, lookup (Path.segments p) d with
          | Some (Dir _), Some (Dir _) => (d, None)
          | Some (Dir _), _ => (set_at (Path.segments p) (File content) d, Some tt)
          | _, _ => (d, None)
          end
      end.

(** [fs.readFile(p, 'utf8')] *)
Definition readFile (p : Path.t) : io string :=
  fun d =>
    if Path.trailingSep p then (d, None)
    else
      match lookup (Path.segments p) d with
      | Some (File c) => (d, Some c)
      | _ => (d, None)
      end.

(** [fs.readdir(p, { withFileTypes: true })] *)
Definition readdir (p : list string) : io (list (string * node)) :=
  fun d =>
    match lookup p d with
    | Some (Dir es) => (d, Some es)
    | _ => (d, None)
    end.

End Fs.

Notation "'do' x <- m ; k" := (Fs.bind m (fun x => k))
  (at level 10, x name, m at level 100, k at level 200, only parsing).
Notation "'run' m ; k" := (Fs.bind m (fun _ => k))
  (at level 10, m at level 100, k at level 200, only parsing).

(** ** The server: [/api/code-agent] and [/api/cli-inject] *)

Module Server.

(** An element of [req.body.files]. *)
Record FileRecord := { filePath : string; content : string }.

(** An element of [modifiedFiles]: [{ filePath, modifiedContent }]. *)
Record ModifiedFile := { mf_filePath : string; modifiedContent : string }.

(** What is written to the response: the NDJSON records of the stream and
    the bodies of the error responses. *)
Inductive record :=
| StdoutRecord (line : string)
| ModifiedFilesRecord (modifiedFiles : list ModifiedFile)
| ValidationError
| RequestFailed
| SpawnFailure
| ExitFailure (exitCode : option Z).

Record response := {
  headersSent : bool;
  statusCode : nat;
  body : list record;
  finished : bool
}.

Definition res_init : response :=
  {| headersSent := false; statusCode := 200; body := []; finished := false |}.

(** [res.write(JSON.stringify(r) + '\n')] *)
Definition res_write (r : record) (res : response) : response :=
  {| headersSent := true; statusCode := statusCode res;
     body := body res ++ [r]; finished := finished res |}.

(** [res.status(code).json(r)] *)
Definition res_status_json (code : nat) (r : record) (res : response) : response :=
  {| headersSent := true; statusCode := code;
     body := body res ++ [r]; finished := true |}.

(** [res.end()] *)
Definition res_end (res : response) : response :=
  {| headersSent := true; statusCode := statusCode res;
     body := body res; finished := true |}.

(** How the child process behaved: it could not be spawned, or it wrote
    chunks to its standard output, left the disk in some state and exited
    with a code ([None] when a signal ended it). *)
Inductive agent_outcome :=
| SpawnFailed
| Exited (stdoutChunks : list string) (code : option Z) (finalDisk : Fs.node).

(** The external agent: from the command, its arguments, its working
    directory and the disk it is started on. *)
Definition Agent : Type :=
  string -> list string -> list string -> Fs.node -> agent_outcome.

Record Request := { prompt : string; files : list FileRecord; useClaude : bool }.

(** The normalized relative path of the workspace file that the segments
    [rel] lead to. *)
Definition relpath (rel : list string) : string :=
  JsString.replace_backslashes (JsString.join "/" rel).

Section Handlers.

(** [__dirname], the directory of [server.js]. *)
Variable dirname : list string.

(** [path.join(__dirname, 'USER_FILES')] *)
Definition userFilesDir : list string :=
  Path.segments (Path.join dirname "USER_FILES").

(** The [for (const file of files)] loop of workspace preparation. *)
Fixpoint populate (files : list FileRecord) (originalFileContents : gmap string string)
  : Fs.io (gmap string string) :=
  match files with
  | [] => Fs.ret originalFileContents
  | file :: rest =>
      let normalizedFilePath := JsString.replace_backslashes (filePath file) in
      let originalFileContents := <[normalizedFilePath := content file]> originalFileContents in
      let filePath := Path.join userFilesDir (filePath file) in
      let dirName := Path.dirname filePath in
      run Fs.mkdir dirName;
      run Fs.writeFile filePath (content file);
      populate rest originalFileContents
  end.

(** What holds of the workspace while it is populated: the files written
    so far are there, and nothing else is. *)
Definition populated (done : list FileRecord) (d : Fs.node) : Prop :=
  Fs.stat userFilesDir d = Some Fs.IsDir
  /\ (forall f, In f done ->
        Fs.stat (userFilesDir ++ JsString.split SLASH (filePath f)) d
        = Some (Fs.IsFile (content f)))
  /\ (forall q c, Fs.stat (userFilesDir ++ q) d = Some (Fs.IsFile c) ->
        exists f, In f done /\ q = JsString.split SLASH (filePath f))
  /\ (forall q, q <> [] -> Fs.stat (userFilesDir ++ q) d = Some Fs.IsDir ->
        exists f, In f done /\ q `prefix_of` JsString.split SLASH (filePath f)
                  /\ q <> JsString.split SLASH (filePath f)).

(** Every file found in the workspace is one that the loop wrote, with the
    content it was given. *)
Definition written_by (files : list FileRecord) (d : Fs.node) : Prop :=
  forall q c,
    Fs.file_at (userFilesDir ++ q) d = Some c ->
    exists f, In f files
              /\ Path.segments (Path.join userFilesDir (filePath f)) = userFilesDir ++ q
              /\ content f = c.

(** Workspace preparation: wipe, recreate, populate. *)
Definition prepare (files : list FileRecord) : Fs.io (gmap string string) :=
  run Fs.rm userFilesDir;
  run Fs.mkdir userFilesDir;
  populate files ∅.

(** [str.split('\n').filter(line => line.trim() !== '')] *)
Definition stdout_lines (chunk : string) : list string :=
  List.filter JsString.non_blank (JsString.split LF chunk).

(** [child.stdout.on('data', ...)] *)
Definition on_stdout_data (res : response) (chunk : string) : response :=
  fold_left (fun res line => res_write (StdoutRecord line) res) (stdout_lines chunk) res.

(** [getAllFiles(dirPath, fileList)] on the directory node [readdir]
    gives for [dirPath]. *)
Fixpoint getAllFiles (dirPath : list string) (dir : Fs.node) (fileList : list Path.t)
  : list Path.t :=
  match dir with
  | Fs.File _ => fileList
  | Fs.Dir entries =>
      (fix each (entries : list (string * Fs.node)) (fileList : list Path.t) : list Path.t :=
         match entries with
         | [] => fileList
         | (name, entry) :: rest =>
             let fullPath := Path.join dirPath name in
             match entry with
             | Fs.Dir _ => each rest (getAllFiles (Path.segments fullPath) entry fileList)
             | Fs.File _ => each rest (fileList ++ [fullPath])
             end
         end) entries fileList
  end.

Definition relativePath_of (filePath : Path.t) : string :=
  JsString.replace_backslashes (Path.relative userFilesDir (Path.segments filePath)).

(** [originalContent !== newContent], where a missing entry is
    [undefined]. *)
Definition differs (originalContent : option string) (newContent : string) : bool :=
  match originalContent with
  | Some original => negb (String.eqb original newContent)
  | None => true
  end.

(** What the comparison of one file adds to [modifiedFiles]. *)
Definition modified_entry (originalFileContents : gmap string string)
    (relativePath newContent : string) : list ModifiedFile :=
  if differs (originalFileContents !! relativePath) newContent
  then [{| mf_filePath := relativePath; modifiedContent := newContent |}]
  else [].

(** The [GEMINI.md] test of [/api/cli-inject]. *)
Definition is_gemini_md (relativePath : string) : bool :=
  String.eqb (Path.basename relativePath) "GEMINI.md".

(** The [for (const filePath of allFilePaths)] loop of [/api/code-agent]. *)
Fixpoint diff_loop (originalFileContents : gmap string string)
    (allFilePaths : list Path.t) (modifiedFiles : list ModifiedFile)
  : Fs.io (list ModifiedFile) :=
  match allFilePaths with
  | [] => Fs.ret modifiedFiles
  | filePath :: rest =>
      let relativePath := relativePath_of filePath in
      let originalContent := originalFileContents !! relativePath in
      do newContent <- Fs.readFile filePath;
      diff_loop originalFileContents rest
        (if differs originalContent newContent
         then modifiedFiles ++ [{| mf_filePath := relativePath; modifiedContent := newContent |}]
         else modifiedFiles)
  end.

(** The same loop in [/api/cli-inject], which skips [GEMINI.md]. *)
Fixpoint diff_loop_cli (originalFileContents : gmap string string)
    (allFilePaths : list Path.t) (modifiedFiles : list ModifiedFile)
  : Fs.io (list ModifiedFile) :=
  match allFilePaths with
  | [] => Fs.ret modifiedFiles
  | filePath :: rest =>
      let relativePath := relativePath_of filePath in
      if is_gemini_md relativePath
      then diff_loop_cli originalFileContents rest modifiedFiles
      else
        let originalContent := originalFileContents !! relativePath in
        do newContent <- Fs.readFile filePath;
        diff_loop_cli originalFileContents rest
          (if differs originalContent newContent
           then modifiedFiles ++ [{| mf_filePath := relativePath; modifiedContent := newContent |}]
           else modifiedFiles)
  end.

(** The change detector of [/api/code-agent]: enumerate, then compare. *)
Definition detect (originalFileContents : gmap string string) : Fs.io (list ModifiedFile) :=
  do entries <- Fs.readdir userFilesDir;
  diff_loop originalFileContents (getAllFiles userFilesDir (Fs.Dir entries) []) [].

(** The change detector of [/api/cli-inject]. *)
Definition detect_cli (originalFileContents : gmap string string) : Fs.io (list ModifiedFile) :=
  do entries <- Fs.readdir userFilesDir;
  diff_loop_cli originalFileContents (getAllFiles userFilesDir (Fs.Dir entries) []) [].

Definition exited_ok (code : option Z) : bool :=
  match code with
  | Some 0%Z => true
  | _ => false
  end.

(** [child.on('close', async code => ...)] of [/api/code-agent]. *)
Definition on_close (code : option Z) (originalFileContents : gmap string string)
    (res : response) : Fs.io response :=
  if negb (exited_ok code) then
    let res := if negb (headersSent res)
               then res_status_json 500 (ExitFailure code) res
               else res in
    Fs.ret (res_end res)
  else
    do modifiedFiles <- detect originalFileContents;
    Fs.ret (res_end (res_write (ModifiedFilesRecord modifiedFiles) res)).

Definition cliCommand (useClaude : bool) : string :=
  if useClaude then "claude" else "gemini".

Definition cliArgs (useClaude : bool) (prompt : string) : list string :=
  [ if useClaude then "--dangerously-skip-permissions" else "--yolo";
    "-p " +:+ String (ascii_of_nat 34) prompt +:+ String (ascii_of_nat 34) "" ].

(** [app.post('/api/code-agent', ...)]: the disk the handler leaves and the
    response the caller gets.  A rejection inside the [close] handler is
    not caught: the response is left as it was. *)
Definition code_agent (agent : Agent) (req : Request) (disk : Fs.node)
  : Fs.node * response :=
  if (String.eqb (prompt req) "" || Nat.eqb (length (files req)) 0)%bool then
    (disk, res_status_json 400 ValidationError res_init)
  else
    match prepare (files req) disk with
    | (disk, None) => (disk, res_status_json 500 RequestFailed res_init)
    | (disk, Some originalFileContents) =>
        match agent (cliCommand (useClaude req)) (cliArgs (useClaude req) (prompt req))
                userFilesDir disk with
        | SpawnFailed => (disk, res_end (res_status_json 500 SpawnFailure res_init))
        | Exited stdoutChunks code disk =>
            let res := fold_left on_stdout_data stdoutChunks res_init in
            match on_close code originalFileContents res disk with
            | (disk, Some res) => (disk, res)
            | (disk, None) => (disk, res)
            end
        end
    end.

End Handlers.

End Server.

(** ** The client: review and approval in [App.js] *)

Module Client.

Import Server.

(** *** The File System Access API on the selected folder

    The true store is the tree behind the directory handle the user
    picked; a handle is the path of its entry in that tree. *)

(** [handle.getDirectoryHandle(name, { create: true })]: [NotFoundError]
    when the handle is stale, [TypeError] for an invalid name,
    [TypeMismatchError] when the entry is a file. *)
Definition getDirectoryHandle (handle : list string) (name : string)
  : Fs.io (list string) :=
  fun store =>
    match Fs.lookup handle store with
    | Some (Fs.Dir _) =>
        if negb (Path.valid_name name) then (store, None)
        else
          match Fs.lookup (handle ++ [name]) store with
          | Some (Fs.Dir _) => (store, Some (handle ++ [name]))
          | Some (Fs.File _) => (store, None)
          | None => (Fs.set_at (handle ++ [name]) (Fs.Dir []) store, Some (handle ++ [name]))
          end
    | _ => (store, None)
    end.

(** [handle.getFileHandle(name, { create: true })]: a missing file is
    created empty; [TypeMismatchError] when the entry is a directory. *)
Definition getFileHandle (handle : list string) (name : string)
  : Fs.io (list string) :=
  fun store =>
    match Fs.lookup handle store with
    | Some (Fs.Dir _) =>
        if negb (Path.valid_name name) then (store, None)
        else
          match Fs.lookup (handle ++ [name]) store with
          | Some (Fs.File _) => (store, Some (handle ++ [name]))
          | Some (Fs.Dir _) => (store, None)
          | None => (Fs.set_at (handle ++ [name]) (Fs.File "") store, Some (handle ++ [name]))
          end
    | _ => (store, None)
    end.

(** [createWritable()], [write(content)], [close()]: the file's content is
    replaced as a whole. *)
Definition write_and_close (fileHandle : list string) (content : string) : Fs.io unit :=
  fun store =>
    match Fs.lookup fileHandle store with
    | Some (Fs.File _) => (Fs.set_at fileHandle (Fs.File content) store, Some tt)
    | _ => (store, None)
    end.

(** The [for (let i = 0; i < pathParts.length - 1; i++)] loop. *)
Fixpoint traverse (currentHandle : list string) (parts : list string)
  : Fs.io (list string) :=
  match parts with
  | [] => Fs.ret currentHandle
  | part :: rest =>
      do currentHandle <- getDirectoryHandle currentHandle part;
      traverse currentHandle rest
  end.

Definition writeFileToDirectoryHandle (directoryHandle : list string)
    (relativePath : string) (content : string) : Fs.io unit :=
  let pathParts := JsString.split SLASH relativePath in
  do currentHandle <- traverse directoryHandle (removelast pathParts);
  let fileName := List.last pathParts "" in
  do fileHandle <- getFileHandle currentHandle fileName;
  write_and_close fileHandle content.

(** *** Reading the selected folder

    [files.push(...)] in the loop over the entries is rendered as the
    concatenation, in order, of what each entry contributes. *)

Definition IGNORE_DIRS_COMMON : list string :=
  ["__pycache__"; "node_modules"; ".git"; ".env"; "img"; "build"; "dist"; "out";
   "temp"; "backups"; "assets"; "res"; "example"; "data"; "sync"; "util";
   ".gradle"; ".idea"].

Definition IGNORE_DIRS_NOVO : list string :=
  ["__pycache__"; "node_modules"; ".git"; ".env"; "img"; "build"; "dist"; "out";
   "temp"; "backups"; "assets"; "example"; ".gradle"; ".idea"; "test"; "core";
   "fastlane"; "gradle"; "Jenkins"; "raw"].

Definition IGNORE_EXTENSIONS : list string :=
  [".apk"; ".lock"; ".ttf"; ".properties"; ".gradle"; ".json"; ".env"; ".git";
   ".png"; ".jpg"; ".jpeg"; ".gif"; ".svg"; ".gitignore"; ".ico"; ".mp3"; ".wav";
   ".mp4"; ".mov"; ".avi"; ".wmv"; ".pdf"; ".doc"; ".docx"; ".ppt"; ".pptx"].

Definition includes (l : list string) (s : string) : bool :=
  existsb (String.eqb s) l.

(** [entryPath.substring(1)] *)
Definition substring1 (s : string) : string :=
  match s with
  | EmptyString => EmptyString
  | String _ s' => s'
  end.

Fixpoint readAllFilesFromDirectoryHandle (isNovo : bool) (directory : Fs.node)
    (relativePath : string) : list FileRecord :=
  let IGNORE_DIRS := if isNovo then IGNORE_DIRS_NOVO else IGNORE_DIRS_COMMON in
  match directory with
  | Fs.File _ => []
  | Fs.Dir entries =>
      (fix each (entries : list (string * Fs.node)) : list FileRecord :=
         match entries with
         | [] => []
         | (name, entry) :: rest =>
             let entryPath := relativePath +:+ "/" +:+ name in
             match entry with
             | Fs.File text =>
                 if existsb (JsString.endsWith name) IGNORE_EXTENSIONS
                 then []
                 else [{| filePath := substring1 entryPath; content := text |}]
             | Fs.Dir _ =>
                 if negb (includes IGNORE_DIRS name)
                 then readAllFilesFromDirectoryHandle isNovo entry entryPath
                 else []
             end ++ each rest
         end) entries
  end.

(** *** Application state *)

(** What is caught in [handleCodeAgent] and [handleApproveChanges]; the
    text of [error.message] is the engine's or the server's. *)
Inductive failure :=
| HandleUnreadable
    (* the exception of [directoryHandle.values()] for a folder that is gone *)
| ResponseNotOk (response : response)
    (* [new Error(`Failed to run code agent: ${response.statusText}. ${errorData}`)] *)
| NoFirstFile
    (* the [TypeError] of [data.modifiedFiles[0].filePath] for an empty list *)
| WriteRejected.
    (* the exception of the write that was rejected *)

Inductive notice :=
| Info (message : string)
| Success (message : string)
| Error (message : string)
| Failed (context : string) (cause : failure).
    (* [{ message: `${context}: ${error.message}`, type: 'error' }] *)

Inductive message :=
| AssistantMessage (content : string)
| ErrorMessage (context : string) (cause : failure).
    (* [{ role: 'assistant', content: `${context}: ${error.message}` }] *)

Record App := {
  directoryHandle : option (list string);
  localRoute : string;
  isNovo : bool;
  appUseClaude : bool;
  pendingChanges : list ModifiedFile;
  originalFiles : list FileRecord;
  activeDiffTab : string;
  showCodeAgentDiff : bool;
  showDiffPanel : bool;
  implemented : bool;
  messages : list message;
  notification : option notice
}.

Definition setNotification (n : notice) (app : App) : App :=
  {| directoryHandle := directoryHandle app; localRoute := localRoute app;
     isNovo := isNovo app; appUseClaude := appUseClaude app;
     pendingChanges := pendingChanges app; originalFiles := originalFiles app;
     activeDiffTab := activeDiffTab app; showCodeAgentDiff := showCodeAgentDiff app;
     showDiffPanel := showDiffPanel app; implemented := implemented app;
     messages := messages app; notification := Some n |}.

Definition setPendingChanges (changes : list ModifiedFile) (app : App) : App :=
  {| directoryHandle := directoryHandle app; localRoute := localRoute app;
     isNovo := isNovo app; appUseClaude := appUseClaude app;
     pendingChanges := changes; originalFiles := originalFiles app;
     activeDiffTab := activeDiffTab app; showCodeAgentDiff := showCodeAgentDiff app;
     showDiffPanel := showDiffPanel app; implemented := implemented app;
     messages := messages app; notification := notification app |}.

Definition setOriginalFiles (original : list FileRecord) (app : App) : App :=
  {| directoryHandle := directoryHandle app; localRoute := localRoute app;
     isNovo := isNovo app; appUseClaude := appUseClaude app;
     pendingChanges := pendingChanges app; originalFiles := original;
     activeDiffTab := activeDiffTab app; showCodeAgentDiff := showCodeAgentDiff app;
     showDiffPanel := showDiffPanel app; implemented := implemented app;
     messages := messages app; notification := notification app |}.

(** [setActiveDiffTab], [setShowCodeAgentDiff] and [setShowDiffPanel]
    together. *)
Definition setDiffView (tab : string) (codeAgentDiff diffPanel : bool) (app : App) : App :=
  {| directoryHandle := directoryHandle app; localRoute := localRoute app;
     isNovo := isNovo app; appUseClaude := appUseClaude app;
     pendingChanges := pendingChanges app; originalFiles := originalFiles app;
     activeDiffTab := tab; showCodeAgentDiff := codeAgentDiff;
     showDiffPanel := diffPanel; implemented := implemented app;
     messages := messages app; notification := notification app |}.

Definition setImplemented (app : App) : App :=
  {| directoryHandle := directoryHandle app; localRoute := localRoute app;
     isNovo := isNovo app; appUseClaude := appUseClaude app;
     pendingChanges := pendingChanges app; originalFiles := originalFiles app;
     activeDiffTab := activeDiffTab app; showCodeAgentDiff := showCodeAgentDiff app;
     showDiffPanel := showDiffPanel app; implemented := true;
     messages := messages app; notification := notification app |}.

Definition pushMessage (m : message) (app : App) : App :=
  {| directoryHandle := directoryHandle app; localRoute := localRoute app;
     isNovo := isNovo app; appUseClaude := appUseClaude app;
     pendingChanges := pendingChanges app; originalFiles := originalFiles app;
     activeDiffTab := activeDiffTab app; showCodeAgentDiff := showCodeAgentDiff app;
     showDiffPanel := showDiffPanel app; implemented := implemented app;
     messages := messages app ++ [m]; notification := notification app |}.

(** *** Commit *)

(** The [for (const modifiedFile of pendingChanges)] loop. *)
Fixpoint apply_changes (directoryHandle : list string) (changes : list ModifiedFile)
  : Fs.io unit :=
  match changes with
  | [] => Fs.ret tt
  | modifiedFile :: rest =>
      run writeFileToDirectoryHandle directoryHandle
            (mf_filePath modifiedFile) (modifiedContent modifiedFile);
      apply_changes directoryHandle rest
  end.

(** Where a pending change is written: the handle's path followed by the
    segments of the relative path. *)
Definition target (directoryHandle : list string) (modifiedFile : ModifiedFile)
  : list string :=
  directoryHandle ++ JsString.split SLASH (mf_filePath modifiedFile).

(** The targets of the writes that [apply_changes] completes: all of them,
    or those before the first write that fails. *)
Fixpoint executed (directoryHandle : list string) (changes : list ModifiedFile)
    (store : Fs.node) : list (list string) :=
  match changes with
  | [] => []
  | modifiedFile :: rest =>
      match writeFileToDirectoryHandle directoryHandle
              (mf_filePath modifiedFile) (modifiedContent modifiedFile) store with
      | (store, Some _) =>
          target directoryHandle modifiedFile :: executed directoryHandle rest store
      | (_, None) => []
      end
  end.

(** [handleApproveChanges]: the true store and the application state it
    leaves. *)
Definition handleApproveChanges (app : App) (store : Fs.node) : Fs.node * App :=
  match directoryHandle app, pendingChanges app with
  | None, _ | _, [] =>
      (store, setNotification (Info "No pending changes or folder not selected.") app)
  | Some handle, changes =>
      match apply_changes handle changes store with
      | (store, Some _) =>
          (store,
           setDiffView "" false false
             (setOriginalFiles []
                (setPendingChanges []
                   (setImplemented
                      (setNotification
                         (Success "Changes approved and applied to local files!") app)))))
      | (store, None) =>
          (store, setNotification (Failed "Failed to apply changes" WriteRejected) app)
      end
  end.

(** The close button of the code-agent diff: the proposal is dropped. *)
Definition discardChanges (app : App) : App :=
  setDiffView "" false (showDiffPanel app) (setOriginalFiles [] (setPendingChanges [] app)).

(** *** Propose *)

(** One parsed line of the response stream in [handleCodeAgent]; [false]
    when reading [data.modifiedFiles[0].filePath] throws, the list being
    empty. *)
Definition on_record (r : record) (app : App) : App * bool :=
  match r with
  | StdoutRecord line =>
      (if String.eqb line "" then app else pushMessage (AssistantMessage line) app, true)
  | ModifiedFilesRecord modifiedFiles =>
      let app := setPendingChanges modifiedFiles app in
      match modifiedFiles with
      | [] => (app, false)
      | first :: _ => (setDiffView (mf_filePath first) true false app, true)
      end
  | _ => (app, true)
  end.

Fixpoint read_stream (records : list record) (app : App) : App * bool :=
  match records with
  | [] => (app, true)
  | r :: rest =>
      match on_record r app with
      | (app, true) => read_stream rest app
      | (app, false) => (app, false)
      end
  end.

(** The [catch] of [handleCodeAgent]. *)
Definition code_agent_failed (error : failure) (app : App) : App :=
  pushMessage (ErrorMessage "Sorry, I encountered an error with the code agent" error)
    (setNotification (Failed "Failed to run code agent" error) app).

(** [filesToProcess.map(file => file.content ? { ...file, content:
    String(file.content).trim() } : file)] *)
Definition trimFiles (filesToProcess : list FileRecord) : list FileRecord :=
  map (fun file =>
         if negb (String.eqb (content file) "")
         then {| filePath := filePath file; content := JsString.trim (content file) |}
         else file) filesToProcess.

(** What [handleCodeAgent] submits for the folder behind the handle. *)
Definition submitted (isNovo : bool) (directory : Fs.node) : list FileRecord :=
  trimFiles (readAllFilesFromDirectoryHandle isNovo directory "").

(** The caller's files and the server's workspace are on one file system;
    the directory handle is the path of the folder that the caller
    picked. *)
Record World := { disk : Fs.node; app : App }.

(** [handleCodeAgent(prompt)] against a server handler. *)
Definition handleCodeAgent
    (server : Request -> Fs.node -> Fs.node * response)
    (prompt : string) (w : World) : World :=
  let app := app w in
  match directoryHandle app with
  | None =>
      {| disk := disk w;
         app := setNotification
                  (Info (if String.eqb (JsString.trim (localRoute app)) ""
                         then "Please select a folder to run the code agent."
                         else "Code agent currently only works with a selected folder."))
                  app |}
  | Some handle =>
      match Fs.lookup handle (disk w) with
      | Some (Fs.Dir entries) =>
          let filesToProcess :=
            readAllFilesFromDirectoryHandle (isNovo app) (Fs.Dir entries) "" in
          let trimmedFiles := trimFiles filesToProcess in
          let app := setOriginalFiles filesToProcess app in
          let (disk, response) :=
            server {| prompt := prompt; files := trimmedFiles;
                      useClaude := appUseClaude app |}
                   (disk w) in
          let ok := ((200 <=? statusCode response) && (statusCode response <=? 299))%nat in
          {| disk := disk;
             app := if negb ok then code_agent_failed (ResponseNotOk response) app
                    else match read_stream (body response) app with
                         | (app, true) => app
                         | (app, false) => code_agent_failed NoFirstFile app
                         end |}
      | _ => {| disk := disk w; app := code_agent_failed HandleUnreadable app |}
      end
  end.

(** What the user can do with the pipeline. *)
Inductive action :=
| RunCodeAgent (agent : Agent) (prompt : string)
| ApproveChanges
| CloseDiff.

Definition step (dirname : list string) (a : action) (w : World) : World :=
  match a with
  | RunCodeAgent agent prompt => handleCodeAgent (code_agent dirname agent) prompt w
  | ApproveChanges =>
      let (store, app) := handleApproveChanges (app w) (disk w) in
      {| disk := store; app := app |}
  | CloseDiff => {| disk := disk w; app := discardChanges (app w) |}
  end.

(** An agent that changes no file outside its working directory. *)
Definition stays_in (cwd : list string) (agent : Agent) : Prop :=
  forall command args d q,
    ~ cwd `prefix_of` q ->
    match agent command args cwd d with
    | Exited _ _ finalDisk => Fs.file_at q finalDisk = Fs.file_at q d
    | SpawnFailed => True
    end.

(** The actions of the propose phase and the discarding, with an agent
    that keeps to the workspace. *)
Definition proposes (dirname : list string) (a : action) : Prop :=
  match a with
  | RunCodeAgent agent _ => stays_in (userFilesDir dirname) agent
  | ApproveChanges => False
  | CloseDiff => True
  end.

End Client.

(** ** Concrete inputs *)

Module Examples.

Import Server.

(** The server lives in [/srv/app]. *)
Definition dirname : list string := ["srv"; "app"].

Definition disk : Fs.node :=
  Fs.Dir [("srv", Fs.Dir [("app", Fs.Dir [("server.js", Fs.File "const app = express()")])])].

Definition two_files : list FileRecord :=
  [ {| filePath := "a.txt"; content := "hello" |};
    {| filePath := "src/b.txt"; content := "bb" |} ].

(** A path that climbs out of the workspace. *)
Definition escaping : list FileRecord :=
  [ {| filePath := "../evil.txt"; content := "x" |} ].

(** Two distinct paths that [path.join] sends to the same file. *)
Definition aliased : list FileRecord :=
  [ {| filePath := "a.txt"; content := "x" |};
    {| filePath := "./a.txt"; content := "y" |} ].

(** A path that is a file and a directory at once. *)
Definition clashing : list FileRecord :=
  [ {| filePath := "a"; content := "x" |};
    {| filePath := "a/b"; content := "y" |} ].

(** The disk after an agent changed [a.txt], deleted [src/b.txt] and added
    [new.txt] and [GEMINI.md]. *)
Definition final_disk : Fs.node :=
  Fs.Dir
    [("srv",
      Fs.Dir
        [("app",
          Fs.Dir
            [("server.js", Fs.File "const app = express()");
             ("USER_FILES",
              Fs.Dir
                [("a.txt", Fs.File "hello world");
                 ("src", Fs.Dir []);
                 ("new.txt", Fs.File "n");
                 ("GEMINI.md", Fs.File "notes")])])])].

Definition final_workspace : list (string * Fs.node) :=
  [("a.txt", Fs.File "hello world");
   ("src", Fs.Dir []);
   ("new.txt", Fs.File "n");
   ("GEMINI.md", Fs.File "notes")].

(** The snapshot of [two_files]. *)
Definition snapshot : gmap string string :=
  <["src/b.txt" := "bb"]> (<["a.txt" := "hello"]> ∅).

(** The disk and the snapshot that preparing [two_files] on [disk]
    leaves. *)
Definition prepared_disk : Fs.node :=
  Fs.Dir
    [("srv",
      Fs.Dir
        [("app",
          Fs.Dir
            [("server.js", Fs.File "const app = express()");
             ("USER_FILES",
              Fs.Dir
                [("a.txt", Fs.File "hello");
                 ("src", Fs.Dir [("b.txt", Fs.File "bb")])])])])].

(** An agent that reports in two chunks, appends to [a.txt] and exits
    with code 0. *)
Definition editing_agent : Agent :=
  fun _ _ cwd d =>
    Exited ["reading" +:+ String LF "writing" +:+ String LF ""; "done" +:+ String LF ""]
           (Some 0%Z)
           (Fs.set_at (cwd ++ ["a.txt"]) (Fs.File "hello world") d).

(** An agent that reports once and exits with code 1. *)
Definition failing_agent : Agent :=
  fun _ _ _ d => Exited ["working" +:+ String LF ""] (Some 1%Z) d.

Definition request : Request :=
  {| prompt := "append world"; files := two_files; useClaude := false |}.

(** A folder in which [a] is a file, and a proposal whose first change
    needs [a] to be a directory. *)
Definition store : Fs.node := Fs.Dir [("a", Fs.File "x")].

Definition blocked_changes : list ModifiedFile :=
  [ {| mf_filePath := "a/b"; modifiedContent := "1" |};
    {| mf_filePath := "c.txt"; modifiedContent := "2" |} ].

(** A proposal whose second change cannot be written. *)
Definition half_blocked_changes : list ModifiedFile :=
  [ {| mf_filePath := "c.txt"; modifiedContent := "2" |};
    {| mf_filePath := "a/b"; modifiedContent := "1" |};
    {| mf_filePath := "d.txt"; modifiedContent := "3" |} ].

Definition good_changes : list ModifiedFile :=
  [ {| mf_filePath := "c.txt"; modifiedContent := "2" |};
    {| mf_filePath := "lib/d.txt"; modifiedContent := "3" |};
    {| mf_filePath := "c.txt"; modifiedContent := "4" |} ].

Definition app_with (changes : list ModifiedFile) : Client.App :=
  {| Client.directoryHandle := Some [];
     Client.localRoute := "project";
     Client.isNovo := false;
     Client.appUseClaude := false;
     Client.pendingChanges := changes;
     Client.originalFiles := [];
     Client.activeDiffTab := "";
     Client.showCodeAgentDiff := true;
     Client.showDiffPanel := false;
     Client.implemented := false;
     Client.messages := [];
     Client.notification := None |}.

(** The caller's folder, with nothing proposed yet. *)
Definition project : Fs.node :=
  Fs.Dir [("a.txt", Fs.File "hello"); ("src", Fs.Dir [("b.txt", Fs.File "bb")])].

(** The path of the caller's folder on the host. *)
Definition folder : list string := ["home"; "project"].

(** The file system of a host with the server in [/srv/app] and the
    caller's folder in [/home/project]. *)
Definition host : Fs.node :=
  Fs.Dir [("srv", Fs.Dir [("app", Fs.Dir [("server.js", Fs.File "const app = express()")])]);
          ("home", Fs.Dir [("project", project)])].

Definition app_at (handle : list string) (changes : list ModifiedFile) : Client.App :=
  {| Client.directoryHandle := Some handle;
     Client.localRoute := "project";
     Client.isNovo := false;
     Client.appUseClaude := false;
     Client.pendingChanges := changes;
     Client.originalFiles := [];
     Client.activeDiffTab := "";
     Client.showCodeAgentDiff := true;
     Client.showDiffPanel := false;
     Client.implemented := false;
     Client.messages := [];
     Client.notification := None |}.

Definition world : Client.World :=
  {| Client.disk := host; Client.app := app_at folder [] |}.

(** A host on which the caller picked the server's directory, in which an
    earlier run left a file in [USER_FILES]. *)
Definition served_host : Fs.node :=
  Fs.Dir
    [("srv",
      Fs.Dir
        [("app",
          Fs.Dir
            [("server.js", Fs.File "const app = express()");
             ("USER_FILES", Fs.Dir [("notes.txt", Fs.File "mine")])])])].

Definition served_world : Client.World :=
  {| Client.disk := served_host; Client.app := app_at dirname [] |}.

(** An agent that reports nothing, changes nothing and exits with
    code 0. *)
Definition silent_agent : Agent :=
  fun _ _ _ d => Exited [] (Some 0%Z) d.

(** A workspace in which the agent removed [a/b] and wrote a file whose
    name is [a\b], and the snapshot it was prepared with. *)
Definition renamed_workspace : list (string * Fs.node) :=
  [("a\b", Fs.File "new"); ("a", Fs.Dir [])].

Definition renamed_disk : Fs.node :=
  Fs.Dir
    [("srv",
      Fs.Dir
        [("app",
          Fs.Dir
            [("server.js", Fs.File "const app = express()");
             ("USER_FILES", Fs.Dir renamed_workspace)])])].

Definition renamed_snapshot : gmap string string := <["a/b" := "old"]> ∅.

End Examples.

(** ** The specification's wording, for comparison with the code *)

Module Spec.

(** The newline-terminated lines of the whole output of the process: what
    line assembly over the chunks would forward. *)
Definition progress_lines (chunks : list string) : list string :=
  removelast (JsString.split LF (JsString.join "" chunks)).

(** A chunk that ends where a line ends. *)
Definition line_aligned (chunk : string) : bool :=
  match JsString.last_char chunk with
  | Some c => Ascii.eqb c LF
  | None => true
  end.

End Spec.

(** ** More of the two files

    The rest of [App.js] and [server.js] that the pipeline touches: string
    helpers, the reading of the streamed response, the schema store with
    its mirror in the client, the backups and the restore notice. *)

Module JsText.

(** [s.includes(c)] for one character. *)
Fixpoint contains (c : ascii) (s : string) : bool :=
  match s with
  | EmptyString => false
  | String d s' => Ascii.eqb d c || contains c s'
  end.

(** [s.startsWith(prefix)] *)
Definition startsWith (s prefix : string) : bool := String.prefix prefix s.

(** The pieces of a text after an unfinished piece [l]: the first one
    continues [l]. *)
Definition glue_pieces (l : string) (rest : list string) : list string :=
  match rest with
  | [] => [l]
  | h :: t => (l +:+ h) :: t
  end.

End JsText.

(** No entry name below a node contains the character [c]. *)
Fixpoint names_without (c : ascii) (n : Fs.node) : bool :=
  match n with
  | Fs.File _ => true
  | Fs.Dir es =>
      (fix each (es : list (string * Fs.node)) : bool :=
         match es with
         | [] => true
         | (k, v) :: es' => negb (JsText.contains c k) && names_without c v && each es'
         end) es
  end.

Definition CR : ascii := "013"%char.

Module AppHelpers.

(** [normalizeNewlines(text)] for a string: [text.replace(/\r\n|\r/g, '\n')]. *)
Fixpoint normalizeNewlines (text : string) : string :=
  match text with
  | EmptyString => EmptyString
  | String c rest =>
      if Ascii.eqb c CR then
        match rest with
        | String d rest' =>
            if Ascii.eqb d LF then String LF (normalizeNewlines rest')
            else String LF (normalizeNewlines rest)
        | EmptyString => String LF EmptyString
        end
      else String c (normalizeNewlines rest)
  end.

End AppHelpers.

(** The reading loop of [handleCodeAgent]: the body arrives in chunks, the
    complete lines are handed over for parsing and the last, partial line
    is kept in the buffer. *)
Module Reader.

(** One turn of the [while (true)] loop after [reader.read()] gave
    [value]: the lines that are parsed, and the new buffer. *)
Definition read_chunk (buffer value : string) : list string * string :=
  let buffer := buffer +:+ value in
  let lines := JsString.split LF buffer in
  (List.filter JsString.non_blank (removelast lines), List.last lines "").

(** The whole loop, until [done]; what is left in the buffer is not
    parsed. *)
Fixpoint read_body (buffer : string) (values : list string) : list string * string :=
  match values with
  | [] => ([], buffer)
  | value :: rest =>
      let (lines, buffer) := read_chunk buffer value in
      let (more, buffer) := read_body buffer rest in
      (lines ++ more, buffer)
  end.

(** [res.write(line + '\n')] for each line: the bytes of the stream. *)
Definition written (lines : list string) : string :=
  JsString.join "" (map (fun line => line +:+ String LF "") lines).

End Reader.

(** [GET /api/last-restore] *)
Module Restore.

Record state := {
  lastRestoreTimestamp : option string;
  notifiedClientsForRestore : gmap string bool
}.

(** A non-empty string is truthy, [null] is not. *)
Definition truthy (timestamp : option string) : bool :=
  match timestamp with
  | Some t => negb (String.eqb t "")
  | None => false
  end.

(** The handler for a request from [clientIp]: the new state and the
    [timestamp] of the body. *)
Definition last_restore (clientIp : string) (st : state) : state * option string :=
  if truthy (lastRestoreTimestamp st)
     && negb (bool_decide (is_Some (notifiedClientsForRestore st !! clientIp)))
  then ({| lastRestoreTimestamp := lastRestoreTimestamp st;
           notifiedClientsForRestore := <[clientIp := true]> (notifiedClientsForRestore st) |},
        lastRestoreTimestamp st)
  else (st, None).

(** The answers to a sequence of requests. *)
Fixpoint serve (clientIps : list string) (st : state) : state * list (option string) :=
  match clientIps with
  | [] => (st, [])
  | clientIp :: rest =>
      let (st, answer) := last_restore clientIp st in
      let (st, answers) := serve rest st in
      (st, answer :: answers)
  end.

End Restore.


(** ** The schema store of [server.js] *)

Module JsValue.

(** A value of a parsed JSON body, [Undefined] standing for a field the
    body does not have.  Numbers are the integers. *)
#[warnings="-register-all"]
Inductive t :=
| Undefined
| Null
| Bool (b : bool)
| Number (n : Z)
| Str (s : string)
| Array (items : list t)
| Object (fields : list (string * t)).

(** [!!v] *)
Definition truthy (v : t) : bool :=
  match v with
  | Undefined | Null => false
  | Bool b => b
  | Number n => negb (Z.eqb n 0)
  | Str s => negb (String.eqb s "")
  | Array _ | Object _ => true
  end.

(** [a === b] for values of two bodies, parsed one after the other: an
    array or an object of one is never identical to one of the other. *)
Definition strict_equal (a b : t) : bool :=
  match a, b with
  | Undefined, Undefined => true
  | Null, Null => true
  | Bool x, Bool y => Bool.eqb x y
  | Number x, Number y => Z.eqb x y
  | Str x, Str y => String.eqb x y
  | _, _ => false
  end.

End JsValue.

Module Schemas.

(** An element of [storedSchemas], and the fields that the handler reads
    from [req.body]. *)
Record schema := { id : JsValue.t; name : JsValue.t; filledSchema : JsValue.t }.

Inductive reply :=
| Saved
| FieldsRequired
| Listing (schemas : list schema)
| Cleared
| Deleted
| NotFound.

(** [array.findIndex(p)], [None] for [-1]. *)
Fixpoint findIndex (p : schema -> bool) (l : list schema) : option nat :=
  match l with
  | [] => None
  | s :: rest => if p s then Some 0 else S <$> findIndex p rest
  end.

(** [app.post('/api/schemas', ...)] *)
Definition post_schema (body : schema) (storedSchemas : list schema) : list schema * reply :=
  if negb (JsValue.truthy (id body)) || negb (JsValue.truthy (name body))
     || negb (JsValue.truthy (filledSchema body))
  then (storedSchemas, FieldsRequired)
  else
    match findIndex (fun s => JsValue.strict_equal (id s) (id body)) storedSchemas with
    | Some existingIndex => (<[existingIndex := body]> storedSchemas, Saved)
    | None => (storedSchemas ++ [body], Saved)
    end.

(** [app.get('/api/schemas', ...)] *)
Definition get_schemas (storedSchemas : list schema) : list schema * reply :=
  (storedSchemas, Listing storedSchemas).

(** [app.delete('/api/schemas', ...)] *)
Definition delete_schemas (storedSchemas : list schema) : list schema * reply :=
  ([], Cleared).

Section Store.

(** [a == b] for a stored id and the [:id] of the route, a string; how
    JavaScript converts the two is left open. *)
Variable loose_equal : JsValue.t -> string -> bool.

(** [app.delete('/api/schemas/:id', ...)] *)
Definition delete_schema (param : string) (storedSchemas : list schema)
  : list schema * reply :=
  match findIndex (fun s => loose_equal (id s) param) storedSchemas with
  | Some schemaIndex => (delete schemaIndex storedSchemas, Deleted)
  | None => (storedSchemas, NotFound)
  end.

Inductive request :=
| Post (body : schema)
| Get
| DeleteAll
| DeleteOne (param : string).

Definition handle (r : request) (storedSchemas : list schema) : list schema * reply :=
  match r with
  | Post body => post_schema body storedSchemas
  | Get => get_schemas storedSchemas
  | DeleteAll => delete_schemas storedSchemas
  | DeleteOne param => delete_schema param storedSchemas
  end.

(** The store after a sequence of requests. *)
Definition after_requests (requests : list request) (storedSchemas : list schema)
  : list schema :=
  fold_left (fun store r => (handle r store).1) requests storedSchemas.

End Store.

(** No two elements have identical ids. *)
Fixpoint distinct_ids (l : list schema) : bool :=
  match l with
  | [] => true
  | s :: rest =>
      negb (existsb (fun s' => JsValue.strict_equal (id s) (id s')) rest)
      && distinct_ids rest
  end.

End Schemas.


(** ** The backups of [server.js] *)

Module Backups.

(** An entry of the backup directory, which the server creates when it
    starts: its name, its modification time in milliseconds, and whether
    it is a regular file. *)
Record entry := { name : string; mtime : Z; isFile : bool }.

(** An element of [backupFiles]: [{ name, time }]. *)
Record backupFile := { bf_name : string; time : Z }.

(** [file.startsWith('schemas_backup_') && file.endsWith('.json')] *)
Definition is_backup_name (file : string) : bool :=
  JsText.startsWith file "schemas_backup_" && JsString.endsWith file ".json".

(** The loop over [fs.readdir(backupDir)]. *)
Definition backupFiles (dir : list entry) : list backupFile :=
  map (fun e => {| bf_name := name e; time := mtime e |})
      (List.filter (fun e => is_backup_name (name e)) dir).

(** [backupFiles.sort((a, b) => b.time - a.time)]: the sort is stable, so
    it is the insertion of each element before the first one of those after
    it that is not newer. *)
Fixpoint insert_by_time (x : backupFile) (sorted : list backupFile) : list backupFile :=
  match sorted with
  | [] => [x]
  | y :: rest =>
      if (time x <? time y)%Z then y :: insert_by_time x rest else x :: sorted
  end.

Definition sort_newest_first (l : list backupFile) : list backupFile :=
  foldr insert_by_time [] l.

(** No element is newer than one before it. *)
Fixpoint newest_first (l : list backupFile) : Prop :=
  match l with
  | [] => True
  | x :: rest => Forall (fun y => (time y <= time x)%Z) rest /\ newest_first rest
  end.

(** [fs.unlink], which is rejected for a directory; the rejection is caught
    and logged. *)
Definition unlink (file : string) (dir : list entry) : list entry :=
  List.filter (fun e => negb (String.eqb (name e) file && isFile e)) dir.

Definition cleanOldBackups (dir : list entry) : list entry :=
  let backupFiles := sort_newest_first (backupFiles dir) in
  if (24 <? length backupFiles)%nat
  then fold_left (fun dir b => unlink (bf_name b) dir) (drop 24 backupFiles) dir
  else dir.

(** [s.replace(/:/g, '-')] *)
Fixpoint replace_colons (s : string) : string :=
  match s with
  | EmptyString => EmptyString
  | String c rest =>
      String (if Ascii.eqb c ":"%char then "-"%char else c) (replace_colons rest)
  end.

(** A line terminator, which the [.] of a regular expression does not
    match. *)
Definition is_line_terminator (c : ascii) : bool :=
  Ascii.eqb c LF || Ascii.eqb c CR.

(** What is left of a text from its first line terminator on. *)
Fixpoint from_line_end (s : string) : string :=
  match s with
  | EmptyString => EmptyString
  | String c rest => if is_line_terminator c then s else from_line_end rest
  end.

(** [s.replace(/\..+/, '')]: the first dot that is followed by a character
    other than a line terminator is removed, with the rest of its line. *)
Fixpoint strip_fraction (s : string) : string :=
  match s with
  | EmptyString => EmptyString
  | String c rest =>
      if Ascii.eqb c "."%char
         && match rest with
            | String d _ => negb (is_line_terminator d)
            | EmptyString => false
            end
      then from_line_end rest
      else String c (strip_fraction rest)
  end.

(** The name of the file that [createBackup] writes into the backup
    directory when [new Date().toISOString()] is [iso]. *)
Definition backup_name (iso : string) : string :=
  "schemas_backup_" +:+ strip_fraction (replace_colons iso) +:+ ".json".

Section Load.

(** [JSON.parse(await fs.readFile(latestBackup, 'utf8'))], spread into
    [storedSchemas]: [None] when one of the three throws. *)
Variable read_backup : string -> option (list Schemas.schema).

(** [new Date().toISOString()] *)
Variable now : string.

(** [loadLatestBackup]: the store and [lastRestoreTimestamp] it leaves. *)
Definition loadLatestBackup (dir : list entry) (storedSchemas : list Schemas.schema)
  : list Schemas.schema * option string :=
  match sort_newest_first (backupFiles dir) with
  | latestBackup :: _ =>
      match read_backup (bf_name latestBackup) with
      | Some backupData => (backupData, Some now)
      | None => (storedSchemas, None)
      end
  | [] => (storedSchemas, None)
  end.

End Load.

End Backups.

(** ** [/api/cli-inject]: looking for the [main] directory *)

Module CliInject.

(** [path.basename(p)] of an absolute path given by its segments. *)
Definition basename_of (segments : list string) : string := List.last segments "".

(** [findMain(dir)] on the directory node [readdir] gives for [dir]:
    [mainFolderPath] after the call, from [mainFolderPath] before it. *)
Fixpoint findMain (dir : list string) (node : Fs.node)
    (mainFolderPath : option (list string)) : option (list string) :=
  match node with
  | Fs.File _ => mainFolderPath
  | Fs.Dir entries =>
      (fix each (entries : list (string * Fs.node))
               (mainFolderPath : option (list string)) : option (list string) :=
         match entries with
         | [] => mainFolderPath
         | (name, entry) :: rest =>
             let fullPath := Path.join dir name in
             match entry with
             | Fs.Dir _ =>
                 if String.eqb name "main"
                    && String.eqb (basename_of (Path.dirname fullPath)) "src"
                 then Some (Path.segments fullPath)
                 else
                   each rest
                     match mainFolderPath with
                     | None => findMain (Path.segments fullPath) entry mainFolderPath
                     | Some _ => mainFolderPath
                     end
             | Fs.File _ => each rest mainFolderPath
             end
         end) entries mainFolderPath
  end.

(** A directory [main] that lies directly in a directory [src], below
    [node] at [r ++ ["main"]]. *)
Definition main_under_src (dir : list string) (node : Fs.node) (r : list string) : Prop :=
  (exists entries, Fs.lookup (r ++ ["main"]) node = Some (Fs.Dir entries))
  /\ basename_of (dir ++ r) = "src".

End CliInject.

(** ** Inputs for the examples of the further properties *)

Module Cases.

Import Server.

(** The host of [Examples.host] after the files of the caller's folder
    were prepared in the workspace. *)
Definition prepared_host : Fs.node :=
  Fs.Dir
    [("srv",
      Fs.Dir
        [("app",
          Fs.Dir
            [("server.js", Fs.File "const app = express()");
             ("USER_FILES",
              Fs.Dir
                [("a.txt", Fs.File "hello");
                 ("src", Fs.Dir [("b.txt", Fs.File "bb")])])])]);
     ("home", Fs.Dir [("project", Examples.project)])].

(** An agent that reports, changes nothing and exits with code 0. *)
Definition idle_agent : Agent :=
  fun _ _ _ d => Exited ["nothing to do" +:+ String LF ""] (Some 0%Z) d.

(** What a server writes for two progress lines, cut into chunks in the
    middle of a line. *)
Definition sent_lines : list string := ["{a}"; "{b}"].

Definition received_chunks : list string :=
  ["{a"; "}" +:+ String LF "{"; "b}" +:+ String LF ""].

(** A store with two schemas, a schema saved under the id of the second,
    and a schema whose id is an array. *)
Definition stored : list Schemas.schema :=
  [ {| Schemas.id := JsValue.Str "a"; Schemas.name := JsValue.Str "signup";
       Schemas.filledSchema := JsValue.Object [] |};
    {| Schemas.id := JsValue.Number 7; Schemas.name := JsValue.Str "login";
       Schemas.filledSchema := JsValue.Object [] |} ].

Definition renamed : Schemas.schema :=
  {| Schemas.id := JsValue.Number 7; Schemas.name := JsValue.Str "sign in";
     Schemas.filledSchema := JsValue.Object [("event", JsValue.Str "sign_in")] |}.

Definition compound : Schemas.schema :=
  {| Schemas.id := JsValue.Array [JsValue.Number 7]; Schemas.name := JsValue.Str "login";
     Schemas.filledSchema := JsValue.Object [] |}.

(** A project with its sources under [app/src/main]. *)
Definition android : Fs.node :=
  Fs.Dir [("README.md", Fs.File "readme");
          ("app", Fs.Dir [("src", Fs.Dir [("test", Fs.Dir []);
                                          ("main", Fs.Dir [("A.kt", Fs.File "class A")])])])].

(** A backup directory with 26 backups, the later ones newer, a directory
    with a backup name and a file with another name. *)
Definition backup_dir : list Backups.entry :=
  map (fun i => {| Backups.name :=
                     "schemas_backup_" +:+ String (ascii_of_nat (65 + i)) ".json";
                   Backups.mtime := Z.of_nat i; Backups.isFile := true |})
      (seq 0 26)
  ++ [ {| Backups.name := "schemas_backup_old.json"; Backups.mtime := (-1)%Z;
          Backups.isFile := false |};
       {| Backups.name := "notes.txt"; Backups.mtime := (-2)%Z;
          Backups.isFile := true |} ].

End Cases.

(** * Properties *)

(** ** Strings *)

Lemma append_cons (c : ascii) (s t : string) : String c s +:+ t = String c (s +:+ t).
Proof. reflexivity. Qed.

Lemma append_empty_l (s : string) : "" +:+ s = s.
Proof. reflexivity. Qed.

Lemma append_empty_r (s : string) : s +:+ "" = s.
Proof. induction s as [|c s IH]; [reflexivity | now rewrite append_cons, IH]. Qed.

Lemma append_assoc_str (a b c : string) : (a +:+ b) +:+ c = a +:+ (b +:+ c).
Proof. induction a as [|x a IH]; [reflexivity | now rewrite !append_cons, IH]. Qed.

Lemma split_nonempty (sep : ascii) (s : string) : JsString.split sep s <> [].
Proof.
  induction s as [|c s IH]; simpl; [discriminate|].
  destruct (Ascii.eqb c sep); [discriminate|].
  destruct (JsString.split sep s); discriminate.
Qed.

(** Splitting distributes over a separator inside the string. *)
Lemma split_app_sep (sep : ascii) (s t : string) :
  JsString.split sep (s +:+ String sep t) = JsString.split sep s ++ JsString.split sep t.
Proof.
  induction s as [|c s IH]; [rewrite append_empty_l | rewrite append_cons]; simpl.
  - now rewrite Ascii.eqb_refl.
  - destruct (Ascii.eqb c sep); [now rewrite IH|].
    rewrite IH.
    pose proof (split_nonempty sep s) as Hne.
    destruct (JsString.split sep s); [contradiction | reflexivity].
Qed.

Lemma split_ends_with_sep (sep : ascii) (s : string) :
  JsString.split sep (s +:+ String sep "") = JsString.split sep s ++ [""].
Proof. apply split_app_sep. Qed.

Lemma last_char_cons (c : ascii) (s : string) :
  JsString.last_char (String c s) =
  match s with EmptyString => Some c | _ => JsString.last_char s end.
Proof.
  unfold JsString.last_char. destruct s as [|d s]; [reflexivity|].
  simpl. now rewrite Nat.sub_0_r.
Qed.

Lemma line_aligned_inv (chunk : string) :
  Spec.line_aligned chunk = true ->
  chunk = "" \/ exists s, chunk = s +:+ String LF "".
Proof.
  induction chunk as [|c s IH]; [now left|].
  unfold Spec.line_aligned in *. rewrite last_char_cons.
  destruct s as [|d s'].
  - intros H. apply Ascii.eqb_eq in H. subst c. right. now exists "".
  - intros H. destruct (IH H) as [Hs | [u Hu]]; [discriminate|].
    right. exists (String c u). now rewrite append_cons, Hu.
Qed.

Lemma join_empty_cons (c : string) (cs : list string) :
  JsString.join "" (c :: cs) = c +:+ JsString.join "" cs.
Proof.
  destruct cs as [|d cs]; [|reflexivity].
  change (c = c +:+ ""). now rewrite append_empty_r.
Qed.

Lemma removelast_app_nonempty {A} (l l' : list A) :
  l' <> [] -> removelast (l ++ l') = l ++ removelast l'.
Proof. intros H. now apply removelast_app. Qed.

(** ** Standard output forwarding *)

Section Forwarding.

Import Server.

Lemma body_write_lines (lines : list string) (res : response) :
  body (fold_left (fun res line => res_write (StdoutRecord line) res) lines res)
  = body res ++ map StdoutRecord lines.
Proof.
  revert res. induction lines as [|l ls IH]; intros res; simpl.
  - now rewrite app_nil_r.
  - rewrite IH. simpl. now rewrite <- app_assoc.
Qed.

Lemma body_on_stdout_data (chunks : list string) (res : response) :
  body (fold_left on_stdout_data chunks res)
  = body res ++ map StdoutRecord (flat_map stdout_lines chunks).
Proof.
  revert res. induction chunks as [|c cs IH]; intros res; simpl.
  - now rewrite app_nil_r.
  - rewrite IH. unfold on_stdout_data. rewrite body_write_lines.
    rewrite map_app. now rewrite app_assoc.
Qed.

Lemma headersSent_write_lines (lines : list string) (res : response) :
  headersSent (fold_left (fun res line => res_write (StdoutRecord line) res) lines res)
  = match lines with [] => headersSent res | _ => true end.
Proof.
  revert res. induction lines as [|l ls IH]; intros res; [reflexivity|].
  simpl. rewrite IH. now destruct ls.
Qed.

Lemma headersSent_on_stdout_data (chunks : list string) (res : response) :
  headersSent (fold_left on_stdout_data chunks res)
  = match flat_map stdout_lines chunks with [] => headersSent res | _ => true end.
Proof.
  revert res. induction chunks as [|c cs IH]; intros res; [reflexivity|].
  simpl. rewrite IH. unfold on_stdout_data. rewrite headersSent_write_lines.
  destruct (stdout_lines c); simpl; [reflexivity|].
  now destruct (flat_map stdout_lines cs).
Qed.

Lemma statusCode_on_stdout_data (chunks : list string) (res : response) :
  statusCode (fold_left on_stdout_data chunks res) = statusCode res.
Proof.
  revert res. induction chunks as [|c cs IH]; intros res; [reflexivity|].
  simpl. rewrite IH. unfold on_stdout_data.
  generalize (stdout_lines c). intros ls. revert res.
  induction ls as [|l ls IHl]; intros res; [reflexivity|]. simpl. now rewrite IHl.
Qed.

Lemma stdout_lines_aligned (chunks : list string) :
  Forall (fun chunk => Spec.line_aligned chunk = true) chunks ->
  flat_map stdout_lines chunks
  = List.filter JsString.non_blank (Spec.progress_lines chunks).
Proof.
  unfold Spec.progress_lines.
  induction 1 as [|c cs Hc Hcs IH]; [reflexivity|].
  rewrite join_empty_cons. simpl flat_map. rewrite IH.
  destruct (line_aligned_inv c Hc) as [-> | [s ->]].
  - reflexivity.
  - rewrite append_assoc_str, append_cons, append_empty_l.
    rewrite split_app_sep.
    rewrite removelast_app_nonempty by apply split_nonempty.
    unfold stdout_lines. rewrite split_ends_with_sep.
    rewrite !List.filter_app. simpl. now rewrite app_nil_r.
Qed.

(** C3, as amended: for every sequence of chunks, the records forwarded
    are, in arrival order, the non-blank pieces of each chunk split at
    newlines, with no assembly across chunks; and when every chunk ends
    where a line ends, these are exactly the non-blank newline-terminated
    lines of the output, one record per line. *)
Theorem stdout_forwarding_per_chunk (chunks : list string) :
  body (fold_left on_stdout_data chunks res_init)
  = map StdoutRecord (flat_map stdout_lines chunks)
  /\ (Forall (fun chunk => Spec.line_aligned chunk = true) chunks ->
      body (fold_left on_stdout_data chunks res_init)
      = map StdoutRecord (List.filter JsString.non_blank (Spec.progress_lines chunks))).
Proof.
  rewrite body_on_stdout_data. simpl. split; [reflexivity|].
  intros H. now rewrite stdout_lines_aligned.
Qed.

Lemma stdout_forwarding_per_chunk_witness :
  body (fold_left on_stdout_data ["hel"; "lo" +:+ String LF ""] res_init)
  = [StdoutRecord "hel"; StdoutRecord "lo"]
  /\ Forall (fun chunk => Spec.line_aligned chunk = true)
       ["one" +:+ String LF "two" +:+ String LF ""; "three" +:+ String LF ""]
  /\ body (fold_left on_stdout_data
             ["one" +:+ String LF "two" +:+ String LF ""; "three" +:+ String LF ""] res_init)
     = [StdoutRecord "one"; StdoutRecord "two"; StdoutRecord "three"].
Proof.
  split; [exact (proj1 (stdout_forwarding_per_chunk ["hel"; "lo" +:+ String LF ""]))|].
  split.
  - repeat constructor.
  - exact (proj2 (stdout_forwarding_per_chunk
                    ["one" +:+ String LF "two" +:+ String LF ""; "three" +:+ String LF ""])
             ltac:(repeat constructor)).
Defined.

(** C3, as stated, fails: a line split across two chunks is forwarded as
    two records, where line assembly would give one. *)
Lemma stdout_line_split_across_chunks :
  body (fold_left on_stdout_data ["hel"; "lo" +:+ String LF ""] res_init)
  = [StdoutRecord "hel"; StdoutRecord "lo"]
  /\ map StdoutRecord (Spec.progress_lines ["hel"; "lo" +:+ String LF ""])
     = [StdoutRecord "hello"]
  /\ body (fold_left on_stdout_data ["hel"; "lo" +:+ String LF ""] res_init)
     <> map StdoutRecord (Spec.progress_lines ["hel"; "lo" +:+ String LF ""]).
Proof. split; [reflexivity | split; [reflexivity | discriminate]]. Qed.

End Forwarding.

(** ** File trees: lookups after updates *)

Section TreeFacts.

Import Fs.

Lemma alookup_ainsert_eq (k : string) (n : node) (es : list (string * node)) :
  alookup k (ainsert k n es) = Some n.
Proof.
  induction es as [|[k' v] es IH]; simpl.
  - now rewrite String.eqb_refl.
  - destruct (String.eqb k' k) eqn:E; simpl; rewrite E; [reflexivity | exact IH].
Qed.

Lemma alookup_ainsert_ne (k k' : string) (n : node) (es : list (string * node)) :
  k <> k' -> alookup k' (ainsert k n es) = alookup k' es.
Proof.
  intros Hne. induction es as [|[k0 v] es IH]; simpl.
  - apply String.eqb_neq in Hne. now rewrite Hne.
  - destruct (String.eqb k0 k) eqn:E; simpl.
    + apply String.eqb_eq in E. subst k0.
      apply String.eqb_neq in Hne. now rewrite Hne.
    + now rewrite IH.
Qed.

Lemma alookup_adelete_eq (k : string) (es : list (string * node)) :
  alookup k (adelete k es) = None.
Proof.
  induction es as [|[k0 v] es IH]; simpl; [reflexivity|].
  destruct (String.eqb k0 k) eqn:E; simpl; [exact IH | now rewrite E].
Qed.

Lemma alookup_adelete_ne (k k' : string) (es : list (string * node)) :
  k <> k' -> alookup k' (adelete k es) = alookup k' es.
Proof.
  intros Hne. induction es as [|[k0 v] es IH]; simpl; [reflexivity|].
  destruct (String.eqb k0 k) eqn:E; simpl.
  - apply String.eqb_eq in E. subst k0.
    apply String.eqb_neq in Hne. now rewrite Hne.
  - now rewrite IH.
Qed.

Lemma lookup_app (p q : list string) (n : node) :
  lookup (p ++ q) n = match lookup p n with Some m => lookup q m | None => None end.
Proof.
  revert n. induction p as [|s p IH]; intros n; simpl; [reflexivity|].
  destruct n as [c|es]; [reflexivity|].
  destruct (alookup s es); [apply IH | reflexivity].
Qed.

Lemma lookup_cons_dir (x : string) (q : list string) (es : list (string * node)) :
  lookup (x :: q) (Dir es)
  = match alookup x es with Some child => lookup q child | None => None end.
Proof. reflexivity. Qed.

Lemma set_at_cons_cons (x y : string) (p : list string) (new : node)
    (es : list (string * node)) :
  set_at (x :: y :: p) new (Dir es)
  = match alookup x es with
    | Some child => Dir (ainsert x (set_at (y :: p) new child) es)
    | None => Dir es
    end.
Proof. reflexivity. Qed.

Lemma remove_at_cons_cons (x y : string) (p : list string) (es : list (string * node)) :
  remove_at (x :: y :: p) (Dir es)
  = match alookup x es with
    | Some child => Dir (ainsert x (remove_at (y :: p) child) es)
    | None => Dir es
    end.
Proof. reflexivity. Qed.

Lemma lookup_file_below (p : list string) (c : string) :
  p <> [] -> lookup p (File c) = None.
Proof. destruct p; [congruence | reflexivity]. Qed.

Lemma lookup_empty_dir_below (p : list string) :
  p <> [] -> lookup p (Dir []) = None.
Proof. destruct p; [congruence | reflexivity]. Qed.

Lemma lookup_leaf_below (p : list string) (n : node) :
  leaf n -> p <> [] -> lookup p n = None.
Proof.
  destruct n as [c|es]; simpl.
  - intros _. apply lookup_file_below.
  - intros ->. apply lookup_empty_dir_below.
Qed.

(** Putting a leaf where there was nothing, or a file: only that path
    changes. *)
Lemma stat_set_at (p : list string) (new : node) (s : node) (q : list string) :
  p <> [] ->
  (exists es, lookup (removelast p) s = Some (Dir es)) ->
  leaf new ->
  (forall es, lookup p s <> Some (Dir es)) ->
  stat q (set_at p new s) = if decide (q = p) then Some (kind_of new) else stat q s.
Proof.
  unfold stat.
  revert s q. induction p as [|x p IH]; intros s q Hne [es0 Hpar] Hleaf Hnodir;
    [congruence|].
  destruct p as [|y p'].
  - (* the entry is set in the directory [s] itself *)
    simpl in Hpar. injection Hpar as ->.
    assert (set_at [x] new (Dir es0) = Dir (ainsert x new es0)) as ->.
    { simpl. now destruct (alookup x es0). }
    destruct q as [|z q'].
    + now rewrite decide_False by discriminate.
    + simpl. destruct (decide (z = x)) as [->|Hzx].
      * rewrite alookup_ainsert_eq.
        destruct q' as [|w q''].
        { now rewrite decide_True. }
        rewrite decide_False by congruence.
        rewrite lookup_leaf_below by (auto; discriminate).
        simpl in Hnodir.
        destruct (alookup x es0) as [[c|es1]|]; [reflexivity | | reflexivity].
        exfalso. now apply (Hnodir es1).
      * rewrite alookup_ainsert_ne by congruence.
        rewrite decide_False by congruence. reflexivity.
  - (* the entry is set below the child [x] *)
    destruct s as [c|es]; [discriminate|].
    change (removelast (x :: y :: p')) with (x :: removelast (y :: p')) in Hpar.
    rewrite lookup_cons_dir in Hpar.
    rewrite set_at_cons_cons.
    destruct (alookup x es) as [child|] eqn:Hx; [|discriminate].
    assert (forall es1, lookup (y :: p') child <> Some (Dir es1)) as Hnodir'.
    { intros es1 H. apply (Hnodir es1). now rewrite lookup_cons_dir, Hx. }
    destruct q as [|z q'].
    + now rewrite decide_False by discriminate.
    + rewrite !lookup_cons_dir. destruct (decide (z = x)) as [->|Hzx].
      * rewrite alookup_ainsert_eq, Hx.
        rewrite (IH child q') by (eauto; discriminate).
        destruct (decide (q' = y :: p')) as [->|Hq].
        { now rewrite decide_True. }
        now rewrite decide_False by congruence.
      * rewrite alookup_ainsert_ne by congruence.
        now rewrite decide_False by congruence.
Qed.

(** Removing [p]: nothing remains at or below [p], the rest is as it
    was. *)
Lemma stat_remove_at_outside (p : list string) (s : node) (q : list string) :
  ~ p `prefix_of` q -> stat q (remove_at p s) = stat q s.
Proof.
  unfold stat.
  revert s q. induction p as [|x p IH]; intros s q Hpre.
  - exfalso. apply Hpre. apply prefix_nil.
  - destruct s as [c|es]; [reflexivity|].
    destruct q as [|z q'].
    + simpl. destruct p; [reflexivity|]. now destruct (alookup x es).
    + destruct p as [|y p'].
      * simpl. rewrite alookup_adelete_ne; [reflexivity|].
        intros ->. apply Hpre. apply prefix_cons, prefix_nil.
      * rewrite remove_at_cons_cons.
        destruct (alookup x es) as [child|] eqn:Hx; [|reflexivity].
        rewrite !lookup_cons_dir. destruct (decide (z = x)) as [->|Hzx].
        -- rewrite alookup_ainsert_eq, Hx. apply IH.
           intros H. apply Hpre. now apply prefix_cons.
        -- now rewrite alookup_ainsert_ne by congruence.
Qed.

(** Setting [p]: what is not at or below [p] is as it was. *)
Lemma stat_set_at_outside (p : list string) (new : node) (s : node) (q : list string) :
  ~ p `prefix_of` q -> stat q (set_at p new s) = stat q s.
Proof.
  unfold stat.
  revert s q. induction p as [|x p IH]; intros s q Hpre.
  - exfalso. apply Hpre. apply prefix_nil.
  - destruct s as [c|es]; [reflexivity|].
    destruct q as [|z q'].
    + simpl. destruct (alookup x es); [reflexivity|]. now destruct p.
    + simpl set_at. destruct (alookup x es) as [child|] eqn:Hx.
      * rewrite !lookup_cons_dir. destruct (decide (z = x)) as [->|Hzx].
        -- rewrite alookup_ainsert_eq, Hx. apply IH.
           intros H. apply Hpre. now apply prefix_cons.
        -- now rewrite alookup_ainsert_ne by congruence.
      * destruct p as [|y p']; [|reflexivity].
        rewrite !lookup_cons_dir. rewrite alookup_ainsert_ne; [reflexivity|].
        intros ->. apply Hpre. apply prefix_cons, prefix_nil.
Qed.

Lemma lookup_remove_at (p : list string) (s : node) :
  p <> [] -> lookup p (remove_at p s) = None.
Proof.
  revert s. induction p as [|x p IH]; intros s Hne; [congruence|].
  destruct s as [c|es]; [reflexivity|].
  destruct p as [|y p'].
  - simpl. now rewrite alookup_adelete_eq.
  - rewrite remove_at_cons_cons.
    destruct (alookup x es) as [child|] eqn:Hx.
    + rewrite lookup_cons_dir, alookup_ainsert_eq. now apply IH.
    + now rewrite lookup_cons_dir, Hx.
Qed.

End TreeFacts.

Section StatFacts.

Import Fs.

Lemma stat_lookup_dir (p : list string) (s : node) :
  stat p s = Some IsDir <-> exists es, lookup p s = Some (Dir es).
Proof.
  unfold stat. destruct (lookup p s) as [[c|es]|]; simpl; split;
    try discriminate; try (intros [? ?]; discriminate); eauto.
Qed.

Lemma stat_lookup_file (p : list string) (s : node) (c : string) :
  stat p s = Some (IsFile c) <-> lookup p s = Some (File c).
Proof.
  unfold stat. destruct (lookup p s) as [[c'|es]|]; simpl; split; congruence.
Qed.

Lemma stat_lookup_none (p : list string) (s : node) :
  stat p s = None <-> lookup p s = None.
Proof. unfold stat. destruct (lookup p s); simpl; split; congruence. Qed.

Lemma file_at_stat (p : list string) (s : node) :
  file_at p s = match stat p s with Some (IsFile c) => Some c | _ => None end.
Proof. unfold file_at, stat. now destruct (lookup p s) as [[c|es]|]. Qed.

Lemma file_at_Some (p : list string) (s : node) (c : string) :
  file_at p s = Some c <-> stat p s = Some (IsFile c).
Proof.
  rewrite file_at_stat. destruct (stat p s) as [[c'|]|]; split; congruence.
Qed.

(** What lies on the way to an entry is a directory. *)
Lemma stat_above (p q : list string) (s : node) (k : kind) :
  stat (p ++ q) s = Some k -> q <> [] -> stat p s = Some IsDir.
Proof.
  unfold stat. rewrite lookup_app.
  destruct (lookup p s) as [[c|es]|]; simpl; intros H Hq.
  - now rewrite lookup_file_below in H.
  - reflexivity.
  - discriminate.
Qed.

Lemma stat_below_none (p q : list string) (s : node) :
  stat p s = None -> stat (p ++ q) s = None.
Proof.
  unfold stat. rewrite lookup_app. now destruct (lookup p s).
Qed.

(** [set_at] in the situations the operations use it in. *)
Lemma stat_set_at_fresh_dir (cur : list string) (name : string) (s : node) (q : list string) :
  stat cur s = Some IsDir ->
  stat (cur ++ [name]) s = None ->
  stat q (set_at (cur ++ [name]) (Dir []) s)
  = if decide (q = cur ++ [name]) then Some IsDir else stat q s.
Proof.
  intros Hcur Hnone.
  apply (stat_set_at (cur ++ [name]) (Dir []) s q).
  - now destruct cur.
  - rewrite removelast_last. now apply stat_lookup_dir.
  - reflexivity.
  - intros es H. apply stat_lookup_none in Hnone. congruence.
Qed.

Lemma stat_set_at_file (p : list string) (content : string) (s : node) (q : list string) :
  p <> [] ->
  stat (removelast p) s = Some IsDir ->
  stat p s <> Some IsDir ->
  stat q (set_at p (File content) s)
  = if decide (q = p) then Some (IsFile content) else stat q s.
Proof.
  intros Hne Hpar Hnodir.
  apply (stat_set_at p (File content) s q); auto.
  - now apply stat_lookup_dir.
  - exact I.
  - intros es H. apply Hnodir. apply stat_lookup_dir. eauto.
Qed.

(** [fs.mkdir(_, { recursive: true })] keeps what exists, adds directories
    on the way only, and fails only on a file on the way. *)
Lemma mkdir_from_spec (rest cur : list string) (d d' : node) (r : option unit) :
  stat cur d = Some IsDir ->
  mkdir_from cur rest d = (d', r) ->
  (forall q k, stat q d = Some k -> stat q d' = Some k)
  /\ (forall q, stat q d = None ->
        stat q d' = None
        \/ (stat q d' = Some IsDir /\ cur `prefix_of` q /\ q `prefix_of` cur ++ rest))
  /\ (r = Some tt -> stat (cur ++ rest) d' = Some IsDir)
  /\ (r = None -> d' = d /\ exists pre c,
        pre `prefix_of` rest /\ stat (cur ++ pre) d = Some (IsFile c)).
Proof.
  revert cur d d' r. induction rest as [|x rest IH]; intros cur d d' r Hcur Hrun.
  - injection Hrun as <- <-. rewrite app_nil_r.
    repeat split; auto; discriminate.
  - simpl in Hrun.
    destruct (lookup (cur ++ [x]) d) as [[c|es]|] eqn:Hnext.
    + (* a file on the way *)
      injection Hrun as <- <-.
      repeat split; auto; try discriminate.
      exists [x], c. split; [apply prefix_cons, prefix_nil | now apply stat_lookup_file].
    + (* the directory exists *)
      assert (stat (cur ++ [x]) d = Some IsDir) as Hdir by (apply stat_lookup_dir; eauto).
      destruct (IH _ _ _ _ Hdir Hrun) as (H1 & H2 & H3 & H4).
      rewrite <- app_assoc in H3. simpl in H3.
      split; [exact H1|]. split; [|split; [exact H3|]].
      * intros q Hq. destruct (H2 q Hq) as [?|(? & Hp1 & Hp2)]; [now left|right].
        rewrite <- app_assoc in Hp2. simpl in Hp2.
        repeat split; auto.
        destruct Hp1 as [k ->]. rewrite <- app_assoc. now apply prefix_app_r.
      * intros Hr. destruct (H4 Hr) as (-> & pre & c & Hpre & Hc).
        split; [reflexivity|].
        exists (x :: pre), c. rewrite <- app_assoc in Hc. simpl in Hc.
        split; [now apply prefix_cons | exact Hc].
    + (* the directory is created *)
      assert (stat (cur ++ [x]) d = None) as Hnone by now apply stat_lookup_none.
      pose proof (stat_set_at_fresh_dir cur x d) as Hset.
      specialize (fun q => Hset q Hcur Hnone).
      assert (stat (cur ++ [x]) (set_at (cur ++ [x]) (Dir []) d) = Some IsDir) as Hdir.
      { rewrite Hset. now rewrite decide_True. }
      destruct (IH _ _ _ _ Hdir Hrun) as (H1 & H2 & H3 & H4).
      rewrite <- app_assoc in H3. simpl in H3.
      assert (r = Some tt) as ->.
      { destruct r as [[]|]; [reflexivity|].
        destruct (H4 eq_refl) as (_ & pre & c & Hpre & Hc). exfalso.
        rewrite Hset in Hc. destruct (decide (_ = _)); [discriminate|].
        now rewrite (stat_below_none _ _ _ Hnone) in Hc. }
      split; [|split; [|split; [exact H3 | discriminate]]].
      * intros q k Hq. apply H1. rewrite Hset.
        destruct (decide (q = cur ++ [x])) as [->|]; [congruence | exact Hq].
      * intros q Hq. destruct (decide (q = cur ++ [x])) as [->|Hne].
        -- right. split; [now apply H1|]. split.
           ++ now apply prefix_app_r.
           ++ exists rest. now rewrite <- app_assoc.
        -- assert (stat q (set_at (cur ++ [x]) (Dir []) d) = None) as Hq'.
           { rewrite Hset. now rewrite decide_False. }
           destruct (H2 q Hq') as [?|(? & Hp1 & Hp2)]; [now left|right].
           rewrite <- app_assoc in Hp2. simpl in Hp2.
           repeat split; auto.
           destruct Hp1 as [k ->]. rewrite <- app_assoc. now apply prefix_app_r.
Qed.

Lemma mkdir_spec (p : list string) (d d' : node) (r : option unit) :
  mkdir p d = (d', r) ->
  (forall q k, stat q d = Some k -> stat q d' = Some k)
  /\ (forall q, stat q d = None ->
        stat q d' = None \/ (stat q d' = Some IsDir /\ q `prefix_of` p))
  /\ (r = Some tt -> stat p d' = Some IsDir)
  /\ (r = None -> d' = d).
Proof.
  unfold mkdir. destruct d as [c|es].
  - intros H. injection H as <- <-. repeat split; auto; discriminate.
  - intros H. apply mkdir_from_spec in H; [|reflexivity].
    destruct H as (H1 & H2 & H3 & H4). repeat split; auto.
    + intros q Hq. destruct (H2 q Hq) as [?|(? & _ & ?)]; auto.
    + intros Hr. now destruct (H4 Hr).
Qed.

Lemma mkdir_file_at (p : list string) (d d' : node) (r : option unit) (q : list string) :
  mkdir p d = (d', r) -> file_at q d' = file_at q d.
Proof.
  intros H. apply mkdir_spec in H. destruct H as (H1 & H2 & _).
  rewrite !file_at_stat. destruct (stat q d) as [k|] eqn:Hq.
  - now rewrite (H1 _ _ Hq).
  - destruct (H2 q Hq) as [-> | [-> _]]; reflexivity.
Qed.

(** [fs.mkdir] succeeds when no file is on the way. *)
Lemma mkdir_succeeds (p : list string) (d : node) :
  stat [] d = Some IsDir ->
  (forall pre c, pre `prefix_of` p -> stat pre d <> Some (IsFile c)) ->
  exists d', mkdir p d = (d', Some tt).
Proof.
  intros Hroot Hfree. destruct (mkdir p d) as [d' r] eqn:Hrun.
  exists d'. destruct r as [[]|]; [reflexivity|]. exfalso.
  unfold mkdir in Hrun. destruct d as [c|es]; [discriminate|].
  apply mkdir_from_spec in Hrun; [|reflexivity].
  destruct Hrun as (_ & _ & _ & H4).
  destruct (H4 eq_refl) as (_ & pre & c & Hpre & Hc).
  now apply (Hfree pre c).
Qed.

Lemma writeFile_spec (p : Path.t) (content : string) (d d' : node) (r : option unit) :
  writeFile p content d = (d', r) ->
  (r = None -> d' = d)
  /\ (r = Some tt ->
      Path.trailingSep p = false
      /\ forall q, stat q d'
           = if decide (q = Path.segments p) then Some (IsFile content) else stat q d).
Proof.
  unfold writeFile. destruct (Path.trailingSep p).
  { intros H. injection H as <- <-. split; [auto | discriminate]. }
  destruct (Path.segments p) as [|x segs] eqn:Hsegs.
  { intros H. injection H as <- <-. split; [auto | discriminate]. }
  destruct (lookup (removelast (x :: segs)) d) as [[c|es]|] eqn:Hpar;
    try (intros H; injection H as <- <-; split; [auto | discriminate]).
  destruct (lookup (x :: segs) d) as [[c'|es']|] eqn:Htgt;
    intros H; injection H as <- <-; split; try discriminate; auto;
    intros _; (split; [reflexivity|]); intros q;
    apply (stat_set_at_file (x :: segs) content d q); try discriminate;
    try (apply stat_lookup_dir; eauto);
    unfold stat; rewrite Htgt; discriminate.
Qed.

Lemma writeFile_succeeds (p : Path.t) (content : string) (d : node) :
  Path.trailingSep p = false ->
  Path.segments p <> [] ->
  stat (removelast (Path.segments p)) d = Some IsDir ->
  stat (Path.segments p) d <> Some IsDir ->
  writeFile p content d = (set_at (Path.segments p) (File content) d, Some tt).
Proof.
  intros Ht Hne Hpar Hnodir. unfold writeFile. rewrite Ht.
  destruct (Path.segments p) as [|x segs]; [congruence|].
  apply stat_lookup_dir in Hpar. destruct Hpar as [es ->].
  unfold stat in Hnodir.
  destruct (lookup (x :: segs) d) as [[c|es']|]; try reflexivity.
  exfalso. now apply Hnodir.
Qed.

End StatFacts.

(** ** Paths *)

Section PathFacts.

Lemma split_singleton (sep : ascii) (s p : string) :
  JsString.split sep s = [p] -> p = s.
Proof.
  revert p. induction s as [|c s IH]; intros p; simpl.
  - congruence.
  - destruct (Ascii.eqb c sep).
    + pose proof (split_nonempty sep s) as Hne.
      destruct (JsString.split sep s); [contradiction | discriminate].
    + pose proof (split_nonempty sep s) as Hne.
      destruct (JsString.split sep s) as [|h t] eqn:E; [contradiction|].
      intros H. injection H as <- ->. now rewrite (IH h eq_refl).
Qed.

Lemma split_last_sep (sep : ascii) (s : string) :
  JsString.last_char s = Some sep ->
  exists l, JsString.split sep s = l ++ [""].
Proof.
  induction s as [|c s IH]; [discriminate|].
  rewrite last_char_cons. destruct s as [|d s'].
  - intros H. injection H as ->. exists [""]. simpl. now rewrite Ascii.eqb_refl.
  - intros H. destruct (IH H) as [l Hl].
    change (JsString.split sep (String c (String d s')))
      with (if Ascii.eqb c sep then "" :: JsString.split sep (String d s')
            else match JsString.split sep (String d s') with
                 | [] => [String c ""]
                 | h :: t => String c h :: t
                 end).
    rewrite Hl. destruct (Ascii.eqb c sep).
    + now exists ("" :: l).
    + destruct l as [|h t].
      * apply split_singleton in Hl. discriminate.
      * now exists (String c h :: t).
Qed.

Lemma normalizeString_plain (parts res : list string) :
  forallb Path.plain_segment parts = true ->
  Path.normalizeString res parts = res ++ parts.
Proof.
  revert res. induction parts as [|x parts IH]; intros res H; simpl.
  - now rewrite app_nil_r.
  - simpl in H. apply andb_true_iff in H. destruct H as [Hx Hparts].
    unfold Path.plain_segment in Hx. apply negb_true_iff in Hx.
    apply orb_false_iff in Hx. destruct Hx as [Hx Hx3].
    rewrite Hx, Hx3. rewrite IH by assumption. now rewrite <- app_assoc.
Qed.

Lemma normalizeString_dotdot_free (parts res : list string) :
  forallb (fun s => negb (String.eqb s "..")) parts = true ->
  res `prefix_of` Path.normalizeString res parts.
Proof.
  revert res. induction parts as [|x parts IH]; intros res H; simpl.
  - reflexivity.
  - simpl in H. apply andb_true_iff in H. destruct H as [Hx Hparts].
    apply negb_true_iff in Hx. rewrite Hx.
    destruct (String.eqb x "" || String.eqb x ".")%bool; [now apply IH|].
    etrans; [|apply IH; assumption]. now apply prefix_app_r.
Qed.

Lemma join_dotdot_free (base : list string) (rel : string) :
  Path.dotdot_free rel = true -> base `prefix_of` Path.segments (Path.join base rel).
Proof. intros H. now apply normalizeString_dotdot_free. Qed.

Lemma join_normalized (base : list string) (rel : string) :
  Path.normalized rel = true ->
  Path.join base rel = Path.of_segments (base ++ JsString.split SLASH rel).
Proof.
  intros H. unfold Path.join, Path.of_segments.
  rewrite (normalizeString_plain _ _ H). f_equal.
  destruct (JsString.last_char rel) as [c|] eqn:Hlast; [|reflexivity].
  destruct (base ++ JsString.split SLASH rel); [reflexivity|].
  destruct (Ascii.eqb c SLASH) eqn:Hc; [|reflexivity].
  apply Ascii.eqb_eq in Hc. subst c.
  apply split_last_sep in Hlast. destruct Hlast as [l0 Hl].
  unfold Path.normalized in H. rewrite Hl, forallb_app in H.
  apply andb_true_iff in H. destruct H as [_ H]. discriminate.
Qed.

Lemma join_valid_name (base : list string) (name : string) :
  Path.valid_name name = true ->
  Path.join base name = Path.of_segments (base ++ [name]).
Proof.
  intros H. unfold Path.valid_name in H.
  destruct (JsString.split SLASH name) as [|p [|]] eqn:E; try discriminate.
  pose proof (split_singleton _ _ _ E) as ->.
  rewrite join_normalized; [now rewrite E|].
  unfold Path.normalized. rewrite E. simpl. now rewrite H.
Qed.

Lemma is_prefix_spec (p q : list string) :
  Path.is_prefix p q = true <-> p `prefix_of` q.
Proof.
  revert q. induction p as [|x p IH]; intros q; simpl.
  - split; [intros _; apply prefix_nil | reflexivity].
  - destruct q as [|y q].
    + split; [discriminate|]. intros H. now apply prefix_nil_not in H.
    + rewrite andb_true_iff, String.eqb_eq, IH. split.
      * intros [-> H]. now apply prefix_cons.
      * intros H. split; [now apply prefix_cons_inv_1 in H
                         | now apply prefix_cons_inv_2 in H].
Qed.

Lemma independent_spec (p q : list string) :
  Path.independent p q = true <-> ~ p `prefix_of` q /\ ~ q `prefix_of` p.
Proof.
  unfold Path.independent.
  rewrite andb_true_iff, !negb_true_iff, <- !not_true_iff_false, !is_prefix_spec.
  reflexivity.
Qed.

Lemma userFilesDir_eq (dirname : list string) :
  Server.userFilesDir dirname = dirname ++ ["USER_FILES"].
Proof. reflexivity. Qed.

End PathFacts.

(** ** Workspace preparation *)

Section Preparation.

Import Fs Server.

Variable dirname : list string.

Local Abbreviation W := (userFilesDir dirname).

Lemma populate_cons (f : FileRecord) (rest : list FileRecord)
    (snap : gmap string string) (d : node) :
  populate dirname (f :: rest) snap d
  = match mkdir (Path.dirname (Path.join W (filePath f))) d with
    | (d1, Some _) =>
        match writeFile (Path.join W (filePath f)) (content f) d1 with
        | (d2, Some _) =>
            populate dirname rest
              (<[JsString.replace_backslashes (filePath f) := content f]> snap) d2
        | (d2, None) => (d2, None)
        end
    | (d1, None) => (d1, None)
    end.
Proof. reflexivity. Qed.

Lemma prepare_unfold (files : list FileRecord) (d : node) :
  prepare dirname files d
  = match mkdir W (remove_at W d) with
    | (d1, Some _) => populate dirname files ∅ d1
    | (d1, None) => (d1, None)
    end.
Proof. reflexivity. Qed.

Lemma populate_file_at_outside (files : list FileRecord) :
  Forall (fun f => Path.dotdot_free (filePath f) = true) files ->
  forall snap d q,
    ~ W `prefix_of` q ->
    file_at q (populate dirname files snap d).1 = file_at q d.
Proof.
  induction 1 as [|f files Hf Hfiles IH]; intros snap d q Hq; [reflexivity|].
  rewrite populate_cons.
  destruct (mkdir _ d) as [d1 r1] eqn:Hmk.
  pose proof (mkdir_file_at _ _ _ _ q Hmk) as H1.
  destruct r1 as [[]|]; [|exact H1].
  destruct (writeFile _ _ d1) as [d2 r2] eqn:Hwr.
  apply writeFile_spec in Hwr. destruct Hwr as [Hfail Hok].
  destruct r2 as [[]|].
  - rewrite IH by assumption. rewrite <- H1.
    destruct (Hok eq_refl) as [_ Hstat].
    rewrite !file_at_stat, Hstat.
    rewrite decide_False; [reflexivity|].
    intros ->. apply Hq. now apply join_dotdot_free.
  - simpl. now rewrite (Hfail eq_refl).
Qed.

Lemma prepare_file_at_outside (files : list FileRecord) (d : node) (q : list string) :
  Forall (fun f => Path.dotdot_free (filePath f) = true) files ->
  ~ W `prefix_of` q ->
  file_at q (prepare dirname files d).1 = file_at q d.
Proof.
  intros Hfiles Hq. rewrite prepare_unfold.
  destruct (mkdir W (remove_at W d)) as [d1 r1] eqn:Hmk.
  pose proof (mkdir_file_at _ _ _ _ q Hmk) as H1.
  assert (file_at q (remove_at W d) = file_at q d) as H0.
  { rewrite !file_at_stat. now rewrite stat_remove_at_outside. }
  destruct r1 as [[]|].
  - rewrite populate_file_at_outside by assumption. congruence.
  - simpl. congruence.
Qed.

(** C4, as amended: workspace preparation neither rejects nor sanitizes
    [..] segments; it writes each file at the normalized join of the
    workspace root and the submitted path.  For paths without [..]
    segments, no file outside the workspace root is written, changed or
    removed. *)
Theorem prepare_dotdot_free_stays_inside (files : list FileRecord) (d : node)
    (q : list string) :
  Forall (fun f => Path.dotdot_free (filePath f) = true) files ->
  ~ W `prefix_of` q ->
  file_at q (prepare dirname files d).1 = file_at q d.
Proof. apply prepare_file_at_outside. Qed.

Lemma prefix_app_cases (pre l r : list string) :
  pre `prefix_of` l ++ r ->
  pre `prefix_of` l \/ exists r', pre = l ++ r' /\ r' `prefix_of` r.
Proof.
  revert pre. induction l as [|x l IH]; intros pre H.
  - right. exists pre. auto.
  - destruct pre as [|y pre]; [left; apply prefix_nil|].
    simpl in H. pose proof (prefix_cons_inv_1 _ _ _ _ H) as ->.
    apply prefix_cons_inv_2 in H. destruct (IH _ H) as [Hl | (r' & -> & Hr')].
    + left. now apply prefix_cons.
    + right. exists r'. auto.
Qed.

Lemma removelast_prefix (l : list string) : removelast l `prefix_of` l.
Proof.
  destruct (decide (l = [])) as [->|Hne]; [reflexivity|].
  exists [List.last l ""]. now apply app_removelast_last.
Qed.

Lemma removelast_shorter (l : list string) :
  l <> [] -> length (removelast l) < length l.
Proof.
  intros Hne. rewrite (app_removelast_last "" Hne) at 2.
  rewrite length_app. simpl. lia.
Qed.

Lemma prefix_app_same (l a b : list string) :
  l ++ a `prefix_of` l ++ b -> a `prefix_of` b.
Proof. intros [k Hk]. rewrite <- app_assoc in Hk. apply app_inv_head in Hk. now exists k. Qed.

Lemma independent_sym (p q : list string) :
  Path.independent p q = Path.independent q p.
Proof. unfold Path.independent. apply andb_comm. Qed.

Lemma stat_prefix_of_dir (pre p : list string) (d : node) :
  stat p d = Some IsDir -> pre `prefix_of` p -> stat pre d = Some IsDir.
Proof.
  intros Hp [k ->]. destruct k as [|x k].
  - now rewrite app_nil_r in Hp.
  - now apply (stat_above pre (x :: k) d IsDir).
Qed.

Lemma populated_step (done : list FileRecord) (f : FileRecord) (d : node)
    (snap : gmap string string) :
  populated dirname done d ->
  Path.normalized (filePath f) = true ->
  (forall g, In g done ->
     Path.independent (JsString.split SLASH (filePath f))
                      (JsString.split SLASH (filePath g)) = true) ->
  exists d1 d2,
    mkdir (Path.dirname (Path.join W (filePath f))) d = (d1, Some tt)
    /\ writeFile (Path.join W (filePath f)) (content f) d1 = (d2, Some tt)
    /\ populated dirname (done ++ [f]) d2.
Proof.
  intros (HW & Hdone & Hfiles & Hdirs) Hnorm Hind.
  set (ps := JsString.split SLASH (filePath f)) in *.
  assert (ps <> []) as Hps by apply split_nonempty.
  rewrite (join_normalized _ _ Hnorm). fold ps.
  assert (Path.dirname (Path.of_segments (W ++ ps)) = W ++ removelast ps) as Hdn.
  { unfold Path.dirname. simpl. now apply removelast_app. }
  rewrite Hdn.
  assert (W <> []) as HWne by (rewrite userFilesDir_eq; now destruct dirname).
  assert (forall g, In g done ->
            ~ JsString.split SLASH (filePath g) `prefix_of` ps
            /\ ~ ps `prefix_of` JsString.split SLASH (filePath g)) as Hind'.
  { intros g Hg. specialize (Hind g Hg). apply independent_spec in Hind. tauto. }
  (* the directories *)
  destruct (mkdir_succeeds (W ++ removelast ps) d) as [d1 Hmk].
  { now apply (stat_above [] W d IsDir). }
  { intros pre c Hpre Hc.
    destruct (prefix_app_cases _ _ _ Hpre) as [HpreW | (r' & -> & Hr')].
    - rewrite (stat_prefix_of_dir _ _ _ HW HpreW) in Hc. discriminate.
    - destruct (Hfiles _ _ Hc) as (g & Hg & ->).
      apply (proj1 (Hind' g Hg)). etrans; [exact Hr' | apply removelast_prefix]. }
  pose proof (mkdir_spec _ _ _ _ Hmk) as (H1 & H2 & H3 & _).
  specialize (H3 eq_refl).
  (* the file *)
  assert (stat (W ++ ps) d1 <> Some IsDir) as Hnodir.
  { intros Hd1. destruct (stat (W ++ ps) d) as [k|] eqn:Hd.
    - rewrite (H1 _ _ Hd) in Hd1. injection Hd1 as ->.
      destruct (Hdirs ps Hps Hd) as (g & Hg & Hpre & _).
      now apply (proj2 (Hind' g Hg)).
    - destruct (H2 _ Hd) as [Hn | [_ Hpre]]; [congruence|].
      apply prefix_app_same, prefix_length in Hpre.
      pose proof (removelast_shorter ps Hps). lia. }
  pose proof (writeFile_succeeds (Path.of_segments (W ++ ps)) (content f) d1) as Hwr.
  simpl in Hwr. rewrite removelast_app in Hwr by assumption.
  specialize (Hwr eq_refl ltac:(now destruct W) H3 Hnodir).
  exists d1, (set_at (W ++ ps) (File (content f)) d1).
  split; [exact Hmk|]. split; [exact Hwr|].
  pose proof (writeFile_spec _ _ _ _ _ Hwr) as [_ Hstat].
  destruct (Hstat eq_refl) as [_ Hst]. simpl in Hst. clear Hstat.
  assert (forall q k, stat q d1 = Some k ->
            stat q d = Some k
            \/ (stat q d = None /\ k = IsDir /\ q `prefix_of` W ++ removelast ps)) as Hback.
  { intros q k Hq. destruct (stat q d) as [k'|] eqn:Hd.
    - left. rewrite (H1 _ _ Hd) in Hq. congruence.
    - right. destruct (H2 _ Hd) as [Hn | [Hdir Hpre]]; [congruence|].
      split; [reflexivity|]. split; [congruence | exact Hpre]. }
  repeat split.
  - rewrite Hst. rewrite decide_False.
    + now apply H1.
    + intros H. apply (f_equal length) in H. rewrite length_app in H.
      destruct ps; [congruence | simpl in H; lia].
  - intros g Hg. apply in_app_or in Hg. destruct Hg as [Hg | [<- | []]].
    + rewrite Hst. rewrite decide_False.
      * apply H1. now apply Hdone.
      * intros H. apply app_inv_head in H.
        apply (proj1 (Hind' g Hg)). fold ps. now rewrite H.
    + rewrite Hst. fold ps. now rewrite decide_True.
  - intros q c Hq. rewrite Hst in Hq.
    destruct (decide (W ++ q = W ++ ps)) as [Heq|Hne].
    + apply app_inv_head in Heq. subst q.
      exists f. split; [apply in_or_app; right; now left | reflexivity].
    + destruct (Hback _ _ Hq) as [Hd | (_ & ? & _)]; [|discriminate].
      destruct (Hfiles _ _ Hd) as (g & Hg & ->).
      exists g. split; [apply in_or_app; now left | reflexivity].
  - intros q Hqne Hq. rewrite Hst in Hq.
    destruct (decide (W ++ q = W ++ ps)) as [Heq|Hne]; [discriminate|].
    destruct (Hback _ _ Hq) as [Hd | (_ & _ & Hpre)].
    + destruct (Hdirs _ Hqne Hd) as (g & Hg & Hpre & Hneq).
      exists g. split; [apply in_or_app; now left | auto].
    + exists f. split; [apply in_or_app; right; now left|].
      apply prefix_app_same in Hpre. fold ps. split.
      * etrans; [exact Hpre | apply removelast_prefix].
      * intros ->. apply prefix_length in Hpre.
        pose proof (removelast_shorter ps Hps). lia.
Qed.

Lemma populate_ok (todo : list FileRecord) :
  forall (done : list FileRecord) (snap : gmap string string) (d : node),
    populated dirname done d ->
    Forall (fun f => Path.normalized (filePath f) = true) todo ->
    (forall f g, In f todo -> In g done ->
       Path.independent (JsString.split SLASH (filePath f))
                        (JsString.split SLASH (filePath g)) = true) ->
    Path.pairwise_independent (map (fun f => JsString.split SLASH (filePath f)) todo) = true ->
    exists d' snap',
      populate dirname todo snap d = (d', Some snap')
      /\ populated dirname (done ++ todo) d'.
Proof.
  induction todo as [|f todo IH]; intros done snap d Hpop Hnorm Hind Hpair.
  - exists d, snap. now rewrite app_nil_r.
  - inversion Hnorm as [|? ? Hf Htodo]; subst.
    simpl in Hpair. apply andb_true_iff in Hpair. destruct Hpair as [Hf_todo Hpair].
    destruct (populated_step done f d snap Hpop Hf) as (d1 & d2 & Hmk & Hwr & Hpop2).
    { intros g Hg. apply Hind; [now left | exact Hg]. }
    rewrite populate_cons, Hmk, Hwr.
    destruct (IH (done ++ [f])
                 (<[JsString.replace_backslashes (filePath f) := content f]> snap)
                 d2 Hpop2 Htodo) as (d' & snap' & Hrun & Hpop').
    + intros g h Hg Hh. apply in_app_or in Hh. destruct Hh as [Hh | [<- | []]].
      * apply Hind; [now right | exact Hh].
      * rewrite independent_sym.
        rewrite forallb_forall in Hf_todo. apply Hf_todo.
        now apply (in_map (fun f => JsString.split SLASH (filePath f))).
    + exact Hpair.
    + exists d', snap'. split; [exact Hrun|]. now rewrite <- app_assoc in Hpop'.
Qed.

Lemma prefix_snoc_cases (pre l : list string) (x : string) :
  pre `prefix_of` l ++ [x] -> pre = l ++ [x] \/ pre `prefix_of` l.
Proof.
  intros H. destruct (prefix_app_cases _ _ _ H) as [Hl | (r' & -> & Hr')]; [now right|].
  destruct r' as [|y r'].
  - right. now rewrite app_nil_r.
  - left. pose proof (prefix_cons_inv_1 _ _ _ _ Hr') as ->.
    apply prefix_cons_inv_2, prefix_nil_inv in Hr'. now subst.
Qed.

(** After the wipe and a [mkdir] that completed, the workspace is an empty
    directory. *)
Lemma workspace_recreated_after (d d0 : node) :
  mkdir W (remove_at W d) = (d0, Some tt) -> populated dirname [] d0.
Proof.
  intros Hmk.
  assert (W <> []) as HWne by (rewrite userFilesDir_eq; now destruct dirname).
  assert (stat W (remove_at W d) = None) as Hgone.
  { apply stat_lookup_none. now apply lookup_remove_at. }
  pose proof (mkdir_spec _ _ _ _ Hmk) as (H1 & H2 & H3 & _).
  assert (forall q, q <> [] -> stat (W ++ q) d0 = None) as Hbelow.
  { intros q Hq.
    destruct (H2 (W ++ q) (stat_below_none _ _ _ Hgone)) as [Hn | [_ Hpre]]; [exact Hn|].
    apply prefix_length in Hpre. rewrite length_app in Hpre.
    destruct q; [congruence | simpl in Hpre; lia]. }
  repeat split.
  - now apply H3.
  - intros f [].
  - intros q c Hq. exfalso. destruct q as [|x q].
    + rewrite app_nil_r, (H3 eq_refl) in Hq. discriminate.
    + rewrite Hbelow in Hq; discriminate.
  - intros q Hq Hs. rewrite Hbelow in Hs; [discriminate | exact Hq].
Qed.

(** A preparation that completed, for normalized and pairwise independent
    paths, ran the loop on an empty workspace and left the files of the
    request in it, and nothing else. *)
Lemma prepare_completed (files : list FileRecord) (d d' : node)
    (snap : gmap string string) :
  Forall (fun f => Path.normalized (filePath f) = true) files ->
  Path.pairwise_independent (map (fun f => JsString.split SLASH (filePath f)) files) = true ->
  prepare dirname files d = (d', Some snap) ->
  exists d0,
    populated dirname [] d0
    /\ populate dirname files ∅ d0 = (d', Some snap)
    /\ populated dirname files d'.
Proof.
  intros Hnorm Hpair Hprep. rewrite prepare_unfold in Hprep.
  destruct (mkdir W (remove_at W d)) as [d0 [[]|]] eqn:Hmk; [|discriminate].
  pose proof (workspace_recreated_after d d0 Hmk) as Hpop0.
  destruct (populate_ok files [] ∅ d0 Hpop0 Hnorm) as (d1 & snap1 & Hrun & Hpop).
  { intros f g _ []. }
  { exact Hpair. }
  exists d0. split; [exact Hpop0|]. rewrite Hrun in Hprep. injection Hprep as <- <-.
  split; [exact Hrun | exact Hpop].
Qed.

(** C7, as amended: for every list of file records whose paths are
    normalized (no empty, [.] or [..] segment) and pairwise independent
    (distinct, and none names a directory on the way to another), when
    workspace preparation completes, reading back each submitted path
    yields the submitted content. *)
Theorem prepare_then_read_back (files : list FileRecord) (d d' : node)
    (snap : gmap string string) :
  Forall (fun f => Path.normalized (filePath f) = true) files ->
  Path.pairwise_independent (map (fun f => JsString.split SLASH (filePath f)) files) = true ->
  prepare dirname files d = (d', Some snap) ->
  forall f, In f files ->
    readFile (Path.join W (filePath f)) d' = (d', Some (content f)).
Proof.
  intros Hnorm Hpair Hprep.
  destruct (prepare_completed files d d' snap Hnorm Hpair Hprep) as (d0 & _ & _ & Hpop).
  intros f Hf. destruct Hpop as (_ & Hdone & _).
  specialize (Hdone f Hf). apply stat_lookup_file in Hdone.
  rewrite List.Forall_forall in Hnorm.
  rewrite (join_normalized _ _ (Hnorm f Hf)).
  unfold readFile. simpl. now rewrite Hdone.
Qed.

End Preparation.

Section PreparationExamples.

Import Fs Server.

Lemma prepare_dotdot_free_stays_inside_witness :
  Forall (fun f => Path.dotdot_free (filePath f) = true) Examples.two_files
  /\ ~ userFilesDir Examples.dirname `prefix_of` ["srv"; "app"; "server.js"]
  /\ file_at ["srv"; "app"; "server.js"]
       (prepare Examples.dirname Examples.two_files Examples.disk).1
     = file_at ["srv"; "app"; "server.js"] Examples.disk.
Proof.
  assert (Forall (fun f => Path.dotdot_free (filePath f) = true) Examples.two_files) as H1
    by (repeat constructor).
  assert (~ userFilesDir Examples.dirname `prefix_of` ["srv"; "app"; "server.js"]) as H2
    by (rewrite <- is_prefix_spec; discriminate).
  split; [exact H1|]. split; [exact H2|].
  exact (prepare_dotdot_free_stays_inside Examples.dirname Examples.two_files
           Examples.disk ["srv"; "app"; "server.js"] H1 H2).
Defined.

(** C4, as stated, fails: a path with a [..] segment is neither rejected
    nor sanitized, and its file is written outside the workspace root. *)
Lemma prepare_dotdot_escapes :
  (prepare Examples.dirname Examples.escaping Examples.disk).2 <> None
  /\ Path.is_prefix (userFilesDir Examples.dirname) ["srv"; "app"; "evil.txt"] = false
  /\ file_at ["srv"; "app"; "evil.txt"] Examples.disk = None
  /\ file_at ["srv"; "app"; "evil.txt"]
       (prepare Examples.dirname Examples.escaping Examples.disk).1 = Some "x".
Proof.
  split; [vm_compute; discriminate|].
  split; [reflexivity|]. split; reflexivity.
Qed.

Lemma prepare_then_read_back_witness :
  Forall (fun f => Path.normalized (filePath f) = true) Examples.two_files
  /\ Path.pairwise_independent
       (map (fun f => JsString.split SLASH (filePath f)) Examples.two_files) = true
  /\ prepare Examples.dirname Examples.two_files Examples.disk
     = (Examples.prepared_disk, Some Examples.snapshot)
  /\ forall f, In f Examples.two_files ->
       readFile (Path.join (userFilesDir Examples.dirname) (filePath f))
         Examples.prepared_disk
       = (Examples.prepared_disk, Some (content f)).
Proof.
  assert (Forall (fun f => Path.normalized (filePath f) = true) Examples.two_files) as H1
    by (repeat constructor).
  assert (Path.pairwise_independent
            (map (fun f => JsString.split SLASH (filePath f)) Examples.two_files) = true)
    as H2 by reflexivity.
  assert (prepare Examples.dirname Examples.two_files Examples.disk
          = (Examples.prepared_disk, Some Examples.snapshot)) as H3
    by (vm_compute; reflexivity).
  split; [exact H1|]. split; [exact H2|]. split; [exact H3|].
  exact (prepare_then_read_back Examples.dirname Examples.two_files Examples.disk
           Examples.prepared_disk Examples.snapshot H1 H2 H3).
Defined.

(** C7, as stated, fails.  Two distinct paths without [..] segment can
    name the same file: preparation succeeds and the first path reads back
    with the content of the second.  And two distinct normalized paths, one
    a directory on the way to the other, make preparation fail: the second
    path cannot be read back at all. *)
Lemma prepare_unique_paths_read_back_differs :
  (NoDup (map filePath Examples.aliased)
   /\ Forall (fun f => Path.dotdot_free (filePath f) = true) Examples.aliased
   /\ (prepare Examples.dirname Examples.aliased Examples.disk).2 <> None
   /\ (readFile (Path.join (userFilesDir Examples.dirname) "a.txt")
          (prepare Examples.dirname Examples.aliased Examples.disk).1).2 = Some "y")
  /\ (NoDup (map filePath Examples.clashing)
      /\ Forall (fun f => Path.normalized (filePath f) = true) Examples.clashing
      /\ (prepare Examples.dirname Examples.clashing Examples.disk).2 = None
      /\ (readFile (Path.join (userFilesDir Examples.dirname) "a/b")
             (prepare Examples.dirname Examples.clashing Examples.disk).1).2 = None).
Proof.
  assert (forall a b : string, a <> b -> NoDup [a; b]) as Hnodup.
  { intros a b Hab. apply NoDup_cons_2; [|apply NoDup_singleton].
    intros H. apply list_elem_of_singleton in H. contradiction. }
  split.
  - split; [apply Hnodup; discriminate|].
    split; [repeat constructor|].
    split; [vm_compute; discriminate | reflexivity].
  - split; [apply Hnodup; discriminate|].
    split; [repeat constructor|].
    split; reflexivity.
Qed.

End PreparationExamples.

(** ** Enumerating the workspace *)

Section Enumeration.

Import Fs Server.

Lemma node_induction (P : node -> Prop) :
  (forall c, P (File c)) ->
  (forall es, Forall (fun kv => P kv.2) es -> P (Dir es)) ->
  forall n, P n.
Proof.
  intros HFile HDir. fix IH 1. intros [c|es].
  - apply HFile.
  - apply HDir. induction es as [|kv es IHes].
    + apply List.Forall_nil.
    + apply List.Forall_cons; [apply IH | exact IHes].
Qed.

Lemma wf_entries (seen : list string) (es : list (string * node)) :
  (fix go (seen : list string) (es : list (string * node)) : bool :=
     match es with
     | [] => true
     | (k, v) :: es' =>
         Path.valid_name k && negb (existsb (String.eqb k) seen) && wf v
         && go (k :: seen) es'
     end) seen es = true ->
  Forall (fun kv => Path.valid_name kv.1 = true /\ wf kv.2 = true) es
  /\ List.NoDup (map fst es)
  /\ (forall k, In k (map fst es) -> ~ In k seen).
Proof.
  revert seen. induction es as [|[k v] es IH]; intros seen H.
  - repeat split; [constructor | constructor | intros k []].
  - apply andb_true_iff in H. destruct H as [H Hrest].
    apply andb_true_iff in H. destruct H as [H Hv].
    apply andb_true_iff in H. destruct H as [Hk Hseen].
    destruct (IH _ Hrest) as (HF & HN & HS).
    assert (~ In k seen) as Hks.
    { intros Hin. apply negb_true_iff in Hseen.
      assert (existsb (String.eqb k) seen = true) as E; [|congruence].
      apply existsb_exists. exists k. split; [exact Hin | apply String.eqb_refl]. }
    repeat split.
    + constructor; [split; assumption | exact HF].
    + simpl. constructor; [|exact HN].
      intros Hin. apply (HS k Hin). now left.
    + intros k' [<- | Hin]; [exact Hks|].
      intros Hin'. apply (HS k' Hin). now right.
Qed.

Lemma wf_Dir (es : list (string * node)) :
  wf (Dir es) = true ->
  Forall (fun kv => Path.valid_name kv.1 = true /\ wf kv.2 = true) es
  /\ List.NoDup (map fst es).
Proof. intros H. apply wf_entries in H. tauto. Qed.

Lemma files_under_cons (k : string) (v : node) (es : list (string * node)) :
  files_under (Dir ((k, v) :: es))
  = match v with
    | File c => [([k], c)]
    | Dir _ => map (fun rc => (k :: rc.1, rc.2)) (files_under v)
    end ++ files_under (Dir es).
Proof. reflexivity. Qed.

Lemma getAllFiles_cons (base : list string) (k : string) (v : node)
    (es : list (string * node)) (acc : list Path.t) :
  getAllFiles base (Dir ((k, v) :: es)) acc
  = getAllFiles base (Dir es)
      match v with
      | Dir _ => getAllFiles (Path.segments (Path.join base k)) v acc
      | File _ => acc ++ [Path.join base k]
      end.
Proof. now destruct v. Qed.

(** On a well-formed tree [getAllFiles] lists every file once, under the
    path that leads to it. *)
Lemma getAllFiles_enumerates (n : node) :
  wf n = true ->
  forall base acc,
    getAllFiles base n acc
    = acc ++ map (fun rc => Path.of_segments (base ++ rc.1)) (files_under n).
Proof.
  induction n as [c|es IH] using node_induction; intros Hwf base acc.
  - simpl. now rewrite app_nil_r.
  - apply wf_Dir in Hwf. destruct Hwf as [Hall _].
    revert acc. induction es as [|[k v] es IHes]; intros acc.
    + simpl. now rewrite app_nil_r.
    + inversion IH as [|? ? IHv IHrest]; subst.
      inversion Hall as [|? ? [Hk Hv] Hall']; subst. simpl in Hk, Hv, IHv.
      rewrite (getAllFiles_cons base), files_under_cons, map_app, app_assoc.
      rewrite (IHes IHrest Hall'). f_equal.
      rewrite (join_valid_name _ _ Hk).
      destruct v as [c|sub].
      * reflexivity.
      * rewrite (IHv Hv). f_equal. simpl Path.segments.
        rewrite map_map. apply map_ext. intros [r c]. simpl.
        now rewrite <- app_assoc.
Qed.

Lemma alookup_Some_in (k : string) (v : node) (es : list (string * node)) :
  alookup k es = Some v -> In k (map fst es).
Proof.
  induction es as [|[k0 v0] es IH]; simpl; [discriminate|].
  destruct (String.eqb k0 k) eqn:E.
  - apply String.eqb_eq in E. now left.
  - intros H. right. now apply IH.
Qed.

(** What is listed is there ... *)
Lemma files_under_lookup (n : node) :
  wf n = true ->
  forall r c, In (r, c) (files_under n) -> lookup r n = Some (File c).
Proof.
  induction n as [c0|es IH] using node_induction; intros Hwf r c Hin.
  - destruct Hin.
  - apply wf_Dir in Hwf. destruct Hwf as [Hall Hnodup].
    induction es as [|[k v] es IHes]; [destruct Hin|].
    inversion IH as [|? ? IHv IHrest]; subst.
    inversion Hall as [|? ? [Hk Hv] Hall']; subst. simpl in Hk, Hv, IHv.
    inversion Hnodup as [|? ? Hnotin Hnodup']; subst.
    rewrite files_under_cons in Hin. apply in_app_or in Hin.
    destruct Hin as [Hin | Hin].
    + destruct v as [c1|sub].
      * destruct Hin as [Heq | []]. injection Heq as <- <-.
        rewrite lookup_cons_dir. simpl. now rewrite String.eqb_refl.
      * apply in_map_iff in Hin. destruct Hin as ([r' c'] & Heq & Hin').
        simpl in Heq. injection Heq as <- <-.
        rewrite lookup_cons_dir. simpl. rewrite String.eqb_refl.
        now apply IHv.
    + specialize (IHes IHrest Hall' Hnodup' Hin).
      destruct r as [|k' r']; [discriminate|].
      rewrite lookup_cons_dir in IHes. rewrite lookup_cons_dir. simpl.
      destruct (String.eqb k k') eqn:E; [|exact IHes].
      apply String.eqb_eq in E. subst k'. exfalso. apply Hnotin.
      destruct (alookup k es) as [v'|] eqn:Hk'; [|discriminate].
      now apply (alookup_Some_in k v').
Qed.


Lemma relative_segments_app (base r : list string) :
  Path.relative_segments base (base ++ r) = r.
Proof.
  induction base as [|x base IH]; simpl.
  - now destruct r.
  - now rewrite String.eqb_refl.
Qed.

End Enumeration.

(** ** The change detector *)

Section Detection.

Import Fs Server.

Variable dirname : list string.

Local Abbreviation W := (userFilesDir dirname).

Lemma relativePath_of_workspace_file (r : list string) :
  relativePath_of dirname (Path.of_segments (W ++ r)) = relpath r.
Proof.
  unfold relativePath_of, relpath, Path.relative. simpl.
  now rewrite relative_segments_app.
Qed.

Lemma differs_true (original : option string) (newContent : string) :
  differs original newContent = true <-> original <> Some newContent.
Proof.
  destruct original as [o|]; simpl.
  - rewrite negb_true_iff, String.eqb_neq. split; congruence.
  - split; [discriminate | reflexivity].
Qed.

Lemma diff_loop_closed_form (snap : gmap string string) (d : node)
    (l : list (list string * string)) :
  (forall r c, In (r, c) l -> lookup (W ++ r) d = Some (File c)) ->
  forall acc,
    diff_loop dirname snap (map (fun rc => Path.of_segments (W ++ rc.1)) l) acc d
    = (d, Some (acc ++ flat_map (fun rc => modified_entry snap (relpath rc.1) rc.2) l)).
Proof.
  induction l as [|[r c] l IH]; intros Hl acc.
  - simpl. now rewrite app_nil_r.
  - assert (readFile (Path.of_segments (W ++ r)) d = (d, Some c)) as Hread.
    { unfold readFile. simpl. now rewrite (Hl r c (or_introl eq_refl)). }
    change (diff_loop dirname snap
              (map (fun rc => Path.of_segments (W ++ rc.1)) ((r, c) :: l)) acc d)
      with (Fs.bind (readFile (Path.of_segments (W ++ r)))
              (fun newContent =>
                 diff_loop dirname snap (map (fun rc => Path.of_segments (W ++ rc.1)) l)
                   (if differs (snap !! relativePath_of dirname (Path.of_segments (W ++ r)))
                         newContent
                    then acc ++ [{| mf_filePath :=
                                      relativePath_of dirname (Path.of_segments (W ++ r));
                                    modifiedContent := newContent |}]
                    else acc)) d).
    unfold Fs.bind. rewrite Hread, relativePath_of_workspace_file.
    rewrite IH by (intros r' c' H; apply Hl; now right).
    simpl. unfold modified_entry.
    destruct (differs (snap !! relpath r) c); [now rewrite <- app_assoc | reflexivity].
Qed.

Lemma diff_loop_cli_closed_form (snap : gmap string string) (d : node)
    (l : list (list string * string)) :
  (forall r c, In (r, c) l -> lookup (W ++ r) d = Some (File c)) ->
  forall acc,
    diff_loop_cli dirname snap (map (fun rc => Path.of_segments (W ++ rc.1)) l) acc d
    = (d, Some (acc ++ flat_map
                         (fun rc => if is_gemini_md (relpath rc.1) then []
                                    else modified_entry snap (relpath rc.1) rc.2) l)).
Proof.
  induction l as [|[r c] l IH]; intros Hl acc.
  - simpl. now rewrite app_nil_r.
  - assert (readFile (Path.of_segments (W ++ r)) d = (d, Some c)) as Hread.
    { unfold readFile. simpl. now rewrite (Hl r c (or_introl eq_refl)). }
    change (diff_loop_cli dirname snap
              (map (fun rc => Path.of_segments (W ++ rc.1)) ((r, c) :: l)) acc d)
      with ((if is_gemini_md (relativePath_of dirname (Path.of_segments (W ++ r)))
             then diff_loop_cli dirname snap
                    (map (fun rc => Path.of_segments (W ++ rc.1)) l) acc
             else
               Fs.bind (readFile (Path.of_segments (W ++ r)))
                 (fun newContent =>
                    diff_loop_cli dirname snap
                      (map (fun rc => Path.of_segments (W ++ rc.1)) l)
                      (if differs (snap !! relativePath_of dirname (Path.of_segments (W ++ r)))
                            newContent
                       then acc ++ [{| mf_filePath :=
                                         relativePath_of dirname (Path.of_segments (W ++ r));
                                       modifiedContent := newContent |}]
                       else acc))) d).
    rewrite relativePath_of_workspace_file.
    simpl flat_map. destruct (is_gemini_md (relpath r)).
    + rewrite IH by (intros r' c' H; apply Hl; now right). reflexivity.
    + unfold Fs.bind. rewrite Hread.
      rewrite IH by (intros r' c' H; apply Hl; now right).
      unfold modified_entry.
      destruct (differs (snap !! relpath r) c); [now rewrite <- app_assoc | reflexivity].
Qed.

Lemma workspace_files_readable (d : node) (es : list (string * node)) :
  lookup W d = Some (Dir es) ->
  wf (Dir es) = true ->
  forall r c, In (r, c) (files_under (Dir es)) -> lookup (W ++ r) d = Some (File c).
Proof.
  intros HW Hwf r c Hin. rewrite lookup_app, HW. now apply files_under_lookup.
Qed.

Lemma detect_closed_form (snap : gmap string string) (d : node)
    (es : list (string * node)) :
  lookup W d = Some (Dir es) ->
  wf (Dir es) = true ->
  detect dirname snap d
  = (d, Some (flat_map (fun rc => modified_entry snap (relpath rc.1) rc.2)
                (files_under (Dir es)))).
Proof.
  intros HW Hwf. unfold detect, Fs.bind, readdir. rewrite HW.
  rewrite (getAllFiles_enumerates _ Hwf). simpl app.
  rewrite diff_loop_closed_form; [reflexivity|].
  now apply workspace_files_readable.
Qed.

Lemma detect_cli_closed_form (snap : gmap string string) (d : node)
    (es : list (string * node)) :
  lookup W d = Some (Dir es) ->
  wf (Dir es) = true ->
  detect_cli dirname snap d
  = (d, Some (flat_map (fun rc => if is_gemini_md (relpath rc.1) then []
                                  else modified_entry snap (relpath rc.1) rc.2)
                (files_under (Dir es)))).
Proof.
  intros HW Hwf. unfold detect_cli, Fs.bind, readdir. rewrite HW.
  rewrite (getAllFiles_enumerates _ Hwf). simpl app.
  rewrite diff_loop_cli_closed_form; [reflexivity|].
  now apply workspace_files_readable.
Qed.

Lemma in_modified_entry (snap : gmap string string) (p c : string) (m : ModifiedFile) :
  In m (modified_entry snap p c)
  <-> m = {| mf_filePath := p; modifiedContent := c |} /\ snap !! p <> Some c.
Proof.
  unfold modified_entry. rewrite <- differs_true.
  destruct (differs (snap !! p) c); simpl; split.
  - intros [<- | []]. auto.
  - intros [-> _]. now left.
  - intros [].
  - intros [_ ?]. discriminate.
Qed.


(** C10: in the cli-inject variant the result is the result of the
    code-agent detector without the entries whose basename is [GEMINI.md]:
    no such file is ever reported, whatever its content and whether or not
    the snapshot has an entry for it. *)
Theorem detect_cli_excludes_gemini_md (snap : gmap string string)
    (d : node) (es : list (string * node)) :
  lookup W d = Some (Dir es) ->
  wf (Dir es) = true ->
  exists result_all result,
    detect dirname snap d = (d, Some result_all)
    /\ detect_cli dirname snap d = (d, Some result)
    /\ result = List.filter (fun m => negb (is_gemini_md (mf_filePath m))) result_all
    /\ forall m, In m result -> Path.basename (mf_filePath m) <> "GEMINI.md".
Proof.
  intros HW Hwf. eexists. eexists.
  split; [exact (detect_closed_form snap d es HW Hwf)|].
  split; [exact (detect_cli_closed_form snap d es HW Hwf)|].
  assert (flat_map (fun rc => if is_gemini_md (relpath rc.1) then []
                              else modified_entry snap (relpath rc.1) rc.2)
            (files_under (Dir es))
          = List.filter (fun m => negb (is_gemini_md (mf_filePath m)))
              (flat_map (fun rc => modified_entry snap (relpath rc.1) rc.2)
                 (files_under (Dir es)))) as Heq.
  { induction (files_under (Dir es)) as [|[r c] l IH]; [reflexivity|].
    simpl. rewrite List.filter_app, <- IH. f_equal.
    unfold modified_entry.
    destruct (is_gemini_md (relpath r)) eqn:E;
      destruct (differs (snap !! relpath r) c); simpl; try reflexivity;
      now rewrite E. }
  split; [exact Heq|].
  intros m Hm. rewrite Heq in Hm. apply filter_In in Hm. destruct Hm as [_ Hm].
  apply negb_true_iff in Hm. unfold is_gemini_md in Hm.
  now apply String.eqb_neq in Hm.
Qed.

End Detection.

Section DetectionExamples.

Import Fs Server.


Lemma detect_cli_excludes_gemini_md_witness :
  lookup (userFilesDir Examples.dirname) Examples.final_disk
  = Some (Dir Examples.final_workspace)
  /\ wf (Dir Examples.final_workspace) = true
  /\ exists result_all result,
       detect Examples.dirname Examples.snapshot Examples.final_disk
       = (Examples.final_disk, Some result_all)
       /\ detect_cli Examples.dirname Examples.snapshot Examples.final_disk
          = (Examples.final_disk, Some result)
       /\ result = List.filter (fun m => negb (is_gemini_md (mf_filePath m))) result_all
       /\ forall m, In m result -> Path.basename (mf_filePath m) <> "GEMINI.md".
Proof.
  split; [reflexivity|]. split; [reflexivity|].
  exact (detect_cli_excludes_gemini_md Examples.dirname Examples.snapshot
           Examples.final_disk Examples.final_workspace eq_refl eq_refl).
Defined.

(** The two detectors on the example: the changed file, the new file and
    [GEMINI.md] for the code agent; the deleted [src/b.txt] in neither. *)
Example detect_on_example :
  (detect Examples.dirname Examples.snapshot Examples.final_disk).2
  = Some [ {| mf_filePath := "a.txt"; modifiedContent := "hello world" |};
           {| mf_filePath := "new.txt"; modifiedContent := "n" |};
           {| mf_filePath := "GEMINI.md"; modifiedContent := "notes" |} ]
  /\ (detect_cli Examples.dirname Examples.snapshot Examples.final_disk).2
     = Some [ {| mf_filePath := "a.txt"; modifiedContent := "hello world" |};
              {| mf_filePath := "new.txt"; modifiedContent := "n" |} ].
Proof. split; vm_compute; reflexivity. Qed.

End DetectionExamples.

(** ** The response of [/api/code-agent] *)

Section Response.

Import Fs Server.

Variable dirname : list string.

Lemma code_agent_after_exit (agent : Agent) (req : Request) (d d1 d2 : node)
    (snap : gmap string string) (chunks : list string) (code : option Z) :
  prompt req <> "" ->
  files req <> [] ->
  prepare dirname (files req) d = (d1, Some snap) ->
  agent (cliCommand (useClaude req)) (cliArgs (useClaude req) (prompt req))
        (userFilesDir dirname) d1 = Exited chunks code d2 ->
  code_agent dirname agent req d
  = match on_close dirname code snap (fold_left on_stdout_data chunks res_init) d2 with
    | (d3, Some res) => (d3, res)
    | (d3, None) => (d3, fold_left on_stdout_data chunks res_init)
    end.
Proof.
  intros Hprompt Hfiles Hprep Hagent. unfold code_agent.
  apply String.eqb_neq in Hprompt. rewrite Hprompt.
  assert (Nat.eqb (length (files req)) 0 = false) as ->
    by (destruct (files req); [congruence | reflexivity]).
  cbv [orb]. rewrite Hprep, Hagent. reflexivity.
Qed.

(** C2, as amended: for every run whose input validation passed, whose
    workspace was prepared and whose agent process was spawned and exited:
    with exit code 0 and a readable workspace the stream is the [stdout]
    records followed by exactly one [modifiedFiles] record; with another
    exit code and nothing written yet the caller gets status 500 with the
    exit failure as body; with another exit code after at least one
    [stdout] record the stream is ended with status 200 and the [stdout]
    records only. *)
Theorem code_agent_terminal_record (agent : Agent) (req : Request) (d d1 d2 : node)
    (snap : gmap string string) (chunks : list string) (code : option Z) :
  prompt req <> "" ->
  files req <> [] ->
  prepare dirname (files req) d = (d1, Some snap) ->
  agent (cliCommand (useClaude req)) (cliArgs (useClaude req) (prompt req))
        (userFilesDir dirname) d1 = Exited chunks code d2 ->
  let res := (code_agent dirname agent req d).2 in
  let lines := flat_map stdout_lines chunks in
  (exited_ok code = true ->
   forall modifiedFiles,
     (detect dirname snap d2).2 = Some modifiedFiles ->
     statusCode res = 200
     /\ body res = map StdoutRecord lines ++ [ModifiedFilesRecord modifiedFiles]
     /\ finished res = true)
  /\ (exited_ok code = false ->
      lines = [] ->
      statusCode res = 500 /\ body res = [ExitFailure code] /\ finished res = true)
  /\ (exited_ok code = false ->
      lines <> [] ->
      statusCode res = 200 /\ body res = map StdoutRecord lines /\ finished res = true).
Proof.
  intros Hprompt Hfiles Hprep Hagent res lines. subst res.
  rewrite (code_agent_after_exit agent req d d1 d2 snap chunks code) by assumption.
  unfold on_close.
  pose proof (body_on_stdout_data chunks res_init) as Hbody.
  pose proof (headersSent_on_stdout_data chunks res_init) as Hsent.
  pose proof (statusCode_on_stdout_data chunks res_init) as Hstatus.
  simpl in Hbody, Hsent, Hstatus. fold lines in Hbody, Hsent.
  split; [|split].
  - intros Hok modifiedFiles Hdetect. rewrite Hok.
    cbn [negb]. unfold Fs.bind.
    destruct (detect dirname snap d2) as [d3 [mf|]]; [|discriminate].
    cbn [snd] in Hdetect. injection Hdetect as ->.
    cbn [snd statusCode body finished res_end res_write Fs.ret].
    rewrite Hstatus, Hbody. auto.
  - intros Hno Hlines. rewrite Hno. cbn [negb]. rewrite Hsent, Hlines.
    cbn [negb snd statusCode body finished res_end res_status_json Fs.ret].
    rewrite Hbody, Hlines. auto.
  - intros Hno Hlines. rewrite Hno. cbn [negb]. rewrite Hsent.
    destruct lines as [|l ls] eqn:El; [congruence|].
    cbn [negb snd statusCode body finished res_end Fs.ret].
    rewrite Hstatus, Hbody. auto.
Qed.

End Response.

Section ResponseExamples.

Import Fs Server.

Lemma code_agent_terminal_record_witness :
  prompt Examples.request <> ""
  /\ files Examples.request <> []
  /\ prepare Examples.dirname (files Examples.request) Examples.disk
     = (Examples.prepared_disk, Some Examples.snapshot)
  /\ (code_agent Examples.dirname Examples.editing_agent Examples.request Examples.disk).2
     = {| headersSent := true; statusCode := 200;
          body := [StdoutRecord "reading"; StdoutRecord "writing"; StdoutRecord "done";
                   ModifiedFilesRecord
                     [{| mf_filePath := "a.txt"; modifiedContent := "hello world" |}]];
          finished := true |}
  /\ statusCode
       (code_agent Examples.dirname Examples.editing_agent Examples.request Examples.disk).2
     = 200.
Proof.
  assert (prompt Examples.request <> "") as H1 by discriminate.
  assert (files Examples.request <> []) as H2 by discriminate.
  assert (prepare Examples.dirname (files Examples.request) Examples.disk
          = (Examples.prepared_disk, Some Examples.snapshot)) as H3
    by (vm_compute; reflexivity).
  split; [exact H1|]. split; [exact H2|]. split; [exact H3|].
  split; [vm_compute; reflexivity|].
  pose proof (code_agent_terminal_record Examples.dirname Examples.editing_agent
                Examples.request Examples.disk Examples.prepared_disk _ Examples.snapshot
                _ _ H1 H2 H3 eq_refl) as (Hok & _ & _).
  exact (proj1 (Hok eq_refl _ eq_refl)).
Defined.

(** C2, as stated, fails: when the agent has written to its standard
    output and then exits with a non-zero code, the stream ends with status
    200 and [stdout] records only, with neither a [modifiedFiles] record
    nor a failure indicator. *)
Lemma code_agent_failure_after_output_is_silent :
  let res :=
    (code_agent Examples.dirname Examples.failing_agent Examples.request Examples.disk).2 in
  res = {| headersSent := true; statusCode := 200;
           body := [StdoutRecord "working"]; finished := true |}
  /\ (forall modifiedFiles, ~ In (ModifiedFilesRecord modifiedFiles) (body res))
  /\ (forall code, ~ In (ExitFailure code) (body res)).
Proof.
  assert ((code_agent Examples.dirname Examples.failing_agent Examples.request
             Examples.disk).2
          = {| headersSent := true; statusCode := 200;
               body := [StdoutRecord "working"]; finished := true |}) as H
    by (vm_compute; reflexivity).
  cbv zeta. rewrite H. split; [reflexivity|].
  split; intros x [E | []]; discriminate.
Qed.

End ResponseExamples.

(** ** The File System Access API on the true store *)

Section HandleFacts.

Import Fs Server Client.

Lemma getDirectoryHandle_stat (h : list string) (name : string) (s : node) :
  getDirectoryHandle h name s
  = match stat h s with
    | Some IsDir =>
        if negb (Path.valid_name name) then (s, None)
        else
          match stat (h ++ [name]) s with
          | Some IsDir => (s, Some (h ++ [name]))
          | Some (IsFile _) => (s, None)
          | None => (set_at (h ++ [name]) (Dir []) s, Some (h ++ [name]))
          end
    | _ => (s, None)
    end.
Proof.
  unfold getDirectoryHandle, stat.
  destruct (lookup h s) as [[c|es]|]; simpl; try reflexivity.
  destruct (negb (Path.valid_name name)); [reflexivity|].
  destruct (lookup (h ++ [name]) s) as [[c|es']|]; reflexivity.
Qed.

Lemma getFileHandle_stat (h : list string) (name : string) (s : node) :
  getFileHandle h name s
  = match stat h s with
    | Some IsDir =>
        if negb (Path.valid_name name) then (s, None)
        else
          match stat (h ++ [name]) s with
          | Some (IsFile _) => (s, Some (h ++ [name]))
          | Some IsDir => (s, None)
          | None => (set_at (h ++ [name]) (File "") s, Some (h ++ [name]))
          end
    | _ => (s, None)
    end.
Proof.
  unfold getFileHandle, stat.
  destruct (lookup h s) as [[c|es]|]; simpl; try reflexivity.
  destruct (negb (Path.valid_name name)); [reflexivity|].
  destruct (lookup (h ++ [name]) s) as [[c|es']|]; reflexivity.
Qed.

Lemma write_and_close_stat (fh : list string) (content : string) (s : node) :
  write_and_close fh content s
  = match stat fh s with
    | Some (IsFile _) => (set_at fh (File content) s, Some tt)
    | _ => (s, None)
    end.
Proof.
  unfold write_and_close, stat. now destruct (lookup fh s) as [[c|es]|].
Qed.

Lemma getDirectoryHandle_spec (h : list string) (name : string) (s s' : node)
    (r : option (list string)) :
  getDirectoryHandle h name s = (s', r) ->
  (r = None -> s' = s)
  /\ (forall q k, stat q s = Some k -> stat q s' = Some k)
  /\ (forall q, stat q s = None -> stat q s' = None \/ stat q s' = Some IsDir)
  /\ (forall h', r = Some h' ->
        h' = h ++ [name] /\ Path.valid_name name = true
        /\ stat h s = Some IsDir /\ stat h' s' = Some IsDir).
Proof.
  rewrite getDirectoryHandle_stat.
  destruct (stat h s) as [[c|]|] eqn:Hh;
    try (intros H; injection H as <- <-; repeat split; auto; discriminate).
  destruct (Path.valid_name name) eqn:Hv; simpl;
    [|intros H; injection H as <- <-; repeat split; auto; discriminate].
  destruct (stat (h ++ [name]) s) as [[c|]|] eqn:Hn.
  - intros H; injection H as <- <-; repeat split; auto; discriminate.
  - intros H; injection H as <- <-.
    split; [discriminate|]. split; [auto|]. split; [auto|].
    intros h' E; injection E as <-; auto.
  - intros H; injection H as <- <-.
    pose proof (fun q => stat_set_at_fresh_dir h name s q Hh Hn) as Hset.
    split; [discriminate|]. split; [|split].
    + intros q k Hq. rewrite Hset. destruct (decide (q = h ++ [name])); [congruence|auto].
    + intros q Hq. rewrite Hset. destruct (decide (q = h ++ [name])); auto.
    + intros h' E. injection E as <-.
      split; [reflexivity|]. split; [reflexivity|]. split; [reflexivity|].
      rewrite Hset. now rewrite decide_True.
Qed.

Lemma getDirectoryHandle_existing (h : list string) (name : string) (t : node) :
  stat h t = Some IsDir ->
  Path.valid_name name = true ->
  stat (h ++ [name]) t = Some IsDir ->
  getDirectoryHandle h name t = (t, Some (h ++ [name])).
Proof.
  intros Hh Hv Hn. rewrite getDirectoryHandle_stat, Hh, Hv, Hn. reflexivity.
Qed.

Lemma getDirectoryHandle_replay_fail (h : list string) (name : string) (s s' t : node) :
  getDirectoryHandle h name s = (s', None) ->
  same_stat t s ->
  getDirectoryHandle h name t = (t, None).
Proof.
  rewrite !getDirectoryHandle_stat. intros H Hts.
  rewrite (Hts h), (Hts (h ++ [name])).
  destruct (stat h s) as [[c|]|]; try reflexivity.
  destruct (negb (Path.valid_name name)); [reflexivity|].
  destruct (stat (h ++ [name]) s) as [[c|]|]; try reflexivity; discriminate.
Qed.

Lemma getFileHandle_spec (h : list string) (name : string) (s s' : node)
    (r : option (list string)) :
  getFileHandle h name s = (s', r) ->
  (r = None -> s' = s)
  /\ (forall q k, stat q s = Some k -> stat q s' = Some k)
  /\ (forall fh, r = Some fh ->
        fh = h ++ [name] /\ Path.valid_name name = true
        /\ stat h s = Some IsDir
        /\ (exists c, stat fh s' = Some (IsFile c))
        /\ (forall k, stat fh s = Some k -> exists c, k = IsFile c)
        /\ (forall q, q <> fh -> stat q s' = stat q s)).
Proof.
  rewrite getFileHandle_stat.
  destruct (stat h s) as [[c|]|] eqn:Hh;
    try (intros H; injection H as <- <-; repeat split; auto; discriminate).
  destruct (Path.valid_name name) eqn:Hv; simpl;
    [|intros H; injection H as <- <-; repeat split; auto; discriminate].
  destruct (stat (h ++ [name]) s) as [[c|]|] eqn:Hn.
  - intros H; injection H as <- <-.
    split; [discriminate|]. split; [auto|].
    intros fh E; injection E as <-.
    split; [reflexivity|]. split; [reflexivity|]. split; [reflexivity|].
    split; [eauto|]. split; [|auto].
    intros k Hk. rewrite Hn in Hk. injection Hk as <-. eauto.
  - intros H; injection H as <- <-; repeat split; auto; discriminate.
  - intros H; injection H as <- <-.
    assert (forall q, stat q (set_at (h ++ [name]) (File "") s)
                      = if decide (q = h ++ [name]) then Some (IsFile "") else stat q s)
      as Hset.
    { intros q. apply stat_set_at_file.
      - now destruct h.
      - now rewrite removelast_last.
      - congruence. }
    split; [discriminate|]. split.
    + intros q k Hq. rewrite Hset. destruct (decide (q = h ++ [name])); [congruence|auto].
    + intros fh E. injection E as <-.
      split; [reflexivity|]. split; [reflexivity|]. split; [reflexivity|].
      split; [|split].
      * exists "". rewrite Hset. now rewrite decide_True.
      * intros k Hk. congruence.
      * intros q Hq. rewrite Hset. now rewrite decide_False.
Qed.

Lemma getFileHandle_existing (h : list string) (name : string) (t : node) (c : string) :
  stat h t = Some IsDir ->
  Path.valid_name name = true ->
  stat (h ++ [name]) t = Some (IsFile c) ->
  getFileHandle h name t = (t, Some (h ++ [name])).
Proof.
  intros Hh Hv Hn. rewrite getFileHandle_stat, Hh, Hv, Hn. reflexivity.
Qed.

Lemma getFileHandle_replay_fail (h : list string) (name : string) (s s' t : node) :
  getFileHandle h name s = (s', None) ->
  same_stat t s ->
  getFileHandle h name t = (t, None).
Proof.
  rewrite !getFileHandle_stat. intros H Hts.
  rewrite (Hts h), (Hts (h ++ [name])).
  destruct (stat h s) as [[c|]|]; try reflexivity.
  destruct (negb (Path.valid_name name)); [reflexivity|].
  destruct (stat (h ++ [name]) s) as [[c|]|]; try reflexivity; discriminate.
Qed.

Lemma stat_overwrite_file (fh : list string) (content c0 : string) (s : node)
    (q : list string) :
  stat fh s = Some (IsFile c0) ->
  stat q (set_at fh (File content) s)
  = if decide (q = fh) then Some (IsFile content) else stat q s.
Proof.
  intros Hfh. destruct (decide (fh = [])) as [->|Hne].
  - apply stat_lookup_file in Hfh. simpl in Hfh. injection Hfh as ->.
    simpl. destruct q as [|x q]; [reflexivity|].
    rewrite decide_False by discriminate. reflexivity.
  - apply stat_set_at_file; [exact Hne | | congruence].
    rewrite (app_removelast_last "" Hne) in Hfh.
    now apply (stat_above _ _ _ _ Hfh).
Qed.

Lemma write_and_close_file (fh : list string) (content c0 : string) (s : node) :
  stat fh s = Some (IsFile c0) ->
  write_and_close fh content s = (set_at fh (File content) s, Some tt).
Proof. intros H. now rewrite write_and_close_stat, H. Qed.

Lemma traverse_cons (h : list string) (x : string) (parts : list string) (s : node) :
  traverse h (x :: parts) s
  = match getDirectoryHandle h x s with
    | (sa, Some h1) => traverse h1 parts sa
    | (sa, None) => (sa, None)
    end.
Proof. reflexivity. Qed.

Lemma traverse_spec (parts : list string) :
  forall (h : list string) (s s' : node) (r : option (list string)),
    traverse h parts s = (s', r) ->
    (forall q k, stat q s = Some k -> stat q s' = Some k)
    /\ (forall h', r = Some h' ->
          h' = h ++ parts /\ forallb Path.valid_name parts = true
          /\ (parts <> [] -> stat h' s' = Some IsDir)).
Proof.
  induction parts as [|x parts IH]; intros h s s' r Hrun.
  - injection Hrun as <- <-. split; [auto|].
    intros h' E. injection E as <-. rewrite app_nil_r.
    split; [reflexivity|]. split; [reflexivity|]. intros H. now destruct H.
  - rewrite traverse_cons in Hrun.
    destruct (getDirectoryHandle h x s) as [sa ra] eqn:Hg.
    apply getDirectoryHandle_spec in Hg. destruct Hg as (G0 & G1 & _ & G3).
    destruct ra as [h1|].
    + destruct (G3 h1 eq_refl) as (-> & Hv & Hh & Hh1).
      destruct (IH _ _ _ _ Hrun) as (T1 & T3).
      split; [auto|].
      intros h' E. destruct (T3 h' E) as (-> & Hvs & Hdir).
      rewrite <- app_assoc. simpl. rewrite Hv, Hvs.
      split; [reflexivity|]. split; [reflexivity|]. intros _.
      destruct parts as [|y parts'].
      * injection Hrun as <- _. exact Hh1.
      * rewrite <- app_assoc in Hdir. apply Hdir. discriminate.
    + injection Hrun as <- <-. rewrite (G0 eq_refl). split; [auto | discriminate].
Qed.

Lemma traverse_existing (parts : list string) :
  forall (h : list string) (t : node),
    forallb Path.valid_name parts = true ->
    (parts <> [] -> stat (h ++ parts) t = Some IsDir) ->
    traverse h parts t = (t, Some (h ++ parts)).
Proof.
  induction parts as [|x parts IH]; intros h t Hv Hdir.
  - now rewrite app_nil_r.
  - simpl in Hv. apply andb_true_iff in Hv. destruct Hv as [Hx Hv].
    specialize (Hdir ltac:(discriminate)).
    rewrite traverse_cons.
    change (h ++ x :: parts) with (h ++ [x] ++ parts) in *.
    rewrite app_assoc in *.
    rewrite getDirectoryHandle_existing; auto.
    + apply (stat_prefix_of_dir _ _ _ Hdir). rewrite <- app_assoc. now apply prefix_app_r.
    + apply (stat_prefix_of_dir _ _ _ Hdir). now apply prefix_app_r.
Qed.

Lemma traverse_replay_fail (parts : list string) :
  forall (h : list string) (s s' t : node),
    traverse h parts s = (s', None) ->
    same_stat t s' ->
    traverse h parts t = (t, None).
Proof.
  induction parts as [|x parts IH]; intros h s s' t Hrun Hts; [discriminate|].
  rewrite traverse_cons in *.
  destruct (getDirectoryHandle h x s) as [sa ra] eqn:Hg.
  destruct ra as [h1|].
  - pose proof (getDirectoryHandle_spec _ _ _ _ _ Hg) as (_ & G1 & _ & G3).
    destruct (G3 h1 eq_refl) as (-> & Hv & Hh & Hh1).
    pose proof (traverse_spec _ _ _ _ _ Hrun) as (T1 & _).
    rewrite getDirectoryHandle_existing; auto.
    + now apply (IH _ sa s').
    + rewrite Hts. auto.
    + rewrite Hts. auto.
  - injection Hrun as <-.
    pose proof (getDirectoryHandle_spec _ _ _ _ _ Hg) as (G0 & _).
    rewrite (G0 eq_refl) in Hts.
    now rewrite (getDirectoryHandle_replay_fail _ _ _ _ _ Hg Hts).
Qed.

Lemma target_parts (dh parts : list string) :
  parts <> [] -> (dh ++ removelast parts) ++ [List.last parts ""] = dh ++ parts.
Proof.
  intros Hne. rewrite <- app_assoc. f_equal. symmetry. now apply app_removelast_last.
Qed.

Lemma forallb_removelast_last (P : string -> bool) (parts : list string) :
  parts <> [] ->
  forallb P parts = forallb P (removelast parts) && P (List.last parts "").
Proof.
  intros Hne. rewrite (app_removelast_last "" Hne) at 1.
  rewrite forallb_app. simpl. now rewrite andb_true_r.
Qed.

Lemma write_unfold (dh : list string) (path content : string) (s : node) :
  writeFileToDirectoryHandle dh path content s
  = match traverse dh (removelast (JsString.split SLASH path)) s with
    | (sa, Some h1) =>
        match getFileHandle h1 (List.last (JsString.split SLASH path) "") sa with
        | (sb, Some fh) => write_and_close fh content sb
        | (sb, None) => (sb, None)
        end
    | (sa, None) => (sa, None)
    end.
Proof. reflexivity. Qed.

(** One write: what was there stays, except that the target, if it was a
    file, gets the new content when the write succeeds. *)
Lemma write_spec (dh : list string) (path content : string) (s s' : node)
    (r : option unit) :
  writeFileToDirectoryHandle dh path content s = (s', r) ->
  (forall q k, stat q s = Some k ->
     stat q s' = Some k
     \/ (r = Some tt /\ q = dh ++ JsString.split SLASH path /\ exists c0, k = IsFile c0))
  /\ (r = Some tt ->
      stat (dh ++ JsString.split SLASH path) s' = Some (IsFile content)
      /\ forallb Path.valid_name (JsString.split SLASH path) = true
      /\ stat (dh ++ removelast (JsString.split SLASH path)) s' = Some IsDir).
Proof.
  rewrite write_unfold.
  set (parts := JsString.split SLASH path).
  assert (parts <> []) as Hparts by apply split_nonempty.
  destruct (traverse dh (removelast parts) s) as [sa ra] eqn:Htr.
  pose proof (traverse_spec _ _ _ _ _ Htr) as (T1 & T3).
  destruct ra as [h1|]; [|intros H; injection H as <- <-; split; [auto | discriminate]].
  destruct (T3 h1 eq_refl) as (-> & Hvs & _).
  destruct (getFileHandle _ _ sa) as [sb rb] eqn:Hg.
  pose proof (getFileHandle_spec _ _ _ _ _ Hg) as (G0 & G1 & G2).
  destruct rb as [fh|];
    [|intros H; injection H as <- <-; rewrite (G0 eq_refl); split; [auto | discriminate]].
  destruct (G2 fh eq_refl) as (-> & Hv & Hh & [c Hc] & Hwas & Hother).
  rewrite (target_parts dh parts Hparts) in *.
  rewrite (write_and_close_file _ _ _ _ Hc).
  intros H; injection H as <- <-.
  pose proof (fun q => stat_overwrite_file _ content _ _ q Hc) as Hset.
  split.
  - intros q k Hq. rewrite Hset. destruct (decide (q = dh ++ parts)) as [->|Hne].
    + right. split; [reflexivity|]. split; [reflexivity|]. apply Hwas. auto.
    + left. auto.
  - intros _. split; [|split].
    + rewrite Hset. now rewrite decide_True.
    + rewrite (forallb_removelast_last _ _ Hparts), Hvs, Hv. reflexivity.
    + rewrite Hset. rewrite decide_False; [auto|].
      intros E. apply app_inv_head in E.
      pose proof (removelast_shorter parts Hparts) as Hlen. rewrite E in Hlen. lia.
Qed.

(** A write on a store where the directories and the file exist replaces
    the content and nothing else. *)
Lemma write_existing (dh : list string) (path content c0 : string) (t : node) :
  forallb Path.valid_name (JsString.split SLASH path) = true ->
  stat (dh ++ removelast (JsString.split SLASH path)) t = Some IsDir ->
  stat (dh ++ JsString.split SLASH path) t = Some (IsFile c0) ->
  exists t',
    writeFileToDirectoryHandle dh path content t = (t', Some tt)
    /\ forall q, stat q t'
         = if decide (q = dh ++ JsString.split SLASH path)
           then Some (IsFile content) else stat q t.
Proof.
  rewrite write_unfold.
  set (parts := JsString.split SLASH path).
  assert (parts <> []) as Hparts by apply split_nonempty.
  intros Hv Hdir Hfile.
  rewrite (forallb_removelast_last _ _ Hparts) in Hv.
  apply andb_true_iff in Hv. destruct Hv as [Hvs Hv].
  rewrite (traverse_existing _ _ _ Hvs (fun _ => Hdir)).
  rewrite <- (target_parts dh parts Hparts) in Hfile.
  rewrite (getFileHandle_existing _ _ _ _ Hdir Hv Hfile).
  rewrite (write_and_close_file _ _ _ _ Hfile).
  rewrite (target_parts dh parts Hparts) in *.
  eexists. split; [reflexivity|].
  intros q. now apply (stat_overwrite_file _ content c0).
Qed.

(** A write that failed fails again, and changes nothing, on a store that
    looks like the one it left. *)
Lemma write_replay_fail (dh : list string) (path content : string) (s s' t : node) :
  writeFileToDirectoryHandle dh path content s = (s', None) ->
  same_stat t s' ->
  writeFileToDirectoryHandle dh path content t = (t, None).
Proof.
  rewrite !write_unfold.
  set (parts := JsString.split SLASH path).
  assert (parts <> []) as Hparts by apply split_nonempty.
  intros Hrun Hts.
  destruct (traverse dh (removelast parts) s) as [sa ra] eqn:Htr.
  destruct ra as [h1|].
  - pose proof (traverse_spec _ _ _ _ _ Htr) as (T1 & T3).
    destruct (T3 h1 eq_refl) as (-> & Hvs & Hdir).
    destruct (getFileHandle _ _ sa) as [sb rb] eqn:Hg.
    pose proof (getFileHandle_spec _ _ _ _ _ Hg) as (G0 & G1 & G2).
    destruct rb as [fh|].
    + destruct (G2 fh eq_refl) as (-> & _ & _ & [c Hc] & _).
      rewrite (write_and_close_file _ _ _ _ Hc) in Hrun. discriminate.
    + injection Hrun as <-. rewrite (G0 eq_refl) in Hts.
      rewrite traverse_existing; [|exact Hvs | intros Hne; rewrite Hts; auto].
      now rewrite (getFileHandle_replay_fail _ _ _ _ _ Hg Hts).
  - injection Hrun as <-.
    now rewrite (traverse_replay_fail _ _ _ _ _ Htr Hts).
Qed.

End HandleFacts.

(** ** Commit *)

Section Commit.

Import Fs Server Client.

Variable dh : list string.

Lemma apply_changes_cons (m : ModifiedFile) (l : list ModifiedFile) (s : node) :
  apply_changes dh (m :: l) s
  = match writeFileToDirectoryHandle dh (mf_filePath m) (modifiedContent m) s with
    | (s', Some _) => apply_changes dh l s'
    | (s', None) => (s', None)
    end.
Proof. reflexivity. Qed.

Lemma apply_changes_app (l l' : list ModifiedFile) (s s1 : node) :
  apply_changes dh l s = (s1, Some tt) ->
  apply_changes dh (l ++ l') s = apply_changes dh l' s1.
Proof.
  revert s. induction l as [|m l IH]; intros s H.
  - now injection H as <-.
  - rewrite apply_changes_cons in H. rewrite <- app_comm_cons, apply_changes_cons.
    destruct (writeFileToDirectoryHandle dh _ _ s) as [s' [[]|]]; [|discriminate].
    now apply IH.
Qed.

Lemma apply_changes_app_inv (l l' : list ModifiedFile) (s s2 : node) :
  apply_changes dh (l ++ l') s = (s2, Some tt) ->
  exists s1, apply_changes dh l s = (s1, Some tt) /\ apply_changes dh l' s1 = (s2, Some tt).
Proof.
  revert s. induction l as [|m l IH]; intros s H.
  - exists s. auto.
  - rewrite <- app_comm_cons in H. rewrite apply_changes_cons in *.
    destruct (writeFileToDirectoryHandle dh _ _ s) as [s' [[]|]]; [|discriminate].
    now apply IH.
Qed.

Lemma same_class_refl (k : kind) : same_class k k.
Proof. now destruct k. Qed.

Lemma same_class_trans (k1 k2 k3 : kind) :
  same_class k1 k2 -> same_class k2 k3 -> same_class k1 k3.
Proof. destruct k1, k2, k3; simpl; tauto. Qed.

(** Nothing is removed by a commit, and no file becomes a directory or a
    directory a file. *)
Lemma apply_changes_persist (l : list ModifiedFile) :
  forall s s1 r q k,
    apply_changes dh l s = (s1, r) ->
    stat q s = Some k ->
    exists k', stat q s1 = Some k' /\ same_class k k'.
Proof.
  induction l as [|m l IH]; intros s s1 r q k Hrun Hq.
  - injection Hrun as <- <-. exists k. split; [exact Hq | apply same_class_refl].
  - rewrite apply_changes_cons in Hrun.
    destruct (writeFileToDirectoryHandle dh _ _ s) as [s' rw] eqn:Hw.
    pose proof (write_spec _ _ _ _ _ _ Hw) as (P1 & P2).
    assert (exists k', stat q s' = Some k' /\ same_class k k') as (k' & Hq' & Hc).
    { destruct (P1 q k Hq) as [H | (-> & -> & c0 & ->)].
      - exists k. split; [exact H | apply same_class_refl].
      - destruct (P2 eq_refl) as (Hp & _). eexists. split; [exact Hp | exact I]. }
    destruct rw as [[]|].
    + destruct (IH _ _ _ _ _ Hrun Hq') as (k'' & Hq'' & Hc').
      exists k''. split; [exact Hq'' | now apply (same_class_trans k k' k'')].
    + injection Hrun as <- <-. eauto.
Qed.

(** What a commit does not write keeps its content. *)
Lemma apply_changes_frame (l : list ModifiedFile) :
  forall s s1 r q k,
    apply_changes dh l s = (s1, r) ->
    stat q s = Some k ->
    ~ In q (executed dh l s) ->
    stat q s1 = Some k.
Proof.
  induction l as [|m l IH]; intros s s1 r q k Hrun Hq Hnot.
  - now injection Hrun as <- <-.
  - rewrite apply_changes_cons in Hrun. simpl in Hnot.
    destruct (writeFileToDirectoryHandle dh _ _ s) as [s' rw] eqn:Hw.
    pose proof (write_spec _ _ _ _ _ _ Hw) as (P1 & _).
    destruct rw as [[]|].
    + apply (IH _ _ _ _ _ Hrun).
      * destruct (P1 q k Hq) as [H | (_ & -> & _)]; [exact H|].
        exfalso. apply Hnot. now left.
      * intros H. apply Hnot. now right.
    + injection Hrun as <- <-.
      destruct (P1 q k Hq) as [H | (? & _)]; [exact H | discriminate].
Qed.

Lemma executed_targets (l : list ModifiedFile) :
  forall s q, In q (executed dh l s) -> In q (map (target dh) l).
Proof.
  induction l as [|m l IH]; intros s q H; [destruct H|].
  simpl in H. destruct (writeFileToDirectoryHandle dh _ _ s) as [s' [[]|]]; [|destruct H].
  destruct H as [<- | H]; [now left | right; eauto].
Qed.

(** Committing again on a store that differs from the result of the first
    commit only in the contents of files the first commit wrote: same
    outcome, same result. *)
Lemma apply_changes_replay (l : list ModifiedFile) :
  forall s s1 r t,
    apply_changes dh l s = (s1, r) ->
    (forall q,
       stat q t = stat q s1
       \/ (In q (executed dh l s)
           /\ exists c c', stat q t = Some (IsFile c) /\ stat q s1 = Some (IsFile c'))) ->
    exists t1, apply_changes dh l t = (t1, r) /\ same_stat t1 s1.
Proof.
  induction l as [|m l IH]; intros s s1 r t Hrun Hagree.
  - injection Hrun as <- <-. exists t. split; [reflexivity|].
    intros q. destruct (Hagree q) as [H | [[] _]]. exact H.
  - rewrite apply_changes_cons in Hrun. simpl in Hagree.
    destruct (writeFileToDirectoryHandle dh _ _ s) as [s' rw] eqn:Hw.
    destruct rw as [[]|].
    + (* the write succeeded the first time *)
      pose proof (write_spec _ _ _ _ _ _ Hw) as (_ & P2).
      destruct (P2 eq_refl) as (Hp & Hvalid & Hdir).
      destruct (apply_changes_persist _ _ _ _ _ _ Hrun Hp) as (kp & Hp1 & Hcp).
      destruct kp as [cp|]; [clear Hcp | destruct Hcp].
      destruct (apply_changes_persist _ _ _ _ _ _ Hrun Hdir) as (kd & Hd1 & Hcd).
      destruct kd as [|]; [destruct Hcd | clear Hcd].
      assert (exists c0, stat (target dh m) t = Some (IsFile c0)) as [c0 Hpt].
      { destruct (Hagree (target dh m)) as [H | (_ & c & c' & H & _)]; [|eauto].
        exists cp. unfold target in *. congruence. }
      assert (stat (dh ++ removelast (JsString.split SLASH (mf_filePath m))) t = Some IsDir)
        as Hdt.
      { destruct (Hagree (dh ++ removelast (JsString.split SLASH (mf_filePath m))))
          as [H | (_ & c & c' & _ & H)]; congruence. }
      destruct (write_existing dh (mf_filePath m) (modifiedContent m) c0 t Hvalid Hdt Hpt)
        as (t' & Hwt & Hst).
      destruct (IH s' s1 r t' Hrun) as (t1 & Hrun' & Hsame).
      { intros q. rewrite Hst. destruct (decide (q = dh ++ _)) as [->|Hne].
        - destruct (decide (target dh m ∈ executed dh l s')) as [Hin|Hnin].
          + right. split; [now apply list_elem_of_In|]. eauto.
          + left. symmetry. apply (apply_changes_frame _ _ _ _ _ _ Hrun Hp).
            intros H. apply Hnin. now apply list_elem_of_In.
        - destruct (Hagree q) as [H | ([<- | Hin] & H)]; [now left | | now right].
          exfalso. now apply Hne. }
      exists t1. rewrite apply_changes_cons, Hwt. auto.
    + (* the write failed the first time *)
      injection Hrun as <- <-.
      assert (same_stat t s') as Hts.
      { intros q. destruct (Hagree q) as [H | [[] _]]. exact H. }
      exists t. rewrite apply_changes_cons.
      rewrite (write_replay_fail _ _ _ _ _ _ Hw Hts). auto.
Qed.

End Commit.

(** ** What the client submits *)

Section Submitted.

Import Fs Server Client.

Lemma valid_name_split (name : string) :
  Path.valid_name name = true ->
  JsString.split SLASH name = [name] /\ Path.plain_segment name = true.
Proof.
  unfold Path.valid_name. intros H.
  destruct (JsString.split SLASH name) as [|p [|]] eqn:E; try discriminate.
  pose proof (split_singleton _ _ _ E) as ->. auto.
Qed.

Lemma slash_append (s : string) : "/" +:+ s = String SLASH s.
Proof. reflexivity. Qed.

Lemma split_join_valid (names : list string) :
  names <> [] ->
  Forall (fun x => Path.valid_name x = true) names ->
  JsString.split SLASH (JsString.join "/" names) = names.
Proof.
  intros Hne Hall. induction Hall as [|n ns Hn Hns IH]; [congruence|].
  destruct (valid_name_split n Hn) as [Hsplit _].
  destruct ns as [|n' ns'].
  - exact Hsplit.
  - change (JsString.join "/" (n :: n' :: ns'))
      with (n +:+ "/" +:+ JsString.join "/" (n' :: ns')).
    rewrite slash_append, split_app_sep, Hsplit, IH by discriminate. reflexivity.
Qed.

Lemma readAll_cons (isNovo : bool) (k : string) (v : node) (es : list (string * node))
    (rel : string) :
  readAllFilesFromDirectoryHandle isNovo (Dir ((k, v) :: es)) rel
  = match v with
    | File text =>
        if existsb (JsString.endsWith k) IGNORE_EXTENSIONS
        then []
        else [{| filePath := substring1 (rel +:+ "/" +:+ k); content := text |}]
    | Dir _ =>
        if negb (includes (if isNovo then IGNORE_DIRS_NOVO else IGNORE_DIRS_COMMON) k)
        then readAllFilesFromDirectoryHandle isNovo v (rel +:+ "/" +:+ k)
        else []
    end ++ readAllFilesFromDirectoryHandle isNovo (Dir es) rel.
Proof. reflexivity. Qed.

(** Every submitted path is made of the names on the way to the file. *)
Lemma readAll_paths (isNovo : bool) (n : node) :
  wf n = true ->
  forall rel f,
    In f (readAllFilesFromDirectoryHandle isNovo n rel) ->
    exists names,
      names <> [] /\ Forall (fun x => Path.valid_name x = true) names
      /\ filePath f = substring1 (rel +:+ "/" +:+ JsString.join "/" names).
Proof.
  induction n as [c|es IH] using node_induction; intros Hwf rel f Hin; [destruct Hin|].
  apply wf_Dir in Hwf. destruct Hwf as [Hall _].
  induction es as [|[k v] es IHes]; [destruct Hin|].
  inversion IH as [|? ? IHv IHrest]; subst.
  inversion Hall as [|? ? [Hk Hv] Hall']; subst. simpl in Hk, Hv, IHv.
  rewrite readAll_cons in Hin. apply in_app_or in Hin.
  destruct Hin as [Hin | Hin]; [|now apply IHes].
  destruct v as [text|sub].
  - destruct (existsb _ _); [destruct Hin|]. destruct Hin as [<- | []].
    exists [k]. split; [discriminate|]. split; [now constructor | reflexivity].
  - destruct (negb _); [|destruct Hin].
    destruct (IHv Hv _ _ Hin) as (names & Hne & Hnames & Hpath).
    exists (k :: names). split; [discriminate|]. split; [now constructor|].
    rewrite Hpath. destruct names as [|n' ns]; [congruence|].
    change (JsString.join "/" (k :: n' :: ns))
      with (k +:+ "/" +:+ JsString.join "/" (n' :: ns)).
    now rewrite !append_assoc_str.
Qed.

Lemma submitted_dotdot_free (isNovo : bool) (directory : node) :
  wf directory = true ->
  Forall (fun f => Path.dotdot_free (filePath f) = true) (submitted isNovo directory).
Proof.
  intros Hwf. apply List.Forall_forall. intros f Hin.
  unfold submitted, trimFiles in Hin. apply in_map_iff in Hin.
  destruct Hin as (f0 & Hf & Hin0).
  assert (filePath f = filePath f0) as ->.
  { subst f. now destruct (negb _). }
  destruct (readAll_paths isNovo directory Hwf _ _ Hin0) as (names & Hne & Hnames & ->).
  rewrite append_empty_l, slash_append. simpl substring1.
  unfold Path.dotdot_free. rewrite (split_join_valid names Hne Hnames).
  apply forallb_forall. intros x Hx.
  rewrite List.Forall_forall in Hnames.
  destruct (valid_name_split x (Hnames x Hx)) as [_ Hplain].
  unfold Path.plain_segment in Hplain.
  apply negb_true_iff, orb_false_iff in Hplain. destruct Hplain as [_ ->]. reflexivity.
Qed.

End Submitted.

(** ** Approve and propose *)

Section Approve.

Import Fs Server Client.

Lemma handleApproveChanges_pending (app : App) (store : node) (handle : list string) :
  directoryHandle app = Some handle ->
  pendingChanges app <> [] ->
  handleApproveChanges app store
  = match apply_changes handle (pendingChanges app) store with
    | (store', Some _) =>
        (store',
         setDiffView "" false false
           (setOriginalFiles []
              (setPendingChanges []
                 (setImplemented
                    (setNotification
                       (Success "Changes approved and applied to local files!") app)))))
    | (store', None) =>
        (store', setNotification (Failed "Failed to apply changes" WriteRejected) app)
    end.
Proof.
  intros Hh Hp. unfold handleApproveChanges. rewrite Hh.
  destruct (pendingChanges app); [congruence | reflexivity].
Qed.

Lemma handleApproveChanges_store (app : App) (store : node) :
  (handleApproveChanges app store).1
  = match directoryHandle app, pendingChanges app with
    | Some handle, _ :: _ => (apply_changes handle (pendingChanges app) store).1
    | _, _ => store
    end.
Proof.
  unfold handleApproveChanges.
  destruct (directoryHandle app) as [handle|]; [|reflexivity].
  destruct (pendingChanges app) as [|m l]; [reflexivity|].
  now destruct (apply_changes handle (m :: l) store) as [s [[]|]].
Qed.

(** In a commit that completes, each target holds the content of the
    last change written to it. *)
Lemma apply_changes_last_write (handle : list string)
    (before after : list ModifiedFile) (m : ModifiedFile) (store store' : node) :
  apply_changes handle (before ++ m :: after) store = (store', Some tt) ->
  (forall m', In m' after -> target handle m' <> target handle m) ->
  file_at (target handle m) store' = Some (modifiedContent m).
Proof.
  intros Hrun Hlast.
  apply apply_changes_app_inv in Hrun. destruct Hrun as (sa & _ & Hrun).
  rewrite apply_changes_cons in Hrun.
  destruct (writeFileToDirectoryHandle handle _ _ sa) as [sb [[]|]] eqn:Hw;
    [|discriminate].
  pose proof (write_spec _ _ _ _ _ _ Hw) as (_ & P2).
  destruct (P2 eq_refl) as (Hwritten & _).
  apply file_at_Some.
  apply (apply_changes_frame handle _ _ _ _ _ _ Hrun Hwritten).
  intros Hin. apply executed_targets, in_map_iff in Hin.
  destruct Hin as (m' & Heq & Hin). now apply (Hlast m' Hin).
Qed.

(** C8: each write of a commit puts the modified content at the path of
    the change in the true store; after a commit that completes, each
    path written to holds the content of the last change for it; and
    approving the same pending change set a second time leaves every path
    of the true store as the first approval left it: same files with the
    same content, same directories. *)
Theorem approve_twice_same_contents (app : App) (store : node) :
  let once := (handleApproveChanges app store).1 in
  let twice := (handleApproveChanges app once).1 in
  (forall q, stat q twice = stat q once /\ file_at q twice = file_at q once)
  /\ (forall handle m s s',
        writeFileToDirectoryHandle handle (mf_filePath m) (modifiedContent m) s
        = (s', Some tt) ->
        file_at (target handle m) s' = Some (modifiedContent m))
  /\ (forall handle before m after store',
        directoryHandle app = Some handle ->
        pendingChanges app = before ++ m :: after ->
        apply_changes handle (pendingChanges app) store = (store', Some tt) ->
        (forall m', In m' after -> target handle m' <> target handle m) ->
        once = store'
        /\ file_at (target handle m) once = Some (modifiedContent m)
        /\ file_at (target handle m) twice = Some (modifiedContent m)).
Proof.
  intros once twice.
  assert (same_stat twice once) as Hsame.
  { subst once twice. rewrite !handleApproveChanges_store.
    destruct (directoryHandle app) as [handle|]; [|intros ?; reflexivity].
    destruct (pendingChanges app) as [|m l]; [intros ?; reflexivity|].
    destruct (apply_changes handle (m :: l) store) as [s1 r] eqn:Hrun.
    destruct (apply_changes_replay handle (m :: l) store s1 r s1 Hrun) as (t1 & Hrun' & H).
    { intros x. now left. }
    cbn [fst]. rewrite Hrun'. exact H. }
  assert (forall q, file_at q twice = file_at q once) as Hfiles.
  { intros q. rewrite !file_at_stat. now rewrite Hsame. }
  split; [intros q; split; [apply Hsame | apply Hfiles]|]. split.
  - intros handle m s s' Hw. apply file_at_Some.
    pose proof (write_spec _ _ _ _ _ _ Hw) as (_ & P2).
    now destruct (P2 eq_refl).
  - intros handle before m after store' Hh Hsplit Hrun Hlast.
    assert (once = store') as Honce.
    { subst once. rewrite handleApproveChanges_store, Hh.
      rewrite Hsplit in Hrun |- *.
      destruct (before ++ m :: after) eqn:E; [now destruct before|].
      now rewrite Hrun. }
    split; [exact Honce|].
    assert (file_at (target handle m) once = Some (modifiedContent m)) as Hm.
    { rewrite Honce. rewrite Hsplit in Hrun.
      now apply (apply_changes_last_write handle before after m store store'). }
    split; [exact Hm | now rewrite Hfiles].
Qed.

(** C6, as amended: a commit writes the pending changes in order and ends
    at the first write that fails.  When every write succeeds the pending
    set is cleared.  When a write fails, the writes before it are not
    rolled back (each file they wrote last keeps the content written), the
    changes after it are not attempted, and the pending set is kept as it
    was. *)
Theorem approve_ends_at_first_failure (app : App) (store : node) (handle : list string) :
  directoryHandle app = Some handle ->
  pendingChanges app <> [] ->
  (forall store',
     apply_changes handle (pendingChanges app) store = (store', Some tt) ->
     (handleApproveChanges app store).1 = store'
     /\ pendingChanges (handleApproveChanges app store).2 = [])
  /\ (forall done failing rest s1 s2,
        pendingChanges app = done ++ failing :: rest ->
        apply_changes handle done store = (s1, Some tt) ->
        writeFileToDirectoryHandle handle (mf_filePath failing) (modifiedContent failing) s1
        = (s2, None) ->
        (handleApproveChanges app store).1 = s2
        /\ pendingChanges (handleApproveChanges app store).2 = pendingChanges app
        /\ forall before m after,
             done = before ++ m :: after ->
             (forall m', In m' after -> target handle m' <> target handle m) ->
             file_at (target handle m) s2 = Some (modifiedContent m)).
Proof.
  intros Hh Hp. rewrite (handleApproveChanges_pending app store handle Hh Hp). split.
  - intros store' Hrun. rewrite Hrun. auto.
  - intros done failing rest s1 s2 Hpending Hdone Hfail.
    rewrite Hpending at 1 2. rewrite (apply_changes_app handle _ _ _ _ Hdone).
    rewrite apply_changes_cons, Hfail.
    split; [reflexivity|]. split; [reflexivity|].
    intros before m after Hsplit Hlast. subst done.
    apply apply_changes_app_inv in Hdone. destruct Hdone as (sa & _ & Hrun).
    rewrite apply_changes_cons in Hrun.
    destruct (writeFileToDirectoryHandle handle _ _ sa) as [sb [[]|]] eqn:Hw; [|discriminate].
    pose proof (write_spec _ _ _ _ _ _ Hw) as (_ & P2).
    destruct (P2 eq_refl) as (Hwritten & _).
    assert (stat (target handle m) s1 = Some (IsFile (modifiedContent m))) as Hs1.
    { apply (apply_changes_frame handle _ _ _ _ _ _ Hrun Hwritten).
      intros Hin. apply executed_targets, in_map_iff in Hin.
      destruct Hin as (m' & Heq & Hin). now apply (Hlast m' Hin). }
    pose proof (write_spec _ _ _ _ _ _ Hfail) as (P1 & _).
    apply file_at_Some.
    destruct (P1 _ _ Hs1) as [H | (? & _)]; [exact H | discriminate].
Qed.

Lemma diff_loop_keeps_disk (dirname : list string) (snap : gmap string string)
    (paths : list Path.t) :
  forall acc d, (diff_loop dirname snap paths acc d).1 = d.
Proof.
  induction paths as [|p paths IH]; intros acc d; [reflexivity|].
  change (diff_loop dirname snap (p :: paths) acc d)
    with (Fs.bind (readFile p)
            (fun newContent =>
               diff_loop dirname snap paths
                 (if differs (snap !! relativePath_of dirname p) newContent
                  then acc ++ [{| mf_filePath := relativePath_of dirname p;
                                  modifiedContent := newContent |}]
                  else acc)) d).
  unfold Fs.bind, readFile.
  destruct (Path.trailingSep p); [reflexivity|].
  destruct (lookup (Path.segments p) d) as [[c|es]|]; try reflexivity.
  apply IH.
Qed.

Lemma on_close_keeps_disk (dirname : list string) (code : option Z)
    (snap : gmap string string) (res : response) (d : node) :
  (on_close dirname code snap res d).1 = d.
Proof.
  unfold on_close. destruct (negb (exited_ok code)); [reflexivity|].
  unfold detect, readdir, Fs.bind. cbv beta.
  destruct (lookup (userFilesDir dirname) d) as [[c|es]|]; try reflexivity.
  pose proof (diff_loop_keeps_disk dirname snap
                (getAllFiles (userFilesDir dirname) (Dir es) []) [] d) as H.
  destruct (diff_loop dirname snap _ [] d) as [d1 [mf|]]; exact H.
Qed.

(** The handler of [/api/code-agent] with an agent that keeps to the
    workspace, for paths without [..]: no file outside the workspace is
    written, changed or removed. *)
Lemma code_agent_file_at_outside (dirname : list string) (agent : Agent)
    (req : Request) (d : node) (q : list string) :
  Forall (fun f => Path.dotdot_free (filePath f) = true) (files req) ->
  stays_in (userFilesDir dirname) agent ->
  ~ userFilesDir dirname `prefix_of` q ->
  file_at q (code_agent dirname agent req d).1 = file_at q d.
Proof.
  intros Hfiles Hagent Hq. unfold code_agent.
  destruct (_ || _); [reflexivity|].
  pose proof (prepare_file_at_outside dirname (files req) d q Hfiles Hq) as Hprep.
  destruct (prepare dirname (files req) d) as [d1 [snap|]]; [|exact Hprep].
  simpl in Hprep.
  pose proof (Hagent (cliCommand (useClaude req)) (cliArgs (useClaude req) (prompt req))
                d1 q Hq) as Hrun.
  destruct (agent _ _ (userFilesDir dirname) d1) as [|chunks code d2]; [exact Hprep|].
  pose proof (on_close_keeps_disk dirname code snap
                (fold_left on_stdout_data chunks res_init) d2) as Hclose.
  destruct (on_close dirname code snap _ d2) as [d3 [res|]];
    simpl in Hclose |- *; subst d3; now rewrite Hrun.
Qed.

(** C5, as amended: when the folder the caller picked and the workspace
    root lie apart on the file system (neither is in the other) and the
    agent changes no file outside its workspace, no action of the propose
    phase (a run of the code agent: preparation, agent run, diffing and
    the reading of the response) and no discarding writes, changes or
    removes a file of the caller's folder; of the actions of the pipeline
    only the commit of the pending changes does. *)
Theorem true_store_changes_only_on_commit (dirname : list string) (a : action)
    (w : World) (handle q : list string) :
  directoryHandle (app w) = Some handle ->
  (forall directory, lookup handle (disk w) = Some directory -> wf directory = true) ->
  Path.independent handle (userFilesDir dirname) = true ->
  proposes dirname a ->
  handle `prefix_of` q ->
  file_at q (disk (step dirname a w)) = file_at q (disk w).
Proof.
  intros Hh Hwf Hind Ha Hq.
  assert (~ userFilesDir dirname `prefix_of` q) as Hout.
  { intros HW. apply independent_spec in Hind. destruct Hind as [H1 H2].
    destruct (prefix_weak_total _ _ _ Hq HW); contradiction. }
  destruct a as [agent prompt| |]; [|destruct Ha | reflexivity].
  change (step dirname (RunCodeAgent agent prompt) w)
    with (handleCodeAgent (code_agent dirname agent) prompt w).
  unfold handleCodeAgent. rewrite Hh.
  destruct (lookup handle (disk w)) as [[c|entries]|] eqn:Hl; try reflexivity.
  match goal with |- context [code_agent dirname agent ?r ?d] =>
    pose proof (code_agent_file_at_outside dirname agent r d q
                  (submitted_dotdot_free (isNovo (app w)) (Dir entries)
                     (Hwf (Dir entries) eq_refl))
                  Ha Hout) as Hframe;
    destruct (code_agent dirname agent r d) as [disk' response]
  end.
  exact Hframe.
Qed.

End Approve.

Section ApproveExamples.

Import Fs Server Client.

Lemma approve_ends_at_first_failure_witness :
  directoryHandle (Examples.app_with Examples.half_blocked_changes) = Some []
  /\ pendingChanges (Examples.app_with Examples.half_blocked_changes) <> []
  /\ (handleApproveChanges (Examples.app_with Examples.half_blocked_changes)
        Examples.store).1
     = Dir [("a", File "x"); ("c.txt", File "2")]
  /\ pendingChanges
       (handleApproveChanges (Examples.app_with Examples.half_blocked_changes)
          Examples.store).2
     = Examples.half_blocked_changes.
Proof.
  assert (directoryHandle (Examples.app_with Examples.half_blocked_changes) = Some [])
    as H1 by reflexivity.
  assert (pendingChanges (Examples.app_with Examples.half_blocked_changes) <> [])
    as H2 by discriminate.
  split; [exact H1|]. split; [exact H2|].
  pose proof (approve_ends_at_first_failure
                (Examples.app_with Examples.half_blocked_changes) Examples.store [] H1 H2)
    as [_ Hfail].
  destruct (Hfail [ {| mf_filePath := "c.txt"; modifiedContent := "2" |} ]
                  {| mf_filePath := "a/b"; modifiedContent := "1" |}
                  [ {| mf_filePath := "d.txt"; modifiedContent := "3" |} ]
                  (Dir [("a", File "x"); ("c.txt", File "2")])
                  (Dir [("a", File "x"); ("c.txt", File "2")])
                  eq_refl eq_refl eq_refl) as (Hstore & Hpending & _).
  split; [exact Hstore | exact Hpending].
Defined.

(** C6, as stated, fails: the first change cannot be written, the second,
    which could be, is not attempted, and the pending set is not
    cleared. *)
Lemma approve_blocked_keeps_pending_and_skips_rest :
  (writeFileToDirectoryHandle [] "a/b" "1" Examples.store).2 = None
  /\ (writeFileToDirectoryHandle [] "c.txt" "2" Examples.store).2 = Some tt
  /\ file_at ["c.txt"]
       (handleApproveChanges (Examples.app_with Examples.blocked_changes) Examples.store).1
     = None
  /\ pendingChanges
       (handleApproveChanges (Examples.app_with Examples.blocked_changes) Examples.store).2
     = Examples.blocked_changes.
Proof. repeat (split; [reflexivity|]). reflexivity. Qed.

Lemma approve_twice_same_contents_witness :
  (handleApproveChanges (Examples.app_with Examples.good_changes) Examples.store).1
  = Dir [("a", File "x"); ("c.txt", File "4"); ("lib", Dir [("d.txt", File "3")])]
  /\ file_at ["c.txt"]
       (handleApproveChanges (Examples.app_with Examples.good_changes) Examples.store).1
     = Some "4"
  /\ file_at ["c.txt"]
       (handleApproveChanges (Examples.app_with Examples.good_changes)
          (handleApproveChanges (Examples.app_with Examples.good_changes)
             Examples.store).1).1
     = Some "4".
Proof.
  pose proof (approve_twice_same_contents
                (Examples.app_with Examples.good_changes) Examples.store)
    as (_ & _ & Hlast).
  destruct (Hlast []
              [ {| mf_filePath := "c.txt"; modifiedContent := "2" |};
                {| mf_filePath := "lib/d.txt"; modifiedContent := "3" |} ]
              {| mf_filePath := "c.txt"; modifiedContent := "4" |}
              []
              (Dir [("a", File "x"); ("c.txt", File "4");
                    ("lib", Dir [("d.txt", File "3")])])
              eq_refl eq_refl eq_refl) as (Honce & H1 & H2).
  { intros m' []. }
  split; [exact Honce|]. split; [exact H1 | exact H2].
Defined.

(** An agent that writes [a.txt] in its working directory changes no file
    outside it. *)
Lemma editing_agent_stays_in (cwd : list string) :
  stays_in cwd Examples.editing_agent.
Proof.
  intros command args d q Hq. unfold Examples.editing_agent.
  rewrite !file_at_stat, stat_set_at_outside; [reflexivity|].
  intros [k Hk]. apply Hq. exists (["a.txt"] ++ k). now rewrite Hk, <- app_assoc.
Qed.

Lemma true_store_changes_only_on_commit_witness :
  file_at (Examples.folder ++ ["a.txt"])
    (disk (step Examples.dirname (RunCodeAgent Examples.editing_agent "append world")
             Examples.world))
  = file_at (Examples.folder ++ ["a.txt"]) (disk Examples.world).
Proof.
  apply (true_store_changes_only_on_commit Examples.dirname
           (RunCodeAgent Examples.editing_agent "append world")
           Examples.world Examples.folder).
  - reflexivity.
  - intros directory H. vm_compute in H. injection H as <-. reflexivity.
  - reflexivity.
  - apply editing_agent_stays_in.
  - now exists ["a.txt"].
Defined.

(** C5, as stated, fails: the caller picked the directory of the server,
    in which [USER_FILES/notes.txt] is a file of theirs.  A run of the
    code agent, with an agent that changes nothing and nothing committed,
    removes it: the preparation empties [USER_FILES] and writes the files
    it was sent below it. *)
Lemma code_agent_run_removes_file_of_selected_folder :
  let after :=
    step Examples.dirname (RunCodeAgent Examples.silent_agent "tidy up")
      Examples.served_world in
  directoryHandle (app Examples.served_world) = Some Examples.dirname
  /\ stays_in (userFilesDir Examples.dirname) Examples.silent_agent
  /\ file_at (Examples.dirname ++ ["USER_FILES"; "notes.txt"])
       (disk Examples.served_world) = Some "mine"
  /\ file_at (Examples.dirname ++ ["USER_FILES"; "notes.txt"]) (disk after) = None
  /\ file_at (Examples.dirname ++ ["USER_FILES"; "USER_FILES"; "notes.txt"]) (disk after)
     = Some "mine".
Proof.
  split; [reflexivity|]. split; [intros command args d q Hq; reflexivity|].
  split; [reflexivity|]. split; vm_compute; reflexivity.
Qed.

(** A commit that succeeds, twice. *)
Example approve_good_changes_twice :
  (handleApproveChanges (Examples.app_with Examples.good_changes) Examples.store).1
  = Dir [("a", File "x"); ("c.txt", File "4"); ("lib", Dir [("d.txt", File "3")])]
  /\ (handleApproveChanges (Examples.app_with Examples.good_changes)
        (handleApproveChanges (Examples.app_with Examples.good_changes) Examples.store).1).1
     = Dir [("a", File "x"); ("c.txt", File "4"); ("lib", Dir [("d.txt", File "3")])].
Proof. split; reflexivity. Qed.

End ApproveExamples.

Section Scenarios.

Import Fs Server Client.

(** Scenario A of the specification: [a.txt] holds [hello], the agent
    appends [ world] and exits with code 0.  The proposal names [a.txt]
    only, the true store is untouched until the approval, and the approval
    writes the new content and clears the proposal. *)
Example scenario_agent_appends :
  let proposed :=
    step Examples.dirname (RunCodeAgent Examples.editing_agent "append world")
      Examples.world in
  let approved := step Examples.dirname ApproveChanges proposed in
  pendingChanges (app proposed)
  = [{| mf_filePath := "a.txt"; modifiedContent := "hello world" |}]
  /\ lookup Examples.folder (disk proposed) = Some Examples.project
  /\ lookup Examples.folder (disk approved)
     = Some (Dir [("a.txt", File "hello world"); ("src", Dir [("b.txt", File "bb")])])
  /\ pendingChanges (app approved) = [].
Proof. vm_compute. repeat split; reflexivity. Qed.

(** Scenario B: the agent exits with code 1 after some output; nothing is
    proposed and the true store is untouched. *)
Example scenario_agent_fails :
  let proposed :=
    step Examples.dirname (RunCodeAgent Examples.failing_agent "append world")
      Examples.world in
  pendingChanges (app proposed) = []
  /\ lookup Examples.folder (disk proposed) = Some Examples.project.
Proof. vm_compute. split; reflexivity. Qed.

End Scenarios.

(** * Further properties *)

(** ** Splitting and joining *)

Section SplitFacts.

Lemma contains_append (c : ascii) (s t : string) :
  JsText.contains c (s +:+ t) = JsText.contains c s || JsText.contains c t.
Proof.
  induction s as [|d s IH]; [reflexivity|].
  rewrite append_cons. simpl. now rewrite IH, orb_assoc.
Qed.

(** No piece of a split contains the separator. *)
Lemma split_parts_no_sep (sep : ascii) (s : string) :
  Forall (fun p => JsText.contains sep p = false) (JsString.split sep s).
Proof.
  induction s as [|c s IH]; simpl.
  - repeat constructor.
  - destruct (Ascii.eqb c sep) eqn:E.
    + constructor; [reflexivity | exact IH].
    + destruct (JsString.split sep s) as [|h t]; [repeat constructor; simpl; now rewrite E|].
      inversion IH as [|? ? Hh Ht]; subst.
      constructor; [simpl; now rewrite E, Hh | exact Ht].
Qed.

Lemma split_no_sep (sep : ascii) (s : string) :
  JsText.contains sep s = false -> JsString.split sep s = [s].
Proof.
  induction s as [|c s IH]; [reflexivity|].
  simpl. intros H. apply orb_false_iff in H. destruct H as [Hc Hs].
  rewrite Hc, (IH Hs). reflexivity.
Qed.

(** Splitting a text in two parts: the last piece of the first part and
    the first piece of the second are one piece of the whole. *)
Lemma split_app_glue (sep : ascii) (s t : string) :
  JsString.split sep (s +:+ t)
  = removelast (JsString.split sep s)
    ++ JsText.glue_pieces (List.last (JsString.split sep s) "") (JsString.split sep t).
Proof.
  induction s as [|c s IH].
  - rewrite append_empty_l. simpl.
    pose proof (split_nonempty sep t) as Hne.
    now destruct (JsString.split sep t).
  - rewrite append_cons.
    pose proof (split_nonempty sep s) as Hne.
    change (JsString.split sep (String c (s +:+ t)))
      with (if Ascii.eqb c sep then "" :: JsString.split sep (s +:+ t)
            else match JsString.split sep (s +:+ t) with
                 | [] => [String c ""]
                 | h :: l => String c h :: l
                 end).
    change (JsString.split sep (String c s))
      with (if Ascii.eqb c sep then "" :: JsString.split sep s
            else match JsString.split sep s with
                 | [] => [String c ""]
                 | h :: l => String c h :: l
                 end).
    rewrite IH. destruct (Ascii.eqb c sep).
    + destruct (JsString.split sep s) as [|h l]; [contradiction | reflexivity].
    + destruct (JsString.split sep s) as [|h [|h' l]]; [contradiction | |reflexivity].
      simpl. pose proof (split_nonempty sep t) as Hnt.
      destruct (JsString.split sep t); [contradiction | reflexivity].
Qed.

Lemma join_split (sep : ascii) (s : string) :
  JsString.join (String sep "") (JsString.split sep s) = s.
Proof.
  induction s as [|c s IH]; [reflexivity|].
  pose proof (split_nonempty sep s) as Hne. simpl.
  destruct (Ascii.eqb c sep) eqn:E.
  - apply Ascii.eqb_eq in E. subst c.
    destruct (JsString.split sep s) as [|h l]; [contradiction|].
    change (JsString.join (String sep "") ("" :: h :: l))
      with ("" +:+ String sep "" +:+ JsString.join (String sep "") (h :: l)).
    now rewrite IH.
  - destruct (JsString.split sep s) as [|h [|h' l]]; [contradiction| |].
    + simpl in *. now rewrite IH.
    + change (JsString.join (String sep "") (String c h :: h' :: l))
        with (String c h +:+ String sep "" +:+ JsString.join (String sep "") (h' :: l)).
      change (JsString.join (String sep "") (h :: h' :: l))
        with (h +:+ String sep "" +:+ JsString.join (String sep "") (h' :: l)) in IH.
      now rewrite append_cons, IH.
Qed.

End SplitFacts.

(** ** What is forwarded, and how the client reads it *)

Section Framing.

Import Server.

Lemma stdout_lines_clean (chunk : string) :
  Forall (fun line => JsString.non_blank line = true /\ JsText.contains LF line = false)
    (stdout_lines chunk).
Proof.
  unfold stdout_lines. apply List.Forall_forall. intros line Hin.
  apply filter_In in Hin. destruct Hin as [Hin Hnb]. split; [exact Hnb|].
  pose proof (split_parts_no_sep LF chunk) as Hall.
  rewrite List.Forall_forall in Hall. now apply Hall.
Qed.

(** X1: Whatever the chunks, every record the [data] handler writes is a
    [stdout] record whose line is not blank and contains no newline: the
    handler never writes an empty progress line and never one that spans
    two lines of the stream. *)
Theorem stdout_records_are_single_non_blank_lines (chunks : list string) :
  Forall (fun r => exists line,
            r = StdoutRecord line
            /\ JsString.non_blank line = true
            /\ JsText.contains LF line = false)
    (body (fold_left on_stdout_data chunks res_init)).
Proof.
  rewrite body_on_stdout_data. simpl. apply List.Forall_forall. intros r Hin.
  apply in_map_iff in Hin. destruct Hin as (line & <- & Hin).
  apply in_flat_map in Hin. destruct Hin as (chunk & _ & Hin).
  pose proof (stdout_lines_clean chunk) as Hall.
  rewrite List.Forall_forall in Hall. destruct (Hall line Hin). eauto.
Qed.

Lemma read_chunk_pieces (buffer value : string) :
  JsText.contains LF buffer = false ->
  JsString.split LF (buffer +:+ value)
  = JsText.glue_pieces buffer (JsString.split LF value).
Proof.
  intros H. rewrite split_app_glue, (split_no_sep _ _ H). reflexivity.
Qed.

Lemma last_split_no_sep (sep : ascii) (s : string) :
  JsText.contains sep (List.last (JsString.split sep s) "") = false.
Proof.
  pose proof (split_parts_no_sep sep s) as Hall.
  pose proof (split_nonempty sep s) as Hne.
  rewrite List.Forall_forall in Hall. apply Hall.
  rewrite (app_removelast_last "" Hne) at 2.
  apply in_or_app. right. now left.
Qed.

Lemma last_app_nonempty (l l' : list string) :
  l' <> [] -> List.last (l ++ l') "" = List.last l' "".
Proof.
  intros Hne. induction l as [|x l IH]; [reflexivity|].
  simpl. rewrite IH. destruct (l ++ l') eqn:E; [|reflexivity].
  apply app_eq_nil in E. destruct E. contradiction.
Qed.

Lemma read_body_from_buffer (values : list string) :
  forall buffer,
    JsText.contains LF buffer = false ->
    Reader.read_body buffer values
    = (List.filter JsString.non_blank
         (removelast (JsString.split LF (buffer +:+ JsString.join "" values))),
       List.last (JsString.split LF (buffer +:+ JsString.join "" values)) "").
Proof.
  induction values as [|v rest IH]; intros buffer Hbuf.
  - simpl. rewrite append_empty_r, (split_no_sep _ _ Hbuf). reflexivity.
  - rewrite join_empty_cons, <- append_assoc_str.
    change (Reader.read_body buffer (v :: rest))
      with (let (lines, buffer') := Reader.read_chunk buffer v in
            let (more, buffer'') := Reader.read_body buffer' rest in
            (lines ++ more, buffer'')).
    unfold Reader.read_chunk.
    set (L := JsString.split LF (buffer +:+ v)).
    rewrite (IH (List.last L "")) by apply last_split_no_sep.
    rewrite (split_app_glue LF (buffer +:+ v)). fold L.
    rewrite <- (read_chunk_pieces (List.last L "")) by apply last_split_no_sep.
    rewrite removelast_app by apply split_nonempty.
    rewrite List.filter_app, last_app_nonempty by apply split_nonempty.
    reflexivity.
Qed.

(** X2: The client's reading does not depend on how the body is cut into
    chunks: after any sequence of chunks, the lines handed to [JSON.parse]
    are the non-blank newline-terminated lines of the whole body, in
    order, and the buffer holds the unterminated rest, which is never
    parsed. *)
Theorem read_body_ignores_chunk_boundaries (values : list string) :
  Reader.read_body "" values
  = (List.filter JsString.non_blank
       (removelast (JsString.split LF (JsString.join "" values))),
     List.last (JsString.split LF (JsString.join "" values)) "").
Proof.
  rewrite (read_body_from_buffer values "" eq_refl). now rewrite append_empty_l.
Qed.

Lemma split_written (lines : list string) :
  Forall (fun line => JsString.non_blank line = true /\ JsText.contains LF line = false)
    lines ->
  JsString.split LF (Reader.written lines) = lines ++ [""].
Proof.
  unfold Reader.written.
  induction 1 as [|l ls [_ Hl] Hls IH]; [reflexivity|].
  simpl map. rewrite join_empty_cons, append_assoc_str, append_cons, append_empty_l.
  rewrite split_app_sep, (split_no_sep _ _ Hl), IH. reflexivity.
Qed.

(** X3: Round trip of the stream: when the server writes non-blank lines
    without newline, each followed by a newline, the client, however the
    bytes are cut into chunks, parses exactly these lines, in order, and
    ends with an empty buffer. *)
Theorem read_body_recovers_written_lines (lines values : list string) :
  Forall (fun line => JsString.non_blank line = true /\ JsText.contains LF line = false)
    lines ->
  JsString.join "" values = Reader.written lines ->
  Reader.read_body "" values = (lines, "").
Proof.
  intros Hlines Hbody.
  rewrite (read_body_from_buffer values "" eq_refl), append_empty_l.
  rewrite Hbody, (split_written _ Hlines).
  rewrite removelast_last, last_last. f_equal.
  apply forallb_filter_id. apply forallb_forall. intros l Hin.
  rewrite List.Forall_forall in Hlines. now destruct (Hlines l Hin).
Qed.

End Framing.

(** ** String helpers of the client *)

Section Helpers.

Import AppHelpers.

Lemma normalizeNewlines_cons (c : ascii) (rest : string) :
  normalizeNewlines (String c rest)
  = if Ascii.eqb c CR then
      match rest with
      | String d rest' =>
          if Ascii.eqb d LF then String LF (normalizeNewlines rest')
          else String LF (normalizeNewlines rest)
      | EmptyString => String LF EmptyString
      end
    else String c (normalizeNewlines rest).
Proof. reflexivity. Qed.

Lemma contains_cons (c d : ascii) (s : string) :
  JsText.contains c (String d s) = Ascii.eqb d c || JsText.contains c s.
Proof. reflexivity. Qed.

Lemma normalizeNewlines_no_cr_upto (n : nat) :
  forall text, String.length text <= n ->
    JsText.contains CR (normalizeNewlines text) = false.
Proof.
  induction n as [|n IH]; intros text Hlen.
  - destruct text; [reflexivity | simpl in Hlen; lia].
  - destruct text as [|c rest]; [reflexivity|].
    simpl in Hlen. rewrite normalizeNewlines_cons.
    destruct (Ascii.eqb c CR) eqn:Ec.
    + destruct rest as [|d rest']; [reflexivity|].
      simpl in Hlen.
      destruct (Ascii.eqb d LF); rewrite contains_cons;
        change (Ascii.eqb LF CR) with false; cbn [orb].
      * apply (IH rest'). lia.
      * apply (IH (String d rest')). simpl. lia.
    + rewrite contains_cons, Ec. cbn [orb]. apply (IH rest). lia.
Qed.

Lemma normalizeNewlines_without_cr (text : string) :
  JsText.contains CR text = false -> normalizeNewlines text = text.
Proof.
  induction text as [|c rest IH]; [reflexivity|].
  rewrite contains_cons. intros H. apply orb_false_iff in H. destruct H as [Hc Hrest].
  rewrite normalizeNewlines_cons, Hc, (IH Hrest). reflexivity.
Qed.

(** X4: [normalizeNewlines] leaves no carriage return, keeps a text without
    carriage return as it is, and so gives the same text when applied
    twice. *)
Theorem normalizeNewlines_removes_carriage_returns (text : string) :
  JsText.contains CR (normalizeNewlines text) = false
  /\ (JsText.contains CR text = false -> normalizeNewlines text = text)
  /\ normalizeNewlines (normalizeNewlines text) = normalizeNewlines text.
Proof.
  assert (JsText.contains CR (normalizeNewlines text) = false) as H
    by (apply (normalizeNewlines_no_cr_upto (String.length text)); lia).
  split; [exact H|]. split; [apply normalizeNewlines_without_cr|].
  now apply normalizeNewlines_without_cr.
Qed.

Lemma trim_end_idempotent (s : string) :
  JsString.trim_end (JsString.trim_end s) = JsString.trim_end s.
Proof.
  induction s as [|c s IH]; [reflexivity|].
  simpl. destruct (JsString.trim_end s) as [|d t] eqn:E.
  - destruct (JsString.is_whitespace c) eqn:Ec; [reflexivity|].
    simpl. now rewrite Ec.
  - change (JsString.trim_end (String c (String d t)))
      with (match JsString.trim_end (String d t) with
            | EmptyString =>
                if JsString.is_whitespace c then EmptyString else String c EmptyString
            | String x y => String c (String x y)
            end).
    now rewrite IH.
Qed.

Lemma trim_start_head (s : string) :
  JsString.trim_start s = ""
  \/ exists c t, JsString.trim_start s = String c t /\ JsString.is_whitespace c = false.
Proof.
  induction s as [|c s IH]; [now left|].
  simpl. destruct (JsString.is_whitespace c) eqn:E; [exact IH|].
  right. eauto.
Qed.

Lemma trim_end_keeps_head (c : ascii) (t : string) :
  JsString.is_whitespace c = false ->
  exists t', JsString.trim_end (String c t) = String c t'.
Proof.
  intros Hc. simpl. destruct (JsString.trim_end t); [rewrite Hc|]; eauto.
Qed.

Lemma trim_idempotent (s : string) :
  JsString.trim (JsString.trim s) = JsString.trim s.
Proof.
  unfold JsString.trim.
  destruct (trim_start_head s) as [-> | (c & t & -> & Hc)]; [reflexivity|].
  destruct (trim_end_keeps_head c t Hc) as [t' E].
  rewrite E. simpl JsString.trim_start. rewrite Hc, <- E.
  apply trim_end_idempotent.
Qed.

Lemma trim_no_outer_whitespace (s : string) :
  JsString.trim s = ""
  \/ exists c t, JsString.trim s = String c t /\ JsString.is_whitespace c = false.
Proof.
  unfold JsString.trim.
  destruct (trim_start_head s) as [-> | (c & t & -> & Hc)]; [now left|].
  destruct (trim_end_keeps_head c t Hc) as [t' E]. right. eauto.
Qed.

Lemma trim_end_last (s : string) :
  JsString.trim_end s = ""
  \/ exists c, JsString.last_char (JsString.trim_end s) = Some c
               /\ JsString.is_whitespace c = false.
Proof.
  induction s as [|c s IH]; [now left|].
  simpl. destruct (JsString.trim_end s) as [|d t] eqn:E.
  - destruct (JsString.is_whitespace c) eqn:Ec; [now left|]. right. eauto.
  - right. rewrite last_char_cons. destruct IH as [H | H]; [discriminate | exact H].
Qed.

(** X5: What [handleCodeAgent] sends has no whitespace around the contents:
    a content is empty, or begins and ends with a character that is not
    whitespace.  Trimming the files a second time changes nothing, and
    trimming keeps their number, their order and their paths. *)
Theorem trimFiles_idempotent (files : list Server.FileRecord) :
  Forall (fun f =>
            Server.content f = ""
            \/ exists c t e,
                 Server.content f = String c t
                 /\ JsString.is_whitespace c = false
                 /\ JsString.last_char (Server.content f) = Some e
                 /\ JsString.is_whitespace e = false)
    (Client.trimFiles files)
  /\ Client.trimFiles (Client.trimFiles files) = Client.trimFiles files
  /\ map Server.filePath (Client.trimFiles files) = map Server.filePath files.
Proof.
  unfold Client.trimFiles. split; [|split].
  - apply List.Forall_forall. intros f Hin. apply in_map_iff in Hin.
    destruct Hin as ([p c] & <- & _). simpl.
    destruct (String.eqb c "") eqn:E; simpl.
    + left. now apply String.eqb_eq.
    + destruct (trim_no_outer_whitespace c) as [H | (x & t & Hx & Hws)]; [now left|].
      right. destruct (trim_end_last (JsString.trim_start c)) as [H | (e & He & Hwe)].
      * unfold JsString.trim in Hx. congruence.
      * exists x, t, e. auto.
  - rewrite map_map. apply map_ext. intros [p c]. simpl.
    destruct (String.eqb c "") eqn:E; simpl.
    + now rewrite E.
    + destruct (String.eqb (JsString.trim c) ""); [reflexivity|].
      simpl. now rewrite trim_idempotent.
  - rewrite map_map. apply map_ext. intros [p c]. simpl.
    now destruct (negb (String.eqb c "")).
Qed.

End Helpers.

(** ** The restore notice *)

Section RestoreNotice.

Import Restore.

Lemma serve_cons (clientIp : string) (rest : list string) (st : state) :
  serve (clientIp :: rest) st
  = ((serve rest (last_restore clientIp st).1).1,
     (last_restore clientIp st).2 :: (serve rest (last_restore clientIp st).1).2).
Proof.
  simpl. destruct (last_restore clientIp st) as [st' a].
  simpl. now destruct (serve rest st').
Qed.

Lemma last_restore_state (clientIp : string) (st : state) :
  lastRestoreTimestamp (last_restore clientIp st).1 = lastRestoreTimestamp st
  /\ forall ip,
       is_Some (notifiedClientsForRestore (last_restore clientIp st).1 !! ip)
       <-> is_Some (notifiedClientsForRestore st !! ip)
           \/ (truthy (lastRestoreTimestamp st) = true /\ ip = clientIp).
Proof.
  unfold last_restore.
  destruct (truthy (lastRestoreTimestamp st)) eqn:Et; simpl.
  - destruct (bool_decide (is_Some (notifiedClientsForRestore st !! clientIp))) eqn:Eb; simpl.
    + apply bool_decide_eq_true in Eb. split; [reflexivity|].
      intros ip. split; [auto|]. intros [H | [_ ->]]; assumption.
    + split; [reflexivity|]. intros ip.
      destruct (decide (clientIp = ip)) as [->|Hne].
      * rewrite lookup_insert_eq. split; [intros _; right; auto | intros _; eauto].
      * rewrite lookup_insert_ne by exact Hne.
        split; [auto|]. intros [H | [_ ->]]; [exact H | contradiction].
  - split; [reflexivity|]. intros ip. split; [auto|].
    intros [H | [? _]]; [exact H | discriminate].
Qed.

Lemma serve_state (clientIps : list string) :
  forall st,
    lastRestoreTimestamp (serve clientIps st).1 = lastRestoreTimestamp st
    /\ forall ip,
         is_Some (notifiedClientsForRestore (serve clientIps st).1 !! ip)
         <-> is_Some (notifiedClientsForRestore st !! ip)
             \/ (truthy (lastRestoreTimestamp st) = true /\ In ip clientIps).
Proof.
  induction clientIps as [|c rest IH]; intros st.
  - simpl. split; [reflexivity|]. intros ip. split; [auto|]. intros [H | [_ []]]. exact H.
  - rewrite serve_cons. cbn [fst].
    destruct (IH (last_restore c st).1) as [Hts Hn].
    destruct (last_restore_state c st) as [Hts1 Hn1].
    split; [congruence|]. intros ip. rewrite Hn, Hn1, Hts1. simpl. intuition (subst; auto).
Qed.

(** X6: Each client learns of a restore once: in any sequence of requests,
    the request at a given position is answered with the restore timestamp
    exactly when there is one, the client was not notified before the
    sequence and has no earlier request in it; every other request is
    answered with [null]. *)
Theorem last_restore_notifies_each_client_once (st : state)
    (before : list string) (clientIp : string) (after : list string) :
  (serve (before ++ clientIp :: after) st).2 !! length before
  = Some (if truthy (lastRestoreTimestamp st)
             && negb (bool_decide (is_Some (notifiedClientsForRestore st !! clientIp)))
             && negb (existsb (String.eqb clientIp) before)
          then lastRestoreTimestamp st
          else None).
Proof.
  revert st. induction before as [|b before IH]; intros st.
  - simpl app. rewrite serve_cons. simpl. unfold last_restore.
    rewrite andb_true_r. now destruct (_ && _).
  - rewrite <- app_comm_cons, serve_cons. cbn [snd length]. simpl lookup.
    rewrite IH.
    destruct (last_restore_state b st) as [-> Hn].
    f_equal. cbn [existsb].
    destruct (truthy (lastRestoreTimestamp st)) eqn:Et; [|reflexivity]. cbn [andb].
    destruct (String.eqb clientIp b) eqn:Eb.
    + apply String.eqb_eq in Eb. subst b.
      rewrite (bool_decide_eq_true_2 (is_Some (notifiedClientsForRestore
                                                   (last_restore clientIp st).1 !! clientIp)))
        by (apply Hn; right; auto).
      cbn [negb andb orb]. now rewrite andb_false_r.
    + apply String.eqb_neq in Eb.
      assert (bool_decide (is_Some (notifiedClientsForRestore (last_restore b st).1
                                      !! clientIp))
              = bool_decide (is_Some (notifiedClientsForRestore st !! clientIp))) as ->.
      { apply bool_decide_ext. rewrite Hn. intuition congruence. }
      reflexivity.
Qed.

End RestoreNotice.

(** ** More on workspace preparation *)

Section PreparationMore.

Import Fs Server.

Variable dirname : list string.

Local Abbreviation W := (userFilesDir dirname).

Lemma workspace_nonempty_path : W <> [].
Proof. rewrite userFilesDir_eq. now destruct dirname. Qed.

Lemma file_at_removed_workspace (d : node) (q : list string) :
  file_at (W ++ q) (remove_at W d) = None.
Proof.
  rewrite file_at_stat. rewrite stat_below_none; [reflexivity|].
  apply stat_lookup_none. apply lookup_remove_at. apply workspace_nonempty_path.
Qed.

Lemma written_by_more (done more : list FileRecord) (d : node) :
  written_by dirname done d -> written_by dirname (done ++ more) d.
Proof.
  intros H q c Hq. destruct (H q c Hq) as (f & Hin & Hf).
  exists f. split; [apply in_or_app; now left | exact Hf].
Qed.

Lemma populate_written (files : list FileRecord) :
  forall (done : list FileRecord) (snap : gmap string string) (d : node),
    written_by dirname done d ->
    written_by dirname (done ++ files) (populate dirname files snap d).1.
Proof.
  induction files as [|f rest IH]; intros done snap d Hd.
  - rewrite app_nil_r. exact Hd.
  - rewrite populate_cons.
    destruct (mkdir (Path.dirname (Path.join W (filePath f))) d) as [d1 r1] eqn:Em.
    assert (H1 : written_by dirname done d1).
    { intros q c Hq. rewrite (mkdir_file_at _ _ _ _ _ Em) in Hq. now apply Hd. }
    destruct r1 as [u|]; [|now apply written_by_more].
    destruct (writeFile (Path.join W (filePath f)) (content f) d1) as [d2 r2] eqn:Ew.
    destruct (writeFile_spec _ _ _ _ _ Ew) as (Hnone & Hsome).
    assert (H2 : written_by dirname (done ++ [f]) d2).
    { destruct r2 as [[]|].
      - destruct (Hsome eq_refl) as (_ & Hstat).
        intros q c Hq. apply file_at_Some in Hq. rewrite Hstat in Hq.
        destruct (decide (W ++ q = Path.segments (Path.join W (filePath f)))) as [e|ne].
        + exists f. split; [apply in_or_app; right; now left|].
          split; [now symmetry | congruence].
        + apply file_at_Some in Hq. now apply (written_by_more done [f] d1 H1).
      - rewrite (Hnone eq_refl). now apply written_by_more. }
    destruct r2 as [u2|].
    + replace (done ++ f :: rest) with ((done ++ [f]) ++ rest)
        by now rewrite <- app_assoc.
      now apply IH.
    + replace (done ++ f :: rest) with ((done ++ [f]) ++ rest)
        by now rewrite <- app_assoc.
      now apply written_by_more.
Qed.

(** X7: Preparation leaves nothing of an earlier run in the workspace.  Whatever
    the disk held and whatever files are submitted, and whether preparation
    completes or is rejected on the way, every file found in the workspace
    afterwards is at the path of a submitted file and holds the content
    submitted for it. *)
Theorem prepare_workspace_holds_only_submitted_files
    (files : list FileRecord) (d : node) :
  written_by dirname files (prepare dirname files d).1.
Proof.
  rewrite prepare_unfold.
  destruct (mkdir W (remove_at W d)) as [d1 r1] eqn:Em.
  assert (H1 : written_by dirname [] d1).
  { intros q c Hq. rewrite (mkdir_file_at _ _ _ _ _ Em) in Hq.
    now rewrite file_at_removed_workspace in Hq. }
  destruct r1 as [u|].
  - apply (populate_written files [] ∅ d1 H1).
  - apply (written_by_more [] files d1 H1).
Qed.

Lemma find_app_first {A} (p : A -> bool) (l l' : list A) :
  find p (l ++ l') = match find p l with Some x => Some x | None => find p l' end.
Proof.
  induction l as [|x l IH]; [reflexivity|].
  simpl. now destruct (p x).
Qed.

Lemma populate_snapshot (files : list FileRecord) :
  forall (snap0 snap : gmap string string) (d d' : node),
    populate dirname files snap0 d = (d', Some snap) ->
    forall key,
      snap !! key
      = match find (fun f => String.eqb (JsString.replace_backslashes (filePath f)) key)
                   (rev files) with
        | Some f => Some (content f)
        | None => snap0 !! key
        end.
Proof.
  induction files as [|f rest IH]; intros snap0 snap d d' H key.
  - simpl in H. injection H as _ <-. reflexivity.
  - rewrite populate_cons in H.
    destruct (mkdir _ d) as [d1 [u|]]; [|discriminate].
    destruct (writeFile _ _ d1) as [d2 [u2|]]; [|discriminate].
    rewrite (IH _ _ _ _ H key).
    change (rev (f :: rest)) with (rev rest ++ [f]). rewrite find_app_first.
    destruct (find _ (rev rest)); [reflexivity|].
    simpl.
    destruct (String.eqb_spec (JsString.replace_backslashes (filePath f)) key) as [->|ne].
    + now rewrite lookup_insert_eq.
    + now rewrite lookup_insert_ne.
Qed.

(** X8: The snapshot that a completed preparation returns is keyed by the
    submitted paths with every backslash turned into a slash.  It has an
    entry for a key exactly when some submitted file has that normalized
    path, and the entry is the content of the last such file. *)
Theorem prepare_snapshot_last_submission_wins
    (files : list FileRecord) (d d' : node) (snap : gmap string string)
    (key : string) :
  prepare dirname files d = (d', Some snap) ->
  snap !! key
  = content <$> find (fun f => String.eqb (JsString.replace_backslashes (filePath f)) key)
                     (rev files).
Proof.
  intros H. rewrite prepare_unfold in H.
  destruct (mkdir W (remove_at W d)) as [d1 [u|]]; [|discriminate].
  rewrite (populate_snapshot files _ _ _ _ H key).
  destruct (find _ (rev files)); [reflexivity|].
  apply lookup_empty.
Qed.

End PreparationMore.

(** ** Well-formed trees under updates *)

Section Wellformed.

Import Fs.

Lemma alookup_Some_In_pair (k : string) (v : node) (es : list (string * node)) :
  alookup k es = Some v -> In (k, v) es.
Proof.
  induction es as [|[k0 v0] es IH]; simpl; [discriminate|].
  destruct (String.eqb k0 k) eqn:E.
  - apply String.eqb_eq in E. subst k0. intros H. injection H as ->. now left.
  - intros H. right. now apply IH.
Qed.

Lemma alookup_None_notin (k : string) (es : list (string * node)) :
  alookup k es = None -> ~ In k (map fst es).
Proof.
  induction es as [|[k0 v0] es IH]; simpl; [tauto|].
  destruct (String.eqb k0 k) eqn:E; [discriminate|].
  apply String.eqb_neq in E. intros H [H' | H']; [congruence | now apply IH].
Qed.

Lemma map_fst_ainsert_present (k : string) (n v : node) (es : list (string * node)) :
  alookup k es = Some v -> map fst (ainsert k n es) = map fst es.
Proof.
  induction es as [|[k0 v0] es IH]; simpl; [discriminate|].
  destruct (String.eqb k0 k) eqn:E; [reflexivity|].
  intros H. simpl. now rewrite IH.
Qed.

Lemma ainsert_absent (k : string) (n : node) (es : list (string * node)) :
  alookup k es = None -> ainsert k n es = es ++ [(k, n)].
Proof.
  induction es as [|[k0 v0] es IH]; simpl; [reflexivity|].
  destruct (String.eqb k0 k) eqn:E; [discriminate|].
  intros H. now rewrite IH.
Qed.

Lemma Forall_ainsert (P : string * node -> Prop) (k : string) (n : node)
    (es : list (string * node)) :
  Forall P es -> P (k, n) -> Forall P (ainsert k n es).
Proof.
  intros Hall Hn. induction Hall as [|[k0 v0] es H0 Hall IH]; simpl.
  - now constructor.
  - destruct (String.eqb k0 k) eqn:E.
    + apply String.eqb_eq in E. subst k0. now constructor.
    + now constructor.
Qed.

Lemma wf_entries_intro (es : list (string * node)) :
  forall seen : list string,
    Forall (fun kv => Path.valid_name kv.1 = true /\ wf kv.2 = true) es ->
    List.NoDup (map fst es) ->
    (forall k, In k (map fst es) -> ~ In k seen) ->
    (fix go (seen : list string) (es : list (string * node)) : bool :=
       match es with
       | [] => true
       | (k, v) :: es' =>
           Path.valid_name k && negb (existsb (String.eqb k) seen) && wf v
           && go (k :: seen) es'
       end) seen es = true.
Proof.
  induction es as [|[k v] es IH]; intros seen Hall Hnd Hseen; [reflexivity|].
  inversion Hall as [|? ? [Hk Hv] Hall']; subst. simpl in Hk, Hv.
  inversion Hnd as [|? ? Hnotin Hnd']; subst.
  rewrite Hk, Hv.
  assert (existsb (String.eqb k) seen = false) as ->.
  { destruct (existsb (String.eqb k) seen) eqn:E; [|reflexivity].
    apply existsb_exists in E. destruct E as (x & Hx & Hkx).
    apply String.eqb_eq in Hkx. subst x.
    exfalso. apply (Hseen k); [now left | exact Hx]. }
  simpl. apply IH; [exact Hall' | exact Hnd' |].
  intros k' Hk' [<- | Hin].
  - now apply Hnotin.
  - apply (Hseen k'); [now right | exact Hin].
Qed.

Lemma wf_Dir_intro (es : list (string * node)) :
  Forall (fun kv => Path.valid_name kv.1 = true /\ wf kv.2 = true) es ->
  List.NoDup (map fst es) ->
  wf (Dir es) = true.
Proof.
  intros Hall Hnd. apply (wf_entries_intro es [] Hall Hnd). intros k _ [].
Qed.

Lemma wf_ainsert (k : string) (n : node) (es : list (string * node)) :
  wf (Dir es) = true -> Path.valid_name k = true -> wf n = true ->
  wf (Dir (ainsert k n es)) = true.
Proof.
  intros Hwf Hk Hn. apply wf_Dir in Hwf. destruct Hwf as [Hall Hnd].
  apply wf_Dir_intro.
  - apply Forall_ainsert; [exact Hall | now split].
  - destruct (alookup k es) as [v|] eqn:E.
    + now rewrite (map_fst_ainsert_present k n v es E).
    + rewrite (ainsert_absent k n es E), map_app. simpl.
      apply NoDup_ListNoDup, NoDup_app.
      split; [now apply NoDup_ListNoDup|]. split; [|apply NoDup_singleton].
      intros x Hx Hx'. apply list_elem_of_singleton in Hx'. subst x.
      apply list_elem_of_In in Hx. now apply (alookup_None_notin k es E).
Qed.

Lemma wf_child (k : string) (v : node) (es : list (string * node)) :
  wf (Dir es) = true -> alookup k es = Some v -> wf v = true.
Proof.
  intros Hwf Hk. apply wf_Dir in Hwf. destruct Hwf as [Hall _].
  apply alookup_Some_In_pair in Hk.
  rewrite List.Forall_forall in Hall. now apply (Hall _ Hk).
Qed.

(** Putting a well-formed node under valid names keeps a tree
    well-formed. *)
Lemma wf_set_at (p : list string) (new : node) :
  wf new = true ->
  forallb Path.valid_name p = true ->
  forall n, wf n = true -> wf (set_at p new n) = true.
Proof.
  intros Hnew. induction p as [|s p IH]; intros Hp n Hn; [exact Hnew|].
  simpl in Hp. apply andb_true_iff in Hp. destruct Hp as [Hs Hp].
  destruct n as [c|es]; [exact Hn|].
  destruct p as [|y p].
  - simpl. destruct (alookup s es); now apply wf_ainsert.
  - rewrite set_at_cons_cons. destruct (alookup s es) as [child|] eqn:E; [|exact Hn].
    apply wf_ainsert; [exact Hn | exact Hs |].
    apply (IH Hp). now apply (wf_child s child es).
Qed.

(** An update below [base] is an update of the node at [base]. *)
Lemma lookup_set_at_below (base p : list string) (new : node) :
  forall d ws,
    lookup base d = Some ws ->
    lookup base (set_at (base ++ p) new d) = Some (set_at p new ws).
Proof.
  induction base as [|x base IH]; intros d ws H.
  - simpl in H. injection H as ->. reflexivity.
  - destruct d as [c|es]; [discriminate|].
    rewrite lookup_cons_dir in H.
    destruct (alookup x es) as [child|] eqn:E; [|discriminate].
    assert (set_at ((x :: base) ++ p) new (Dir es)
            = Dir (ainsert x (set_at (base ++ p) new child) es)) as ->.
    { simpl. now rewrite E. }
    rewrite lookup_cons_dir, alookup_ainsert_eq. now apply IH.
Qed.

End Wellformed.

(** ** Detection right after preparation *)

Section PrepareThenDetect.

Import Fs Server.

Variable dirname : list string.

Local Abbreviation W := (userFilesDir dirname).

(** The workspace resolves to a well-formed node. *)
Local Abbreviation workspace_wf d :=
  (exists ws, lookup W d = Some ws /\ wf ws = true).

Lemma mkdir_from_existing (a : list string) :
  forall (cur b : list string) (d : node),
    stat (cur ++ a) d = Some IsDir ->
    mkdir_from cur (a ++ b) d = mkdir_from (cur ++ a) b d.
Proof.
  induction a as [|x a IH]; intros cur b d H.
  - now rewrite app_nil_r.
  - assert (stat (cur ++ [x]) d = Some IsDir) as Hx.
    { apply (stat_prefix_of_dir _ _ _ H). exists a. now rewrite <- app_assoc. }
    apply stat_lookup_dir in Hx. destruct Hx as [es Hx].
    change (mkdir_from cur ((x :: a) ++ b) d)
      with (match lookup (cur ++ [x]) d with
            | Some (Dir _) => mkdir_from (cur ++ [x]) (a ++ b) d
            | Some (File _) => (d, None)
            | None => mkdir_from (cur ++ [x]) (a ++ b) (set_at (cur ++ [x]) (Dir []) d)
            end).
    rewrite Hx, IH.
    + now rewrite <- app_assoc.
    + now rewrite <- app_assoc.
Qed.

Lemma mkdir_from_workspace (rest : list string) :
  forall (c : list string) (d d' : node) (r : option unit),
    workspace_wf d ->
    forallb Path.valid_name (c ++ rest) = true ->
    mkdir_from (W ++ c) rest d = (d', r) ->
    workspace_wf d'.
Proof.
  induction rest as [|s rest IH]; intros c d d' r Hd Hvalid H.
  - injection H as <- _. exact Hd.
  - change (mkdir_from (W ++ c) (s :: rest) d)
      with (match lookup ((W ++ c) ++ [s]) d with
            | Some (Dir _) => mkdir_from ((W ++ c) ++ [s]) rest d
            | Some (File _) => (d, None)
            | None => mkdir_from ((W ++ c) ++ [s]) rest
                        (set_at ((W ++ c) ++ [s]) (Dir []) d)
            end) in H.
    rewrite <- app_assoc in H.
    assert (forallb Path.valid_name ((c ++ [s]) ++ rest) = true) as Hvalid'
      by now rewrite <- app_assoc.
    destruct (lookup (W ++ c ++ [s]) d) as [[content|es]|].
    + injection H as <- _. exact Hd.
    + now apply (IH (c ++ [s]) d d' r).
    + apply (IH (c ++ [s]) (set_at (W ++ c ++ [s]) (Dir []) d) d' r);
        [|exact Hvalid' | exact H].
      destruct Hd as (ws & Hws & Hwf).
      exists (set_at (c ++ [s]) (Dir []) ws).
      split; [now apply lookup_set_at_below|].
      apply wf_set_at; [reflexivity | | exact Hwf].
      rewrite forallb_app in Hvalid'. now apply andb_true_iff in Hvalid'.
Qed.

Lemma mkdir_workspace (r : list string) (d d' : node) (res : option unit) :
  workspace_wf d ->
  stat W d = Some IsDir ->
  forallb Path.valid_name r = true ->
  mkdir (W ++ r) d = (d', res) ->
  workspace_wf d'.
Proof.
  intros Hd HW Hvalid H. unfold mkdir in H.
  destruct d as [c|es].
  - injection H as <- _. exact Hd.
  - rewrite (mkdir_from_existing W [] r (Dir es) HW) in H.
    apply (mkdir_from_workspace r [] (Dir es) d' res Hd Hvalid).
    now rewrite app_nil_r.
Qed.

Lemma writeFile_workspace (ps : list string) (content : string) (d d' : node)
    (res : option unit) :
  workspace_wf d ->
  forallb Path.valid_name ps = true ->
  writeFile (Path.of_segments (W ++ ps)) content d = (d', res) ->
  workspace_wf d'.
Proof.
  intros Hd Hvalid H. unfold writeFile in H. simpl in H.
  assert (workspace_wf (set_at (W ++ ps) (File content) d)) as Hset.
  { destruct Hd as (ws & Hws & Hwf).
    exists (set_at ps (File content) ws).
    split; [now apply lookup_set_at_below | now apply wf_set_at]. }
  destruct (W ++ ps) as [|x l] eqn:E; [injection H as <- _; exact Hd|].
  destruct (lookup (removelast (x :: l)) d) as [[c|es]|];
    try (injection H as <- _; exact Hd).
  destruct (lookup (x :: l) d) as [[c|es']|]; injection H as <- _;
    first [exact Hd | exact Hset].
Qed.

Lemma valid_name_plain (s : string) :
  JsText.contains SLASH s = false ->
  Path.valid_name s = Path.plain_segment s.
Proof. intros H. unfold Path.valid_name. now rewrite (split_no_sep SLASH s H). Qed.

Lemma normalized_valid_names (rel : string) :
  Path.normalized rel = true ->
  forallb Path.valid_name (JsString.split SLASH rel) = true.
Proof.
  unfold Path.normalized. intros H.
  pose proof (split_parts_no_sep SLASH rel) as Hsep.
  induction Hsep as [|p l Hp Hsep IH]; [reflexivity|].
  simpl in *. apply andb_true_iff in H. destruct H as [H1 H2].
  rewrite (valid_name_plain p Hp), H1. now apply IH.
Qed.

Lemma forallb_removelast {A} (p : A -> bool) (l : list A) :
  forallb p l = true -> forallb p (removelast l) = true.
Proof.
  induction l as [|x l IH]; [reflexivity|].
  intros H. simpl in H. apply andb_true_iff in H. destruct H as [Hx Hl].
  destruct l as [|y l]; [reflexivity|].
  change (removelast (x :: y :: l)) with (x :: removelast (y :: l)).
  simpl forallb at 1. rewrite Hx. now apply IH.
Qed.

Lemma populate_keeps_wf (files : list FileRecord) :
  Forall (fun f => Path.normalized (filePath f) = true) files ->
  forall (snap : gmap string string) (d : node),
    stat W d = Some IsDir ->
    workspace_wf d ->
    workspace_wf (populate dirname files snap d).1.
Proof.
  induction 1 as [|f rest Hf Hrest IH]; intros snap d HW Hd; [exact Hd|].
  rewrite populate_cons.
  pose proof (normalized_valid_names _ Hf) as Hvalid.
  pose proof (split_nonempty SLASH (filePath f)) as Hne.
  rewrite (join_normalized _ _ Hf).
  set (ps := JsString.split SLASH (filePath f)) in *.
  assert (Path.dirname (Path.of_segments (W ++ ps)) = W ++ removelast ps) as ->.
  { unfold Path.dirname. simpl. now apply removelast_app. }
  destruct (mkdir (W ++ removelast ps) d) as [d1 r1] eqn:Em.
  assert (workspace_wf d1) as Hd1.
  { apply (mkdir_workspace _ _ _ _ Hd HW (forallb_removelast _ _ Hvalid) Em). }
  assert (stat W d1 = Some IsDir) as HW1.
  { now apply (proj1 (mkdir_spec _ _ _ _ Em)). }
  destruct r1 as [u|]; [|exact Hd1].
  destruct (writeFile (Path.of_segments (W ++ ps)) (content f) d1) as [d2 r2] eqn:Ew.
  assert (workspace_wf d2) as Hd2.
  { apply (writeFile_workspace _ _ _ _ _ Hd1 Hvalid Ew). }
  destruct r2 as [[]|]; [|exact Hd2].
  apply IH; [|exact Hd2].
  destruct (writeFile_spec _ _ _ _ _ Ew) as (_ & Hsome).
  destruct (Hsome eq_refl) as (_ & Hstat). rewrite Hstat. simpl.
  rewrite decide_False; [exact HW1|].
  intros H. apply (f_equal length) in H. rewrite length_app in H.
  destruct ps; [congruence | simpl in H; lia].
Qed.

(** A workspace in which nothing was written yet is an empty
    directory. *)
Lemma populated_nil_empty (d : node) :
  populated dirname [] d -> lookup W d = Some (Dir []).
Proof.
  intros (HW & _ & Hfiles & Hdirs).
  apply stat_lookup_dir in HW. destruct HW as [es HW].
  destruct es as [|[k v] es]; [exact HW|]. exfalso.
  assert (lookup (W ++ [k]) d = Some v) as Hk.
  { rewrite lookup_app, HW, lookup_cons_dir. simpl. now rewrite String.eqb_refl. }
  destruct v as [c|sub].
  - destruct (Hfiles [k] c) as (f & [] & _).
    unfold stat. now rewrite Hk.
  - destruct (Hdirs [k]) as (f & [] & _); [discriminate|].
    unfold stat. now rewrite Hk.
Qed.

Lemma flat_map_nil {A B} (f : A -> list B) (l : list A) :
  (forall x, In x l -> f x = []) -> flat_map f l = [].
Proof.
  induction l as [|x l IH]; intros H; [reflexivity|].
  simpl. rewrite (H x (or_introl eq_refl)). apply IH.
  intros y Hy. apply H. now right.
Qed.

Lemma relpath_split (p : string) :
  relpath (JsString.split SLASH p) = JsString.replace_backslashes p.
Proof. unfold relpath. f_equal. apply (join_split SLASH). Qed.

Lemma NoDup_map_inj_in {A B} (k : A -> B) (l : list A) (x y : A) :
  NoDup (map k l) -> In x l -> In y l -> k x = k y -> x = y.
Proof.
  induction l as [|a l IH]; intros Hnd Hx Hy Hk; [destruct Hx|].
  simpl in Hnd. apply NoDup_cons in Hnd. destruct Hnd as [Ha Hnd].
  assert (forall z, In z l -> k z <> k a) as Hfresh.
  { intros z Hz Hkz. apply Ha. rewrite <- Hkz.
    apply list_elem_of_In, in_map, Hz. }
  destruct Hx as [<- | Hx], Hy as [<- | Hy].
  - reflexivity.
  - exfalso. now apply (Hfresh y Hy).
  - exfalso. now apply (Hfresh x Hx).
  - now apply IH.
Qed.

Lemma find_last_unique (files : list FileRecord) (f : FileRecord) :
  NoDup (map (fun f => JsString.replace_backslashes (filePath f)) files) ->
  In f files ->
  find (fun g => String.eqb (JsString.replace_backslashes (filePath g))
                            (JsString.replace_backslashes (filePath f)))
       (rev files) = Some f.
Proof.
  intros Hnd Hin.
  destruct (find _ (rev files)) as [g|] eqn:E.
  - apply find_some in E. destruct E as [Hg Hkey].
    apply String.eqb_eq in Hkey. apply in_rev in Hg. f_equal.
    now apply (NoDup_map_inj_in _ files g f Hnd).
  - pose proof (find_none _ _ E f (proj1 (in_rev files f) Hin)) as Hf.
    simpl in Hf. now rewrite String.eqb_refl in Hf.
Qed.

(** After a preparation that completed, the workspace is a well-formed
    directory. *)
Lemma prepared_workspace_wf (files : list FileRecord) (d d' : node)
    (snap : gmap string string) :
  Forall (fun f => Path.normalized (filePath f) = true) files ->
  Path.pairwise_independent (map (fun f => JsString.split SLASH (filePath f)) files) = true ->
  prepare dirname files d = (d', Some snap) ->
  exists es, lookup W d' = Some (Dir es) /\ wf (Dir es) = true.
Proof.
  intros Hnorm Hind Hprep.
  destruct (prepare_completed dirname files d d' snap Hnorm Hind Hprep)
    as (d0 & Hp0 & Hpop & Hp).
  pose proof (populate_keeps_wf files Hnorm ∅ d0 (proj1 Hp0)
                (ex_intro _ (Dir []) (conj (populated_nil_empty d0 Hp0) eq_refl)))
    as (ws & Hws & Hwf).
  rewrite Hpop in Hws. simpl in Hws.
  destruct Hp as (HW & _). apply stat_lookup_dir in HW. destruct HW as [es HW].
  exists es. split; [exact HW | congruence].
Qed.

Lemma prepare_then_detect_nothing (files : list FileRecord) (d d' : node)
    (snap : gmap string string) :
  Forall (fun f => Path.normalized (filePath f) = true) files ->
  Path.pairwise_independent (map (fun f => JsString.split SLASH (filePath f)) files) = true ->
  NoDup (map (fun f => JsString.replace_backslashes (filePath f)) files) ->
  prepare dirname files d = (d', Some snap) ->
  detect dirname snap d' = (d', Some []).
Proof.
  intros Hnorm Hind Hnd Hprep.
  destruct (prepare_completed dirname files d d' snap Hnorm Hind Hprep)
    as (d0 & _ & Hpop & (_ & Hdone & Hfiles & _)).
  destruct (prepared_workspace_wf files d d' snap Hnorm Hind Hprep) as (es & Hws & Hwf).
  rewrite (detect_closed_form dirname snap d' es Hws Hwf).
  f_equal. f_equal. apply flat_map_nil. intros [r c] Hin. simpl.
  pose proof (workspace_files_readable dirname d' es Hws Hwf r c Hin) as Hl.
  apply stat_lookup_file in Hl.
  destruct (Hfiles r c Hl) as (f & Hf & ->).
  rewrite (Hdone f Hf) in Hl. injection Hl as <-.
  unfold modified_entry. rewrite relpath_split.
  rewrite (populate_snapshot dirname files ∅ snap d0 d' Hpop).
  rewrite (find_last_unique files f Hnd Hf).
  simpl. now rewrite String.eqb_refl.
Qed.

(** X9: Detection finds no change in a workspace that was just prepared.
    When the submitted paths are normalized, none of them leads through
    another, and they stay distinct once backslashes are turned into
    slashes, then after a preparation that completed a detection that
    follows it directly, with the snapshot it returned, completes and
    reports no file. *)
Theorem detect_after_prepare_reports_nothing (files : list FileRecord) (d d' : node)
    (snap : gmap string string) :
  Forall (fun f => Path.normalized (filePath f) = true) files ->
  Path.pairwise_independent (map (fun f => JsString.split SLASH (filePath f)) files) = true ->
  NoDup (map (fun f => JsString.replace_backslashes (filePath f)) files) ->
  prepare dirname files d = (d', Some snap) ->
  detect dirname snap d' = (d', Some []).
Proof.
  intros Hnorm Hind Hnd Hprep.
  destruct (prepare_completed dirname files d d' snap Hnorm Hind Hprep)
    as (d0 & _ & Hpop & (_ & Hdone & Hfiles & _)).
  destruct (prepared_workspace_wf files d d' snap Hnorm Hind Hprep) as (es & Hws & Hwf).
  rewrite (detect_closed_form dirname snap d' es Hws Hwf).
  f_equal. f_equal. apply flat_map_nil. intros [r c] Hin. simpl.
  pose proof (workspace_files_readable dirname d' es Hws Hwf r c Hin) as Hl.
  apply stat_lookup_file in Hl.
  destruct (Hfiles r c Hl) as (f & Hf & ->).
  rewrite (Hdone f Hf) in Hl. injection Hl as <-.
  unfold modified_entry. rewrite relpath_split.
  rewrite (populate_snapshot dirname files ∅ snap d0 d' Hpop).
  rewrite (find_last_unique files f Hnd Hf).
  simpl. now rewrite String.eqb_refl.
Qed.

End PrepareThenDetect.

(** ** No path is reported twice *)

Section ReportedOnce.

Import Fs Server.

Variable dirname : list string.

Local Abbreviation W := (userFilesDir dirname).

Lemma NoDup_map_strong {A B} (f : A -> B) (l : list A) :
  (forall x y, In x l -> In y l -> f x = f y -> x = y) ->
  NoDup l -> NoDup (map f l).
Proof.
  induction l as [|a l IH]; intros Hinj Hnd; [constructor|].
  apply NoDup_cons in Hnd. destruct Hnd as [Ha Hnd]. simpl.
  apply NoDup_cons. split.
  - intros Hin. apply list_elem_of_In, in_map_iff in Hin.
    destruct Hin as (x & Hfx & Hx). apply Ha.
    rewrite <- (Hinj x a (or_intror Hx) (or_introl eq_refl) Hfx).
    now apply list_elem_of_In.
  - apply IH; [|exact Hnd]. intros x y Hx Hy. apply Hinj; now right.
Qed.

Lemma files_under_head (es : list (string * node)) (r : list string) (c : string) :
  In (r, c) (files_under (Dir es)) ->
  exists k r', r = k :: r' /\ In k (map fst es).
Proof.
  induction es as [|[k v] es IH]; intros Hin; [destruct Hin|].
  rewrite files_under_cons in Hin. apply in_app_or in Hin.
  destruct Hin as [Hin | Hin].
  - destruct v as [c0|sub].
    + destruct Hin as [Heq | []]. injection Heq as <- _.
      exists k, []. split; [reflexivity | now left].
    + apply in_map_iff in Hin. destruct Hin as ([r0 c0] & Heq & _).
      simpl in Heq. injection Heq as <- _.
      exists k, r0. split; [reflexivity | now left].
  - destruct (IH Hin) as (k' & r' & -> & Hk').
    exists k', r'. split; [reflexivity | now right].
Qed.

(** A recursive listing of a well-formed tree meets no path twice. *)
Lemma files_under_nodup (n : node) :
  wf n = true -> NoDup (map fst (files_under n)).
Proof.
  induction n as [c|es IH] using node_induction; intros Hwf; [constructor|].
  apply wf_Dir in Hwf. destruct Hwf as [Hall Hnd].
  induction es as [|[k v] es IHes]; [constructor|].
  inversion IH as [|? ? IHv IHrest]; subst.
  inversion Hall as [|? ? [Hk Hv] Hall']; subst. simpl in Hk, Hv, IHv.
  inversion Hnd as [|? ? Hnotin Hnd']; subst.
  rewrite files_under_cons, map_app. apply NoDup_app.
  split; [|split].
  - destruct v as [c|sub]; [apply NoDup_singleton|].
    rewrite map_map. simpl.
    rewrite <- (map_map fst (cons k)).
    apply NoDup_map_strong; [|now apply IHv].
    intros x y _ _ H. now injection H.
  - intros r Hr Hr'. apply list_elem_of_In, in_map_iff in Hr'.
    destruct Hr' as ([r0 c0] & <- & Hin0). simpl in Hr.
    destruct (files_under_head es r0 c0 Hin0) as (k' & r' & -> & Hk').
    assert (k' = k) as ->.
    { destruct v as [c|sub].
      - apply list_elem_of_singleton in Hr. now injection Hr.
      - apply list_elem_of_In, in_map_iff in Hr.
        destruct Hr as ([r1 c1] & Heq & Hin1). simpl in Heq. subst r1.
        apply in_map_iff in Hin1. destruct Hin1 as ([r2 c2] & Heq & _).
        now injection Heq. }
    now apply Hnotin.
  - now apply IHes.
Qed.

Lemma replace_backslashes_id (s : string) :
  JsText.contains "\"%char s = false -> JsString.replace_backslashes s = s.
Proof.
  induction s as [|c s IH]; [reflexivity|].
  simpl. intros H. apply orb_false_iff in H. destruct H as [Hc Hs].
  now rewrite Hc, (IH Hs).
Qed.

Lemma contains_join (c : ascii) (sep : string) (l : list string) :
  JsText.contains c sep = false ->
  Forall (fun s => JsText.contains c s = false) l ->
  JsText.contains c (JsString.join sep l) = false.
Proof.
  intros Hsep Hall. induction Hall as [|s l Hs Hall IH]; [reflexivity|].
  destruct l as [|s' l]; [exact Hs|].
  change (JsString.join sep (s :: s' :: l))
    with (s +:+ sep +:+ JsString.join sep (s' :: l)).
  now rewrite !contains_append, Hs, Hsep, IH.
Qed.

Lemma wf_lookup_valid (r : list string) :
  forall n m, wf n = true -> lookup r n = Some m ->
              Forall (fun x => Path.valid_name x = true) r.
Proof.
  induction r as [|k r IH]; intros n m Hwf H; [constructor|].
  destruct n as [c|es]; [discriminate|].
  rewrite lookup_cons_dir in H.
  destruct (alookup k es) as [child|] eqn:E; [|discriminate].
  pose proof (alookup_Some_In_pair k child es E) as Hin.
  apply wf_Dir in Hwf. destruct Hwf as [Hall _].
  rewrite List.Forall_forall in Hall. destruct (Hall _ Hin) as [Hk Hchild].
  constructor; [exact Hk | now apply (IH child m)].
Qed.

Lemma nodup_reported (snap : gmap string string) (l : list (list string * string)) :
  NoDup (map (fun rc => relpath rc.1) l) ->
  NoDup (map mf_filePath
           (flat_map (fun rc => modified_entry snap (relpath rc.1) rc.2) l)).
Proof.
  induction l as [|[r c] l IH]; intros Hnd; [constructor|].
  simpl in Hnd. apply NoDup_cons in Hnd. destruct Hnd as [Hr Hnd].
  simpl. rewrite map_app. unfold modified_entry at 1.
  destruct (differs (snap !! relpath r) c); [|now apply IH].
  simpl. apply NoDup_cons. split; [|now apply IH].
  intros Hin. apply Hr.
  apply list_elem_of_In, in_map_iff in Hin. destruct Hin as (m & Hm & Hin).
  apply in_flat_map in Hin. destruct Hin as ([r' c'] & Hin' & Hm').
  apply in_modified_entry in Hm'. destruct Hm' as [-> _]. simpl in Hm. subst.
  apply list_elem_of_In, in_map_iff. now exists (r', c').
Qed.

Lemma names_without_entries (c : ascii) (es : list (string * node)) :
  names_without c (Dir es) = true ->
  Forall (fun kv => JsText.contains c kv.1 = false /\ names_without c kv.2 = true) es.
Proof.
  induction es as [|[k v] es IH]; intros H; [constructor|].
  simpl in H. apply andb_true_iff in H. destruct H as [H Hes].
  apply andb_true_iff in H. destruct H as [Hk Hv].
  apply negb_true_iff in Hk. constructor; [now split | now apply IH].
Qed.

Lemma names_without_lookup (c : ascii) (r : list string) :
  forall n m, names_without c n = true -> lookup r n = Some m ->
              Forall (fun name => JsText.contains c name = false) r.
Proof.
  induction r as [|k r IH]; intros n m Hn H; [constructor|].
  destruct n as [c0|es]; [discriminate|].
  rewrite lookup_cons_dir in H.
  destruct (alookup k es) as [child|] eqn:E; [|discriminate].
  pose proof (alookup_Some_In_pair k child es E) as Hin.
  pose proof (names_without_entries c es Hn) as Hall.
  rewrite List.Forall_forall in Hall. destruct (Hall _ Hin) as [Hk Hchild].
  constructor; [exact Hk | now apply (IH child m)].
Qed.

(** X10: Detection reports no path twice when no name in the workspace has a
    backslash: the reported paths are pairwise distinct. *)
Theorem detect_reports_each_path_once (snap : gmap string string)
    (d : node) (es : list (string * node)) :
  lookup W d = Some (Dir es) ->
  wf (Dir es) = true ->
  names_without "\"%char (Dir es) = true ->
  exists result,
    detect dirname snap d = (d, Some result)
    /\ NoDup (map mf_filePath result).
Proof.
  intros HW Hwf Hplain. eexists.
  split; [exact (detect_closed_form dirname snap d es HW Hwf)|].
  apply nodup_reported. rewrite <- (map_map fst relpath).
  apply NoDup_map_strong; [|now apply files_under_nodup].
  assert (forall r, In r (map fst (files_under (Dir es))) ->
            JsString.split SLASH (relpath r) = r) as Hback.
  { intros r Hr. apply in_map_iff in Hr. destruct Hr as ([r0 c] & <- & Hin). simpl.
    pose proof (files_under_lookup (Dir es) Hwf r0 c Hin) as Hl.
    unfold relpath. rewrite replace_backslashes_id.
    - apply split_join_valid; [|now apply (wf_lookup_valid r0 (Dir es) (File c))].
      intros ->. discriminate.
    - apply contains_join; [reflexivity|].
      now apply (names_without_lookup _ r0 (Dir es) (File c)). }
  intros x y Hx Hy Heq.
  rewrite <- (Hback x Hx), <- (Hback y Hy). now rewrite Heq.
Qed.

End ReportedOnce.

(** ** Which files are reported *)

Section ReportedFiles.

Import Fs Server.

Variable dirname : list string.

Local Abbreviation W := (userFilesDir dirname).

(** Without a backslash in the names, the reported path of a workspace
    file leads back to the file. *)
Lemma reported_path_back (es : list (string * node)) (r : list string) (c : string) :
  wf (Dir es) = true ->
  names_without "\"%char (Dir es) = true ->
  In (r, c) (files_under (Dir es)) ->
  JsString.split SLASH (relpath r) = r.
Proof.
  intros Hwf Hplain Hin.
  pose proof (files_under_lookup (Dir es) Hwf r c Hin) as Hl.
  unfold relpath. rewrite replace_backslashes_id.
  - apply split_join_valid; [|now apply (wf_lookup_valid r (Dir es) (File c))].
    intros ->. discriminate.
  - apply contains_join; [reflexivity|].
    now apply (names_without_lookup _ r (Dir es) (File c)).
Qed.

(** C9, as amended: every entry of the change detector's result is the
    normalized relative path (backslashes turned into slashes) and the
    content of a file that exists in the final workspace; and when no
    name in the final workspace contains a backslash, the path of every
    entry leads to a file of the final workspace, with the content of the
    entry, so that a path at which the workspace has no file, such as a
    snapshot path whose file the agent deleted, is in no entry. *)
Theorem detect_reports_only_existing_files (snap : gmap string string)
    (d : node) (es : list (string * node)) :
  lookup W d = Some (Dir es) ->
  wf (Dir es) = true ->
  exists result,
    detect dirname snap d = (d, Some result)
    /\ (forall m, In m result ->
          exists rel, rel <> [] /\ mf_filePath m = relpath rel
                      /\ file_at (W ++ rel) d = Some (modifiedContent m))
    /\ (names_without "\"%char (Dir es) = true ->
        (forall m, In m result ->
           file_at (W ++ JsString.split SLASH (mf_filePath m)) d
           = Some (modifiedContent m))
        /\ (forall p,
              file_at (W ++ JsString.split SLASH p) d = None ->
              forall m, In m result -> mf_filePath m <> p)).
Proof.
  intros HW Hwf. eexists.
  split; [exact (detect_closed_form dirname snap d es HW Hwf)|].
  split.
  - intros m Hm. apply in_flat_map in Hm. destruct Hm as ([r c] & Hrc & Hin).
    apply in_modified_entry in Hin. destruct Hin as [-> _]. simpl.
    pose proof (files_under_lookup _ Hwf _ _ Hrc) as Hlook.
    exists r. split; [|split; [reflexivity|]].
    + intros ->. discriminate.
    + unfold file_at. now rewrite lookup_app, HW, Hlook.
  - intros Hplain.
    assert (forall m,
              In m (flat_map (fun rc => modified_entry snap (relpath rc.1) rc.2)
                      (files_under (Dir es))) ->
              file_at (W ++ JsString.split SLASH (mf_filePath m)) d
              = Some (modifiedContent m)) as Hdirect.
    { intros m Hm. apply in_flat_map in Hm. destruct Hm as ([r c] & Hrc & Hin).
      apply in_modified_entry in Hin. destruct Hin as [-> _]. simpl.
      rewrite (reported_path_back es r c Hwf Hplain Hrc).
      pose proof (files_under_lookup _ Hwf _ _ Hrc) as Hlook.
      unfold file_at. now rewrite lookup_app, HW, Hlook. }
    split; [exact Hdirect|].
    intros p Hnone m Hm Hp. rewrite <- Hp, (Hdirect m Hm) in Hnone. discriminate.
Qed.

End ReportedFiles.

Section ReportedFilesExamples.

Import Fs Server.

Lemma detect_reports_only_existing_files_witness :
  lookup (userFilesDir Examples.dirname) Examples.final_disk
  = Some (Dir Examples.final_workspace)
  /\ wf (Dir Examples.final_workspace) = true
  /\ names_without "\"%char (Dir Examples.final_workspace) = true
  /\ Examples.snapshot !! "src/b.txt" = Some "bb"
  /\ file_at (userFilesDir Examples.dirname ++ ["src"; "b.txt"]) Examples.final_disk = None
  /\ exists result,
       detect Examples.dirname Examples.snapshot Examples.final_disk
       = (Examples.final_disk, Some result)
       /\ (forall m, In m result ->
             file_at (userFilesDir Examples.dirname
                        ++ JsString.split SLASH (mf_filePath m)) Examples.final_disk
             = Some (modifiedContent m))
       /\ (forall m, In m result -> mf_filePath m <> "src/b.txt").
Proof.
  split; [reflexivity|]. split; [reflexivity|]. split; [reflexivity|].
  split; [vm_compute; reflexivity|]. split; [reflexivity|].
  destruct (detect_reports_only_existing_files Examples.dirname Examples.snapshot
              Examples.final_disk Examples.final_workspace eq_refl eq_refl)
    as (result & Hdetect & _ & Hplain).
  destruct (Hplain eq_refl) as [Hfiles Habsent].
  exists result. split; [exact Hdetect|]. split; [exact Hfiles|].
  exact (Habsent "src/b.txt" eq_refl).
Defined.

(** C9, as stated, fails: the workspace was prepared with [a/b]; the
    agent removed that file and wrote one whose name is [a\b].  The
    detector reports the path [a/b], at which the final workspace has no
    file. *)
Lemma detect_reports_path_of_removed_file :
  lookup (userFilesDir Examples.dirname) Examples.renamed_disk
  = Some (Dir Examples.renamed_workspace)
  /\ wf (Dir Examples.renamed_workspace) = true
  /\ Examples.renamed_snapshot !! "a/b" = Some "old"
  /\ stat (userFilesDir Examples.dirname ++ ["a"; "b"]) Examples.renamed_disk = None
  /\ file_at (userFilesDir Examples.dirname ++ JsString.split SLASH "a/b")
       Examples.renamed_disk = None
  /\ detect Examples.dirname Examples.renamed_snapshot Examples.renamed_disk
     = (Examples.renamed_disk,
        Some [{| mf_filePath := "a/b"; modifiedContent := "new" |}]).
Proof.
  split; [reflexivity|]. split; [reflexivity|]. split; [vm_compute; reflexivity|].
  split; [reflexivity|]. split; [reflexivity|]. vm_compute. reflexivity.
Qed.

End ReportedFilesExamples.

(** ** The outcome of a proposal *)

Section Propose.

Import Fs Server Client.

(** What the stdout records of a response do to the application state. *)
Local Abbreviation show_lines lines a :=
  (fold_left (fun shown line =>
                if String.eqb line "" then shown
                else pushMessage (AssistantMessage line) shown)
     lines a).

Lemma read_stream_stdout (lines : list string) (rest : list record) (a : App) :
  read_stream (map StdoutRecord lines ++ rest) a = read_stream rest (show_lines lines a).
Proof.
  revert a. induction lines as [|line lines IH]; intros a; [reflexivity|].
  simpl. apply IH.
Qed.

Lemma show_lines_keeps {X} (proj : App -> X) (lines : list string) (a : App) :
  (forall m a, proj (pushMessage m a) = proj a) ->
  proj (show_lines lines a) = proj a.
Proof.
  intros H. revert a. induction lines as [|line lines IH]; intros a; [reflexivity|].
  simpl. rewrite IH. now destruct (String.eqb line "").
Qed.

Lemma show_lines_messages (lines : list string) (a : App) :
  messages (show_lines lines a)
  = messages a
    ++ map AssistantMessage (List.filter (fun line => negb (String.eqb line "")) lines).
Proof.
  revert a. induction lines as [|line lines IH]; intros a.
  - simpl. now rewrite app_nil_r.
  - simpl. rewrite IH. destruct (String.eqb line ""); [reflexivity|].
    simpl. now rewrite <- app_assoc.
Qed.

Lemma handleCodeAgent_after_response
    (server : Request -> node -> node * response) (prompt : string) (w : World)
    (handle : list string) (entries : list (string * node))
    (lines : list string) (modifiedFiles : list ModifiedFile) :
  let filesToProcess :=
    readAllFilesFromDirectoryHandle (isNovo (app w)) (Dir entries) "" in
  let response :=
    (server {| prompt := prompt; files := trimFiles filesToProcess;
               useClaude := appUseClaude (app w) |} (disk w)).2 in
  directoryHandle (app w) = Some handle ->
  lookup handle (disk w) = Some (Dir entries) ->
  statusCode response = 200 ->
  body response = map StdoutRecord lines ++ [ModifiedFilesRecord modifiedFiles] ->
  app (handleCodeAgent server prompt w)
  = let shown :=
      setPendingChanges modifiedFiles
        (show_lines lines (setOriginalFiles filesToProcess (app w))) in
    match modifiedFiles with
    | [] => code_agent_failed NoFirstFile shown
    | first :: _ => setDiffView (mf_filePath first) true false shown
    end.
Proof.
  intros filesToProcess response Hh Hl Hstatus Hbody.
  unfold handleCodeAgent. rewrite Hh, Hl. fold filesToProcess.
  destruct (server _ (disk w)) as [disk' res] eqn:Es.
  subst response. simpl in Hstatus, Hbody. rewrite Hstatus, Hbody.
  cbn [app Nat.leb andb negb].
  rewrite read_stream_stdout.
  now destruct modifiedFiles.
Qed.

(** X11: How a run of the code agent on a folder that can be read ends
    when the server answers 200 with progress lines and a final list of
    modified files.  The list becomes the pending changes and the files
    read from the folder, untrimmed, the originals.  With a non-empty list
    the diff opens on its first file.  With an empty list the run ends as
    a failure: reading the path of the first file throws, the error
    notification is [Failed to run code agent: ] followed by the message
    of that exception, and the apology, with the same message, is
    appended to the chat. *)
Theorem handleCodeAgent_outcome
    (server : Request -> node -> node * response) (prompt : string) (w : World)
    (handle : list string) (entries : list (string * node))
    (lines : list string) (modifiedFiles : list ModifiedFile) :
  let filesToProcess :=
    readAllFilesFromDirectoryHandle (isNovo (app w)) (Dir entries) "" in
  let response :=
    (server {| prompt := prompt; files := trimFiles filesToProcess;
               useClaude := appUseClaude (app w) |} (disk w)).2 in
  let shown :=
    map AssistantMessage (List.filter (fun line => negb (String.eqb line "")) lines) in
  directoryHandle (app w) = Some handle ->
  lookup handle (disk w) = Some (Dir entries) ->
  statusCode response = 200 ->
  body response = map StdoutRecord lines ++ [ModifiedFilesRecord modifiedFiles] ->
  let after := app (handleCodeAgent server prompt w) in
  pendingChanges after = modifiedFiles
  /\ originalFiles after = filesToProcess
  /\ match modifiedFiles with
     | [] =>
         notification after = Some (Failed "Failed to run code agent" NoFirstFile)
         /\ messages after
            = messages (app w) ++ shown
              ++ [ErrorMessage "Sorry, I encountered an error with the code agent"
                    NoFirstFile]
     | first :: _ =>
         notification after = notification (app w)
         /\ messages after = messages (app w) ++ shown
         /\ activeDiffTab after = mf_filePath first
         /\ showCodeAgentDiff after = true
         /\ showDiffPanel after = false
     end.
Proof.
  intros filesToProcess response shown Hh Hl Hstatus Hbody after.
  subst after. unfold handleCodeAgent. rewrite Hh, Hl.
  fold filesToProcess.
  destruct (server _ (disk w)) as [disk' res] eqn:Es.
  subst response. simpl in Hstatus, Hbody. rewrite Hstatus, Hbody.
  cbn [app Nat.leb andb negb].
  rewrite read_stream_stdout.
  set (a0 := setOriginalFiles filesToProcess (app w)).
  destruct modifiedFiles as [|first others]; cbn [read_stream on_record].
  - split; [reflexivity|]. split.
    + cbn. now rewrite (show_lines_keeps originalFiles).
    + split; [reflexivity|]. cbn. rewrite show_lines_messages.
      now rewrite <- app_assoc.
  - split; [reflexivity|]. split.
    + cbn. now rewrite (show_lines_keeps originalFiles).
    + split; [cbn; now rewrite (show_lines_keeps notification)|].
      split; [cbn; now rewrite show_lines_messages|].
      split; [reflexivity|]. split; reflexivity.
Qed.

(** A folder that cannot be read any more: nothing is sent, the disk and
    the originals stay, and the run ends as a failure. *)
Lemma handleCodeAgent_stale_handle
    (server : Request -> node -> node * response) (prompt : string) (w : World)
    (handle : list string) :
  directoryHandle (app w) = Some handle ->
  (forall entries, lookup handle (disk w) <> Some (Dir entries)) ->
  handleCodeAgent server prompt w
  = {| disk := disk w; app := code_agent_failed HandleUnreadable (app w) |}.
Proof.
  intros Hh Hl. unfold handleCodeAgent. rewrite Hh.
  destruct (lookup handle (disk w)) as [[c|entries]|]; try reflexivity.
  now destruct (Hl entries).
Qed.

End Propose.

(** ** What a commit leaves alone *)

Section CommitFrame.

Import Fs Server Client.

Lemma getDirectoryHandle_back (h : list string) (name : string) (s s' : node)
    (r : option (list string)) (q : list string) (c : string) :
  getDirectoryHandle h name s = (s', r) ->
  stat q s' = Some (IsFile c) -> stat q s = Some (IsFile c).
Proof.
  intros Hg Hq. apply getDirectoryHandle_spec in Hg.
  destruct Hg as (_ & G1 & G2 & _).
  destruct (stat q s) as [k|] eqn:E.
  - rewrite (G1 _ _ E) in Hq. exact Hq.
  - destruct (G2 _ E) as [H | H]; congruence.
Qed.

Lemma traverse_back (parts : list string) :
  forall (h : list string) (s s' : node) (r : option (list string))
         (q : list string) (c : string),
    traverse h parts s = (s', r) ->
    stat q s' = Some (IsFile c) -> stat q s = Some (IsFile c).
Proof.
  induction parts as [|x parts IH]; intros h s s' r q c Hrun Hq.
  - injection Hrun as <- _. exact Hq.
  - rewrite traverse_cons in Hrun.
    destruct (getDirectoryHandle h x s) as [sa [h1|]] eqn:Hg.
    + apply (getDirectoryHandle_back _ _ _ _ _ _ _ Hg).
      now apply (IH _ _ _ _ _ _ Hrun).
    + injection Hrun as <- _. now apply (getDirectoryHandle_back _ _ _ _ _ _ _ Hg).
Qed.

Lemma write_back (dh : list string) (path content : string) (s s' : node)
    (r : option unit) (q : list string) (c : string) :
  writeFileToDirectoryHandle dh path content s = (s', r) ->
  q <> dh ++ JsString.split SLASH path ->
  stat q s' = Some (IsFile c) -> stat q s = Some (IsFile c).
Proof.
  rewrite write_unfold.
  set (parts := JsString.split SLASH path).
  assert (parts <> []) as Hparts by apply split_nonempty.
  destruct (traverse dh (removelast parts) s) as [sa ra] eqn:Htr.
  pose proof (traverse_spec _ _ _ _ _ Htr) as (_ & T3).
  destruct ra as [h1|];
    [|intros H _ Hq; injection H as <- _; now apply (traverse_back _ _ _ _ _ _ _ Htr)].
  destruct (T3 h1 eq_refl) as (-> & _ & _).
  destruct (getFileHandle _ _ sa) as [sb rb] eqn:Hg.
  pose proof (getFileHandle_spec _ _ _ _ _ Hg) as (G0 & _ & G2).
  destruct rb as [fh|].
  - destruct (G2 fh eq_refl) as (-> & _ & _ & (c0 & Hc0) & _ & Hframe).
    rewrite (target_parts dh parts Hparts) in *.
    rewrite write_and_close_stat, Hc0.
    intros H Hne Hq. injection H as <- _.
    rewrite (stat_overwrite_file _ _ _ _ _ Hc0), decide_False in Hq by exact Hne.
    rewrite (Hframe q Hne) in Hq.
    now apply (traverse_back _ _ _ _ _ _ _ Htr).
  - intros H _ Hq. injection H as <- _. rewrite (G0 eq_refl) in Hq.
    now apply (traverse_back _ _ _ _ _ _ _ Htr).
Qed.

Lemma apply_changes_back (dh : list string) (l : list ModifiedFile) :
  forall (s s' : node) (r : option unit) (q : list string) (c : string),
    apply_changes dh l s = (s', r) ->
    ~ In q (map (target dh) l) ->
    stat q s' = Some (IsFile c) -> stat q s = Some (IsFile c).
Proof.
  induction l as [|m l IH]; intros s s' r q c Hrun Hq Hs'.
  - injection Hrun as <- _. exact Hs'.
  - rewrite apply_changes_cons in Hrun.
    destruct (writeFileToDirectoryHandle dh (mf_filePath m) (modifiedContent m) s)
      as [s1 [u|]] eqn:Hw.
    + apply (write_back _ _ _ _ _ _ _ _ Hw).
      * intros ->. apply Hq. now left.
      * apply (IH _ _ _ _ _ Hrun); [|exact Hs']. intros H. apply Hq. now right.
    + injection Hrun as <- _. apply (write_back _ _ _ _ _ _ _ _ Hw); [|exact Hs'].
      intros ->. apply Hq. now left.
Qed.

Lemma apply_changes_untargeted (dh : list string) (l : list ModifiedFile)
    (s : node) (q : list string) :
  ~ In q (map (target dh) l) ->
  file_at q (apply_changes dh l s).1 = file_at q s.
Proof.
  intros Hq. destruct (apply_changes dh l s) as [s' r] eqn:Hrun. simpl.
  rewrite !file_at_stat.
  destruct (stat q s) as [k|] eqn:E.
  - rewrite (apply_changes_frame dh l s s' r q k Hrun E); [reflexivity|].
    intros H. apply Hq. now apply (executed_targets dh l s).
  - destruct (stat q s') as [[c|]|] eqn:E'; try reflexivity.
    rewrite (apply_changes_back dh l s s' r q c Hrun Hq E') in E. discriminate.
Qed.

(** X12: A commit touches no file but its targets.  Whether it completes or
    stops at a failing write, a path that no pending change is written to
    holds the same file, or no file, before and after. *)
Theorem approve_leaves_untargeted_files (a : App) (store : node) (q : list string) :
  (forall handle, directoryHandle a = Some handle ->
     ~ In q (map (target handle) (pendingChanges a))) ->
  file_at q (handleApproveChanges a store).1 = file_at q store.
Proof.
  intros Hq. rewrite handleApproveChanges_store.
  destruct (directoryHandle a) as [handle|]; [|reflexivity].
  destruct (pendingChanges a) as [|m l] eqn:El; [reflexivity|].
  apply apply_changes_untargeted. now apply Hq.
Qed.

End CommitFrame.

(** ** When a write to the selected folder succeeds *)

Section WriteCriterion.

Import Fs Server Client.

(** [traverse] creates the directories that are missing. *)
Lemma traverse_creates (parts : list string) :
  forall (h : list string) (s : node),
    stat h s = Some IsDir ->
    forallb Path.valid_name parts = true ->
    (forall pre c, pre `prefix_of` parts -> stat (h ++ pre) s <> Some (IsFile c)) ->
    exists s',
      traverse h parts s = (s', Some (h ++ parts))
      /\ stat (h ++ parts) s' = Some IsDir
      /\ (forall q k, stat q s = Some k -> stat q s' = Some k)
      /\ (forall q, stat q s = None ->
            stat q s' = None \/ (stat q s' = Some IsDir /\ q `prefix_of` h ++ parts)).
Proof.
  induction parts as [|x parts IH]; intros h s Hh Hv Hfree.
  - exists s. rewrite app_nil_r. split; [reflexivity|]. split; [exact Hh|]. auto.
  - simpl in Hv. apply andb_true_iff in Hv. destruct Hv as [Hx Hv].
    rewrite traverse_cons, getDirectoryHandle_stat, Hh, Hx. simpl negb. cbv iota.
    assert (forall s1,
              stat (h ++ [x]) s1 = Some IsDir ->
              (forall q k, stat q s = Some k -> stat q s1 = Some k) ->
              (forall q, stat q s = None ->
                 stat q s1 = None \/ (stat q s1 = Some IsDir /\ q = h ++ [x])) ->
              exists s',
                traverse (h ++ [x]) parts s1 = (s', Some (h ++ x :: parts))
                /\ stat (h ++ x :: parts) s' = Some IsDir
                /\ (forall q k, stat q s = Some k -> stat q s' = Some k)
                /\ (forall q, stat q s = None ->
                      stat q s' = None
                      \/ (stat q s' = Some IsDir /\ q `prefix_of` h ++ x :: parts)))
      as Hgo.
    { intros s1 Hdir Hkeep Hnew.
      destruct (IH (h ++ [x]) s1 Hdir Hv) as (s' & Htr & Hs' & K1 & K2).
      { intros pre c Hpre Hc. rewrite <- app_assoc in Hc. simpl in Hc.
        destruct (stat (h ++ x :: pre) s) as [k|] eqn:E.
        - rewrite (Hkeep _ _ E) in Hc. injection Hc as ->.
          apply (Hfree (x :: pre) c); [now apply prefix_cons | exact E].
        - destruct (Hnew _ E) as [H | [H _]]; congruence. }
      rewrite <- app_assoc in Htr, Hs', K2. simpl in Htr, Hs', K2.
      exists s'. split; [exact Htr|]. split; [exact Hs'|]. split.
      - intros q k Hq. apply K1. now apply Hkeep.
      - intros q Hq. destruct (Hnew q Hq) as [H | [H ->]].
        + exact (K2 q H).
        + right. split; [now apply K1|].
          apply prefix_app, prefix_cons, prefix_nil. }
    destruct (stat (h ++ [x]) s) as [[c|]|] eqn:E.
    + exfalso. apply (Hfree [x] c); [apply prefix_cons, prefix_nil | exact E].
    + apply Hgo; [exact E | auto | auto].
    + apply Hgo.
      * rewrite (stat_set_at_fresh_dir _ _ _ _ Hh E). now rewrite decide_True.
      * intros q k Hq. rewrite (stat_set_at_fresh_dir _ _ _ _ Hh E).
        rewrite decide_False; [exact Hq | congruence].
      * intros q Hq. rewrite (stat_set_at_fresh_dir _ _ _ _ Hh E).
        destruct (decide (q = h ++ [x])); [right; auto | left; exact Hq].
Qed.

Lemma write_succeeds (dh : list string) (path content : string) (s : node) :
  stat dh s = Some IsDir ->
  forallb Path.valid_name (JsString.split SLASH path) = true ->
  (forall pre c, pre `prefix_of` removelast (JsString.split SLASH path) ->
                 stat (dh ++ pre) s <> Some (IsFile c)) ->
  stat (dh ++ JsString.split SLASH path) s <> Some IsDir ->
  (writeFileToDirectoryHandle dh path content s).2 = Some tt.
Proof.
  rewrite write_unfold.
  set (parts := JsString.split SLASH path).
  assert (parts <> []) as Hparts by apply split_nonempty.
  intros Hdh Hv Hfree Hnodir.
  rewrite (forallb_removelast_last _ parts Hparts) in Hv.
  apply andb_true_iff in Hv. destruct Hv as [Hvs Hlast].
  destruct (traverse_creates (removelast parts) dh s Hdh Hvs Hfree)
    as (sa & -> & Hsa & K1 & K2).
  rewrite getFileHandle_stat, Hsa, Hlast. simpl negb. cbv iota.
  rewrite (target_parts dh parts Hparts).
  assert (stat (dh ++ parts) sa <> Some IsDir) as Hnodir'.
  { intros H. destruct (stat (dh ++ parts) s) as [k|] eqn:E.
    - rewrite (K1 _ _ E) in H. congruence.
    - destruct (K2 _ E) as [H' | [_ Hpre]]; [congruence|].
      apply prefix_app_same, prefix_length in Hpre.
      pose proof (removelast_shorter parts Hparts). lia. }
  destruct (stat (dh ++ parts) sa) as [[c|]|] eqn:E; [| congruence |].
  - now rewrite (write_and_close_file _ content c sa E).
  - assert (dh ++ parts <> []) as Hne by (destruct dh, parts; simpl; congruence).
    assert (removelast (dh ++ parts) = dh ++ removelast parts) as Hrl
      by now apply removelast_app.
    rewrite (write_and_close_file _ content "").
    + reflexivity.
    + rewrite stat_set_at_file; [now rewrite decide_True | exact Hne | | congruence].
      now rewrite Hrl.
Qed.

(** X13: A write to the selected folder completes exactly when the handle is a
    directory, every segment of the relative path is a valid entry name,
    no file stands where a directory of the path is needed, and the path
    itself is not a directory.  Missing directories are no obstacle.  When
    it completes, the file at the path holds the content. *)
Theorem writeFileToDirectoryHandle_succeeds_iff
    (dh : list string) (path content : string) (s : node) :
  ((writeFileToDirectoryHandle dh path content s).2 = Some tt
   <-> stat dh s = Some IsDir
       /\ forallb Path.valid_name (JsString.split SLASH path) = true
       /\ (forall pre c, pre `prefix_of` removelast (JsString.split SLASH path) ->
                         stat (dh ++ pre) s <> Some (IsFile c))
       /\ stat (dh ++ JsString.split SLASH path) s <> Some IsDir)
  /\ ((writeFileToDirectoryHandle dh path content s).2 = Some tt ->
      file_at (dh ++ JsString.split SLASH path)
        (writeFileToDirectoryHandle dh path content s).1 = Some content).
Proof.
  split.
  - split; [|intros (H1 & H2 & H3 & H4); now apply write_succeeds].
    rewrite write_unfold.
    set (parts := JsString.split SLASH path).
    assert (parts <> []) as Hparts by apply split_nonempty.
    destruct (traverse dh (removelast parts) s) as [sa ra] eqn:Htr.
    pose proof (traverse_spec _ _ _ _ _ Htr) as (T1 & T3).
    destruct ra as [h1|]; [|discriminate].
    destruct (T3 h1 eq_refl) as (-> & Hvs & _).
    destruct (getFileHandle _ _ sa) as [sb rb] eqn:Hg.
    pose proof (getFileHandle_spec _ _ _ _ _ Hg) as (_ & _ & G2).
    destruct rb as [fh|]; [|discriminate].
    destruct (G2 fh eq_refl) as (-> & Hlast & Hh1 & _ & Hkind & _).
    rewrite (target_parts dh parts Hparts) in Hkind.
    intros _.
    assert (forall pre, pre `prefix_of` removelast parts ->
              stat (dh ++ pre) sa = Some IsDir) as Hway.
    { intros pre Hpre. apply (stat_prefix_of_dir _ _ _ Hh1).
      now apply prefix_app. }
    split; [|split; [|split]].
    + destruct (removelast parts) as [|x ps] eqn:Er.
      * injection Htr as <-. now rewrite app_nil_r in Hh1.
      * rewrite traverse_cons in Htr.
        destruct (getDirectoryHandle dh x s) as [s1 [h1|]] eqn:Hd.
        -- apply getDirectoryHandle_spec in Hd. destruct Hd as (_ & _ & _ & D).
           now destruct (D h1 eq_refl) as (_ & _ & H & _).
        -- discriminate.
    + rewrite (forallb_removelast_last _ parts Hparts), Hvs, Hlast. reflexivity.
    + intros pre c Hpre Hc.
      apply T1 in Hc. rewrite (Hway pre Hpre) in Hc. discriminate.
    + intros Hd. apply T1 in Hd. destruct (Hkind _ Hd) as [c Hc]. discriminate.
  - destruct (writeFileToDirectoryHandle dh path content s) as [s' r] eqn:Hw.
    simpl. intros ->. apply file_at_Some.
    now destruct (proj2 (write_spec _ _ _ _ _ _ Hw) eq_refl).
Qed.

End WriteCriterion.

(** ** Which files are read from the selected folder *)

Section ReadFolder.

Import Fs Server Client.

Variable isNovo : bool.

Local Abbreviation IGNORE_DIRS :=
  (if isNovo then IGNORE_DIRS_NOVO else IGNORE_DIRS_COMMON).

(** The names lead to a file that is read: no directory on the way is
    ignored, and the file's name has no ignored extension. *)
Local Abbreviation read_through names :=
  (Forall (fun name => includes IGNORE_DIRS name = false) (removelast names)
   /\ existsb (JsString.endsWith (List.last names "")) IGNORE_EXTENSIONS = false).

Lemma readAll_exactly_from (n : node) :
  wf n = true ->
  forall rel f,
    In f (readAllFilesFromDirectoryHandle isNovo n rel)
    <-> exists names,
          names <> []
          /\ filePath f = substring1 (rel +:+ "/" +:+ JsString.join "/" names)
          /\ lookup names n = Some (File (content f))
          /\ read_through names.
Proof.
  induction n as [c|es IH] using node_induction; intros Hwf rel f.
  - split; [intros [] | intros (names & Hne & _ & Hl & _)].
    destruct names; [congruence | discriminate].
  - apply wf_Dir in Hwf. destruct Hwf as [Hall Hnd].
    induction es as [|[k v] es IHes].
    + split; [intros [] | intros (names & Hne & _ & Hl & _)].
      destruct names; [congruence | discriminate].
    + inversion IH as [|? ? IHv IHrest]; subst.
      inversion Hall as [|? ? [Hk Hv] Hall']; subst. simpl in Hk, Hv, IHv.
      inversion Hnd as [|? ? Hnotin Hnd']; subst.
      specialize (IHes IHrest Hall' Hnd').
      rewrite readAll_cons, in_app_iff, IHes. clear IHes.
      split.
      * intros [Hin | (names & Hne & Hpath & Hl & Hthrough)].
        -- destruct v as [text|sub].
           ++ destruct (existsb (JsString.endsWith k) IGNORE_EXTENSIONS) eqn:Eext;
                [destruct Hin|].
              destruct Hin as [<- | []].
              exists [k]. split; [discriminate|]. split; [reflexivity|].
              split; [rewrite lookup_cons_dir; simpl; now rewrite String.eqb_refl|].
              split; [constructor | exact Eext].
           ++ destruct (includes IGNORE_DIRS k) eqn:Edir; [destruct Hin|].
              simpl negb in Hin. cbv iota in Hin.
              apply (IHv Hv) in Hin.
              destruct Hin as (names & Hne & Hpath & Hl & Hthrough & Hext).
              destruct names as [|n' ns]; [congruence|].
              exists (k :: n' :: ns). split; [discriminate|].
              split.
              { rewrite Hpath.
                change (JsString.join "/" (k :: n' :: ns))
                  with (k +:+ "/" +:+ JsString.join "/" (n' :: ns)).
                now rewrite !append_assoc_str. }
              split; [rewrite lookup_cons_dir; simpl; now rewrite String.eqb_refl|].
              split; [|exact Hext].
              change (removelast (k :: n' :: ns)) with (k :: removelast (n' :: ns)).
              now constructor.
        -- exists names. split; [exact Hne|]. split; [exact Hpath|].
           split; [|exact Hthrough].
           destruct names as [|k' names']; [congruence|].
           rewrite lookup_cons_dir in Hl |- *. simpl.
           destruct (String.eqb k k') eqn:E; [|exact Hl].
           apply String.eqb_eq in E. subst k'. exfalso. apply Hnotin.
           destruct (alookup k es) as [v'|] eqn:Hk'; [|discriminate].
           now apply (alookup_Some_in k v').
      * intros (names & Hne & Hpath & Hl & Hthrough & Hext).
        destruct names as [|k' names']; [congruence|].
        rewrite lookup_cons_dir in Hl. simpl in Hl.
        destruct (String.eqb k k') eqn:E.
        -- apply String.eqb_eq in E. subst k'. left.
           destruct names' as [|n' ns].
           ++ simpl in Hl. injection Hl as ->.
              change (List.last [k] "") with k in Hext.
              cbv iota beta. rewrite Hext.
              left. destruct f as [p c]. simpl in Hpath |- *. now rewrite Hpath.
           ++ destruct v as [text|sub]; [discriminate|].
              change (removelast (k :: n' :: ns)) with (k :: removelast (n' :: ns))
                in Hthrough.
              inversion Hthrough as [|? ? Hdir Hrest]; subst.
              rewrite Hdir. simpl negb. cbv iota.
              apply (IHv Hv). exists (n' :: ns).
              split; [discriminate|]. split; [|split; [exact Hl | split; assumption]].
              rewrite Hpath.
              change (JsString.join "/" (k :: n' :: ns))
                with (k +:+ "/" +:+ JsString.join "/" (n' :: ns)).
              now rewrite !append_assoc_str.
        -- right. exists (k' :: names'). split; [discriminate|].
           split; [exact Hpath|]. split; [|split; assumption].
           now rewrite lookup_cons_dir.
Qed.

(** X14: The files read from the selected folder are exactly the files of the
    folder that are under no ignored directory and have no ignored
    extension.  Each is read with its path relative to the folder, the
    names joined by slashes, and with its content. *)
Theorem readAllFilesFromDirectoryHandle_reads_exactly (directory : node)
    (f : FileRecord) :
  wf directory = true ->
  (In f (readAllFilesFromDirectoryHandle isNovo directory "")
   <-> exists names,
         names <> []
         /\ filePath f = JsString.join "/" names
         /\ lookup names directory = Some (File (content f))
         /\ Forall (fun name => includes IGNORE_DIRS name = false) (removelast names)
         /\ existsb (JsString.endsWith (List.last names "")) IGNORE_EXTENSIONS = false).
Proof.
  intros Hwf. rewrite (readAll_exactly_from directory Hwf "" f).
  split; intros (names & Hne & Hpath & Hrest); exists names;
    (split; [exact Hne|]); (split; [|exact Hrest]);
    rewrite append_empty_l, slash_append in *; exact Hpath.
Qed.

End ReadFolder.

(** ** The schema store *)

Section SchemaStore.

Import Schemas.

Variable loose_equal : JsValue.t -> string -> bool.

Lemma strict_equal_eq (a b : JsValue.t) :
  JsValue.strict_equal a b = true -> a = b.
Proof.
  destruct a, b; simpl; try discriminate; try reflexivity.
  - intros H. apply Bool.eqb_prop in H. now subst.
  - intros H. apply Z.eqb_eq in H. now subst.
  - intros H. apply String.eqb_eq in H. now subst.
Qed.

Lemma findIndex_Some (p : schema -> bool) (l : list schema) :
  forall i, findIndex p l = Some i ->
    exists before s after,
      l = before ++ s :: after /\ length before = i /\ p s = true
      /\ Forall (fun x => p x = false) before.
Proof.
  induction l as [|x l IH]; intros i H; [discriminate|].
  simpl in H. destruct (p x) eqn:E.
  - injection H as <-. exists [], x, l. repeat split; [exact E | constructor].
  - destruct (findIndex p l) as [j|]; [|discriminate].
    injection H as <-.
    destruct (IH j eq_refl) as (before & s & after & -> & <- & Hs & Hb).
    exists (x :: before), s, after. repeat split; [exact Hs | now constructor].
Qed.

Lemma findIndex_None (p : schema -> bool) (l : list schema) :
  findIndex p l = None -> Forall (fun x => p x = false) l.
Proof.
  induction l as [|x l IH]; intros H; [constructor|].
  simpl in H. destruct (p x) eqn:E; [discriminate|].
  destruct (findIndex p l); [discriminate|]. constructor; [exact E | now apply IH].
Qed.

Lemma findIndex_first (p : schema -> bool) (before after : list schema) (s : schema) :
  Forall (fun x => p x = false) before -> p s = true ->
  findIndex p (before ++ s :: after) = Some (length before).
Proof.
  intros Hb Hs. induction Hb as [|x before Hx Hb IH]; simpl.
  - now rewrite Hs.
  - now rewrite Hx, IH.
Qed.

Lemma insert_middle (before after : list schema) (s x : schema) :
  <[length before := x]> (before ++ s :: after) = before ++ x :: after.
Proof. induction before as [|y before IH]; [reflexivity|]. simpl. now rewrite IH. Qed.

Lemma delete_middle (before after : list schema) (s : schema) :
  delete (length before) (before ++ s :: after) = before ++ after.
Proof. induction before as [|y before IH]; [reflexivity|]. simpl. now rewrite IH. Qed.

Lemma distinct_ids_by_id (l : list schema) :
  forall l', map id l = map id l' -> distinct_ids l = distinct_ids l'.
Proof.
  induction l as [|s l IH]; intros [|s' l'] H; try discriminate; [reflexivity|].
  simpl in H. injection H as Hs Hl. simpl. rewrite (IH l' Hl), Hs. f_equal. f_equal.
  clear IH. revert l' Hl. induction l as [|x l IHl]; intros [|x' l'] Hl;
    try discriminate; [reflexivity|].
  simpl in Hl. injection Hl as Hx Hl. simpl. now rewrite Hx, (IHl l' Hl).
Qed.

Lemma distinct_ids_snoc (l : list schema) (x : schema) :
  distinct_ids l = true ->
  Forall (fun s => JsValue.strict_equal (id s) (id x) = false) l ->
  distinct_ids (l ++ [x]) = true.
Proof.
  intros Hd Hx. induction Hx as [|s l Hs Hx IH]; [reflexivity|].
  simpl in Hd |- *. apply andb_true_iff in Hd. destruct Hd as [Hn Hd].
  rewrite (IH Hd), existsb_app. simpl. rewrite Hs.
  apply negb_true_iff in Hn. now rewrite Hn.
Qed.

Lemma distinct_ids_remove (before after : list schema) (s : schema) :
  distinct_ids (before ++ s :: after) = true -> distinct_ids (before ++ after) = true.
Proof.
  induction before as [|x before IH]; simpl; intros H.
  - apply andb_true_iff in H. tauto.
  - apply andb_true_iff in H. destruct H as [Hn Hd].
    rewrite (IH Hd), andb_true_r. apply negb_true_iff in Hn. apply negb_true_iff.
    rewrite existsb_app in Hn |- *. simpl in Hn.
    apply orb_false_iff in Hn. destruct Hn as [H1 H2].
    apply orb_false_iff in H2. destruct H2 as [_ H2]. now rewrite H1, H2.
Qed.

Lemma post_schema_saved (body : schema) (store : list schema) :
  (post_schema body store).2 = Saved ->
  post_schema body store
  = match findIndex (fun s => JsValue.strict_equal (id s) (id body)) store with
    | Some existingIndex => (<[existingIndex := body]> store, Saved)
    | None => (store ++ [body], Saved)
    end.
Proof.
  unfold post_schema.
  destruct (negb (JsValue.truthy (id body)) || negb (JsValue.truthy (name body))
            || negb (JsValue.truthy (filledSchema body))); [discriminate | reflexivity].
Qed.

Lemma handle_keeps_distinct (r : request) (store : list schema) :
  distinct_ids store = true -> distinct_ids (handle loose_equal r store).1 = true.
Proof.
  intros Hd. destruct r as [body| | |param]; simpl; [| exact Hd | reflexivity |].
  - unfold post_schema. destruct (_ || _); [exact Hd|].
    destruct (findIndex _ store) as [i|] eqn:E.
    + destruct (findIndex_Some _ _ _ E) as (before & s & after & -> & <- & Hs & _).
      simpl. rewrite insert_middle. rewrite <- Hd. apply distinct_ids_by_id.
      rewrite !map_app. simpl. now rewrite (strict_equal_eq _ _ Hs).
    + simpl. apply distinct_ids_snoc; [exact Hd | now apply findIndex_None].
  - unfold delete_schema. destruct (findIndex _ store) as [i|] eqn:E; [|exact Hd].
    destruct (findIndex_Some _ _ _ E) as (before & s & after & -> & <- & _).
    simpl. rewrite delete_middle. now apply (distinct_ids_remove before after s).
Qed.

(** X15: The store never holds two schemas with identical ids: whatever
    requests the server has handled since it started with an empty store,
    the ids of the stored schemas are pairwise different. *)
Theorem stored_ids_stay_distinct (requests : list request) :
  distinct_ids (after_requests loose_equal requests []) = true.
Proof.
  unfold after_requests.
  assert (forall store, distinct_ids store = true ->
            distinct_ids (fold_left (fun store r => (handle loose_equal r store).1)
                            requests store) = true) as H.
  { induction requests as [|r requests IH]; intros store Hd; [exact Hd|].
    simpl. apply IH. now apply handle_keeps_distinct. }
  now apply H.
Qed.

Lemma find_first (p : schema -> bool) (before after : list schema) (s : schema) :
  Forall (fun x => p x = false) before -> p s = true ->
  find p (before ++ s :: after) = Some s.
Proof.
  intros Hb Hs. induction Hb as [|x before Hx Hb IH]; simpl.
  - now rewrite Hs.
  - now rewrite Hx.
Qed.

Lemma find_none_all (p : schema -> bool) (l : list schema) :
  Forall (fun x => p x = false) l -> find p l = None.
Proof. induction 1 as [|x l Hx _ IH]; simpl; [reflexivity | now rewrite Hx]. Qed.

Lemma filter_middle_out (p : schema -> bool) (before after : list schema) (s : schema) :
  p s = false ->
  List.filter p (before ++ s :: after) = List.filter p (before ++ after).
Proof. intros Hs. rewrite !List.filter_app. simpl. now rewrite Hs. Qed.

(** X16: Saving a schema whose id is a number, a string or a boolean: the
    schema is then the one found under its id, the schemas stored under
    other ids are the same as before, in the same order, and saving it
    once more changes nothing. *)
Theorem post_schema_then_find (body : schema) (store : list schema) :
  (post_schema body store).2 = Saved ->
  JsValue.strict_equal (id body) (id body) = true ->
  let matches := fun s => JsValue.strict_equal (id s) (id body) in
  let store' := (post_schema body store).1 in
  find matches store' = Some body
  /\ List.filter (fun s => negb (matches s)) store'
     = List.filter (fun s => negb (matches s)) store
  /\ post_schema body store' = (store', Saved).
Proof.
  intros Hsaved Hid matches store'.
  pose proof (post_schema_saved body store Hsaved) as Hpost.
  assert (forall l, (post_schema body l).2 = Saved) as Hvalid.
  { intros l. unfold post_schema in Hsaved |- *.
    destruct (_ || _); [discriminate|]. now destruct (findIndex _ l). }
  subst store'. fold matches in Hpost.
  destruct (findIndex matches store) as [i|] eqn:E.
  - destruct (findIndex_Some _ _ _ E) as (before & s & after & -> & <- & Hs & Hb).
    rewrite Hpost, insert_middle. simpl.
    split; [now apply find_first|].
    split.
    + rewrite !filter_middle_out; [reflexivity | |]; apply negb_false_iff; assumption.
    + rewrite (post_schema_saved body _ (Hvalid _)). fold matches.
      rewrite (findIndex_first matches before after body Hb Hid).
      now rewrite insert_middle.
  - pose proof (findIndex_None _ _ E) as Hnone.
    rewrite Hpost. simpl.
    split; [now apply find_first|].
    split.
    + rewrite List.filter_app. simpl. unfold matches at 2. rewrite Hid. simpl.
      now rewrite app_nil_r.
    + rewrite (post_schema_saved body _ (Hvalid _)). fold matches.
      rewrite (findIndex_first matches store [] body Hnone Hid).
      now rewrite insert_middle.
Qed.

(** X17: Saving a schema whose id is an array or an object never replaces a
    stored schema: it is added at the end, each time it is saved. *)
Theorem post_schema_compound_id_appends (body : schema) (store : list schema) :
  (post_schema body store).2 = Saved ->
  JsValue.strict_equal (id body) (id body) = false ->
  post_schema body store = (store ++ [body], Saved).
Proof.
  intros Hsaved Hid. rewrite (post_schema_saved body store Hsaved).
  destruct (findIndex _ store) as [i|] eqn:E; [|reflexivity].
  destruct (findIndex_Some _ _ _ E) as (before & s & after & _ & _ & Hs & _).
  pose proof (strict_equal_eq _ _ Hs) as He. rewrite He in Hs. congruence.
Qed.

(** X18: Deleting by id removes one schema at most: the first whose id equals
    the parameter, the others keeping their order.  When no id equals the
    parameter the reply is [NotFound] and the store is unchanged. *)
Theorem delete_schema_removes_first_match (param : string) (store : list schema) :
  let matches := fun s => loose_equal (id s) param in
  match delete_schema loose_equal param store with
  | (store', Deleted) =>
      exists before s after,
        store = before ++ s :: after /\ store' = before ++ after
        /\ matches s = true /\ Forall (fun x => matches x = false) before
  | (store', NotFound) =>
      store' = store /\ Forall (fun x => matches x = false) store
  | _ => False
  end.
Proof.
  intros matches. unfold delete_schema. fold matches.
  destruct (findIndex matches store) as [i|] eqn:E.
  - destruct (findIndex_Some _ _ _ E) as (before & s & after & -> & <- & Hs & Hb).
    exists before, s, after. rewrite delete_middle. auto.
  - split; [reflexivity | now apply findIndex_None].
Qed.

End SchemaStore.

(** ** Backups *)

Section BackupFacts.

Import Backups.

Lemma insert_by_time_perm (x : backupFile) (l : list backupFile) :
  Permutation (insert_by_time x l) (x :: l).
Proof.
  induction l as [|y l IH]; [reflexivity|].
  simpl. destruct (time x <? time y)%Z; [|reflexivity].
  rewrite IH. apply perm_swap.
Qed.

Lemma sort_newest_first_perm (l : list backupFile) :
  Permutation (sort_newest_first l) l.
Proof.
  induction l as [|x l IH]; [reflexivity|].
  simpl. rewrite insert_by_time_perm. now constructor.
Qed.

Lemma insert_by_time_sorted (x : backupFile) (l : list backupFile) :
  newest_first l -> newest_first (insert_by_time x l).
Proof.
  induction l as [|y l IH]; intros Hl; [simpl; auto|].
  destruct Hl as [Hy Hl]. simpl.
  destruct (time x <? time y)%Z eqn:E.
  - split; [|now apply IH].
    apply List.Forall_forall. intros z Hz.
    apply (Permutation_in _ (insert_by_time_perm x l)) in Hz.
    destruct Hz as [<- | Hz]; [apply Z.ltb_lt in E; lia|].
    rewrite List.Forall_forall in Hy. now apply Hy.
  - apply Z.ltb_ge in E. split; [|split; assumption].
    constructor; [exact E|].
    apply List.Forall_forall. intros z Hz.
    rewrite List.Forall_forall in Hy. specialize (Hy z Hz). lia.
Qed.

Lemma sort_newest_first_sorted (l : list backupFile) :
  newest_first (sort_newest_first l).
Proof.
  induction l as [|x l IH]; [exact I|]. simpl. now apply insert_by_time_sorted.
Qed.

Lemma newest_first_split (a b : list backupFile) :
  newest_first (a ++ b) ->
  forall x y, In x a -> In y b -> (time y <= time x)%Z.
Proof.
  induction a as [|z a IH]; intros H x y Hx Hy; [destruct Hx|].
  destruct H as [Hz H]. destruct Hx as [<- | Hx].
  - rewrite List.Forall_forall in Hz. apply Hz. apply in_or_app. now right.
  - now apply (IH H).
Qed.

Lemma filter_filter {A} (p q : A -> bool) (l : list A) :
  List.filter p (List.filter q l) = List.filter (fun x => q x && p x) l.
Proof.
  induction l as [|x l IH]; [reflexivity|].
  simpl. destruct (q x); simpl; [|exact IH]. destruct (p x); now rewrite IH.
Qed.

Lemma unlink_all (l : list backupFile) :
  forall dir,
    fold_left (fun dir b => unlink (bf_name b) dir) l dir
    = List.filter
        (fun e => negb (isFile e && existsb (String.eqb (name e)) (map bf_name l))) dir.
Proof.
  induction l as [|b l IH]; intros dir.
  - simpl. induction dir as [|e dir IHd]; [reflexivity|].
    simpl. rewrite andb_false_r. simpl. now rewrite <- IHd.
  - simpl. rewrite IH. unfold unlink. rewrite filter_filter.
    apply List.filter_ext. intros e.
    destruct (isFile e), (String.eqb (name e) (bf_name b)); simpl; reflexivity.
Qed.

Lemma cleanOldBackups_filter (dir : list entry) :
  cleanOldBackups dir
  = List.filter
      (fun e => negb (isFile e
                      && existsb (String.eqb (name e))
                           (map bf_name (drop 24 (sort_newest_first (backupFiles dir))))))
      dir.
Proof.
  unfold cleanOldBackups.
  destruct (24 <? length (sort_newest_first (backupFiles dir)))%nat eqn:E.
  - apply unlink_all.
  - apply Nat.ltb_ge in E. rewrite (drop_ge _ _ E). apply (unlink_all [] dir).
Qed.

Lemma in_sorted_backupFiles (dir : list entry) (b : backupFile) :
  In b (sort_newest_first (backupFiles dir))
  <-> exists e, In e dir /\ is_backup_name (name e) = true
                /\ b = {| bf_name := name e; time := mtime e |}.
Proof.
  split.
  - intros H. apply (Permutation_in _ (sort_newest_first_perm _)) in H.
    unfold backupFiles in H. apply in_map_iff in H. destruct H as (e & <- & He).
    apply filter_In in He. destruct He as [He Hb]. now exists e.
  - intros (e & He & Hb & ->).
    apply (Permutation_in _ (Permutation_sym (sort_newest_first_perm _))).
    unfold backupFiles. apply in_map_iff. exists e. split; [reflexivity|].
    apply filter_In. now split.
Qed.

Lemma NoDup_map_filter {A B} (f : A -> B) (p : A -> bool) (l : list A) :
  List.NoDup (map f l) -> List.NoDup (map f (List.filter p l)).
Proof.
  induction l as [|x l IH]; intros H; [constructor|].
  simpl in H. inversion H as [|? ? Hx Hl]; subst. simpl.
  destruct (p x); [|now apply IH].
  simpl. constructor; [|now apply IH].
  intros Hin. apply Hx. apply in_map_iff in Hin. destruct Hin as (y & Hy & Hin).
  apply filter_In in Hin. apply in_map_iff. exists y. tauto.
Qed.

Lemma in_cleanOldBackups (dir : list entry) (e : entry) :
  In e (cleanOldBackups dir)
  <-> In e dir
      /\ (isFile e = false
          \/ ~ In (name e)
                 (map bf_name (drop 24 (sort_newest_first (backupFiles dir))))).
Proof.
  rewrite cleanOldBackups_filter, filter_In.
  set (names := map bf_name (drop 24 (sort_newest_first (backupFiles dir)))).
  assert (existsb (String.eqb (name e)) names = true <-> In (name e) names) as Hex.
  { rewrite existsb_exists. split.
    - intros (x & Hx & Heq). apply String.eqb_eq in Heq. now subst.
    - intros H. exists (name e). split; [exact H | apply String.eqb_refl]. }
  split; intros [He H]; (split; [exact He|]).
  - destruct (isFile e); [|now left]. right. intros Hin.
    apply Hex in Hin. rewrite Hin in H. discriminate.
  - destruct H as [-> | H]; [reflexivity|].
    destruct (existsb (String.eqb (name e)) names) eqn:E.
    + exfalso. apply H. now apply Hex.
    + now rewrite andb_false_r.
Qed.

(** X19: What cleaning keeps and removes.  In a directory whose entries
    have distinct names, cleaning adds nothing and removes nothing but
    regular files with a backup name; at most 24 of these are left; and
    each one removed is no newer than each one left. *)
Theorem cleanOldBackups_keeps_the_newest (dir : list entry) :
  NoDup (map name dir) ->
  let is_backup := fun e => is_backup_name (name e) && isFile e in
  (forall e, In e (cleanOldBackups dir) -> In e dir)
  /\ (forall e, In e dir -> is_backup e = false -> In e (cleanOldBackups dir))
  /\ length (List.filter is_backup (cleanOldBackups dir)) <= 24
  /\ (forall e k,
        In e dir -> ~ In e (cleanOldBackups dir) ->
        In k (cleanOldBackups dir) -> is_backup k = true ->
        (mtime e <= mtime k)%Z).
Proof.
  intros Hnd is_backup.
  set (sorted := sort_newest_first (backupFiles dir)).
  assert (forall b, In b (drop 24 sorted) -> In b sorted) as Hdrop.
  { intros b Hb. rewrite <- (take_drop 24 sorted). apply in_or_app. now right. }
  assert (forall k, In k (cleanOldBackups dir) -> is_backup k = true ->
            In {| bf_name := name k; time := mtime k |} (take 24 sorted)) as Hkept.
  { intros k Hk Hb. apply andb_true_iff in Hb. destruct Hb as [Hname Hfile].
    apply in_cleanOldBackups in Hk. destruct Hk as [Hk Hnot].
    assert (In {| bf_name := name k; time := mtime k |} sorted) as Hin.
    { apply in_sorted_backupFiles. now exists k. }
    rewrite <- (take_drop 24 sorted) in Hin. apply in_app_or in Hin.
    destruct Hin as [Hin | Hin]; [exact Hin|]. exfalso.
    destruct Hnot as [Hnot | Hnot]; [congruence|].
    apply Hnot. fold sorted. apply in_map_iff.
    now exists {| bf_name := name k; time := mtime k |}. }
  split; [|split; [|split]].
  - intros e He. now apply in_cleanOldBackups in He.
  - intros e He Hb. apply in_cleanOldBackups. split; [exact He|].
    destruct (isFile e) eqn:Ef; [|now left]. right. intros Hin.
    apply in_map_iff in Hin. destruct Hin as (b & Hname & Hin).
    apply Hdrop, in_sorted_backupFiles in Hin.
    destruct Hin as (e0 & _ & Hb0 & ->). simpl in Hname.
    unfold is_backup in Hb. rewrite Ef, <- Hname, Hb0 in Hb. discriminate.
  - assert (length (map name (List.filter is_backup (cleanOldBackups dir)))
            <= length (map bf_name (take 24 sorted))) as Hlen.
    { apply List.NoDup_incl_length.
      - apply NoDup_map_filter. rewrite cleanOldBackups_filter.
        apply NoDup_map_filter. now apply NoDup_ListNoDup.
      - intros n Hn. apply in_map_iff in Hn. destruct Hn as (k & <- & Hk).
        apply filter_In in Hk. destruct Hk as [Hk Hb].
        apply in_map_iff. exists {| bf_name := name k; time := mtime k |}.
        split; [reflexivity | now apply Hkept]. }
    rewrite !length_map, length_take in Hlen. lia.
  - intros e k He Hgone Hk Hb.
    assert (isFile e = true
            /\ In (name e) (map bf_name (drop 24 sorted))) as [Hfile Hname].
    { destruct (isFile e) eqn:Ef.
      - split; [reflexivity|].
        destruct (in_dec string_dec (name e) (map bf_name (drop 24 sorted)))
          as [Hin | Hout]; [exact Hin|].
        exfalso. apply Hgone. apply in_cleanOldBackups. split; [exact He | now right].
      - exfalso. apply Hgone. apply in_cleanOldBackups. split; [exact He | now left]. }
    apply in_map_iff in Hname. destruct Hname as (b & Hname & Hin).
    pose proof (Hdrop b Hin) as Hin'. apply in_sorted_backupFiles in Hin'.
    destruct Hin' as (e0 & He0 & _ & ->). simpl in Hname.
    assert (e0 = e) as -> by now apply (NoDup_map_inj_in name dir e0 e Hnd).
    pose proof (sort_newest_first_sorted (backupFiles dir)) as Hsorted.
    fold sorted in Hsorted. rewrite <- (take_drop 24 sorted) in Hsorted.
    apply (newest_first_split _ _ Hsorted _ _ (Hkept k Hk Hb) Hin).
Qed.

Section Loading.

Variable read_backup : string -> option (list Schemas.schema).

Variable now : string.

(** X20: The server restores from the newest backup.  When loading sets the
    restore timestamp, the store is the data of an entry with a backup
    name that no entry with a backup name is newer than.  When it does
    not, the store is left as it was; this is so in particular when the
    directory has no entry with a backup name. *)
Theorem loadLatestBackup_restores_the_newest (dir : list entry)
    (storedSchemas : list Schemas.schema) :
  match loadLatestBackup read_backup now dir storedSchemas with
  | (restored, Some timestamp) =>
      timestamp = now
      /\ exists latest,
           In latest dir /\ is_backup_name (name latest) = true
           /\ read_backup (name latest) = Some restored
           /\ forall e, In e dir -> is_backup_name (name e) = true ->
                        (mtime e <= mtime latest)%Z
  | (restored, None) =>
      restored = storedSchemas
      /\ ((forall e, In e dir -> is_backup_name (name e) = false)
          \/ exists latest,
               In latest dir /\ is_backup_name (name latest) = true
               /\ read_backup (name latest) = None)
  end.
Proof.
  unfold loadLatestBackup.
  pose proof (in_sorted_backupFiles dir) as Hin.
  pose proof (sort_newest_first_sorted (backupFiles dir)) as Hsorted.
  destruct (sort_newest_first (backupFiles dir)) as [|b rest].
  - split; [reflexivity|]. left. intros e He.
    destruct (is_backup_name (name e)) eqn:E; [|reflexivity].
    exfalso. apply (proj2 (Hin {| bf_name := name e; time := mtime e |})). now exists e.
  - destruct (proj1 (Hin b) (or_introl eq_refl)) as (latest & Hl & Hb & ->).
    simpl. destruct Hsorted as [Hfirst _].
    destruct (read_backup (name latest)) as [data|] eqn:Er.
    + split; [reflexivity|]. exists latest.
      split; [exact Hl|]. split; [exact Hb|]. split; [exact Er|].
      intros e He Hbe.
      assert (In {| bf_name := name e; time := mtime e |}
                ({| bf_name := name latest; time := mtime latest |} :: rest)) as H
        by (apply Hin; now exists e).
      destruct H as [H | H]; [injection H as _ ->; lia|].
      rewrite List.Forall_forall in Hfirst. apply (Hfirst _ H).
    + split; [reflexivity|]. right. now exists latest.
Qed.

End Loading.

End BackupFacts.

(** ** A run in which the agent changes nothing *)

Section UnchangedRun.

Import Fs Server Client.

Variable isNovo : bool.

Local Abbreviation IGNORE_DIRS :=
  (if isNovo then IGNORE_DIRS_NOVO else IGNORE_DIRS_COMMON).

(** The names lead to a file that is read. *)
Local Abbreviation through names :=
  (forallb (fun name => negb (includes IGNORE_DIRS name)) (removelast names)
   && negb (existsb (JsString.endsWith (List.last names "")) IGNORE_EXTENSIONS)).

Lemma files_under_nonempty (n : node) (r : list string) (c : string) :
  In (r, c) (files_under n) -> r <> [].
Proof.
  destruct n as [c0|es]; [intros []|]. intros H.
  destruct (files_under_head es r c H) as (k & r' & -> & _). discriminate.
Qed.

Lemma filter_map_swap {A B} (p : B -> bool) (g : A -> B) (l : list A) :
  List.filter p (map g l) = map g (List.filter (fun x => p (g x)) l).
Proof.
  induction l as [|x l IH]; [reflexivity|].
  simpl. destruct (p (g x)); simpl; now rewrite IH.
Qed.

Lemma filter_ext_in_list {A} (p q : A -> bool) (l : list A) :
  (forall x, In x l -> p x = q x) -> List.filter p l = List.filter q l.
Proof.
  induction l as [|x l IH]; intros H; [reflexivity|].
  simpl. rewrite (H x (or_introl eq_refl)), IH; [reflexivity|].
  intros y Hy. apply H. now right.
Qed.

Lemma filter_none {A} (l : list A) : List.filter (fun _ => false) l = [].
Proof. induction l as [|x l IH]; [reflexivity | exact IH]. Qed.

Lemma through_cons (k : string) (r : list string) :
  r <> [] ->
  through (k :: r) = negb (includes IGNORE_DIRS k) && through r.
Proof.
  intros Hr. destruct r as [|x r]; [congruence|].
  change (removelast (k :: x :: r)) with (k :: removelast (x :: r)).
  change (List.last (k :: x :: r) "") with (List.last (x :: r) "").
  cbn [forallb]. now rewrite andb_assoc.
Qed.

Lemma join_cons_nonempty (k : string) (r : list string) :
  r <> [] -> JsString.join "/" (k :: r) = k +:+ "/" +:+ JsString.join "/" r.
Proof. intros Hr. destruct r as [|x r]; [congruence | reflexivity]. Qed.

(** The files read are the files of a recursive listing that are read
    through, in the order of the listing. *)
Lemma readAll_as_files_under (n : node) :
  forall rel,
    readAllFilesFromDirectoryHandle isNovo n rel
    = map (fun rc => {| filePath := substring1 (rel +:+ "/" +:+ JsString.join "/" rc.1);
                        content := rc.2 |})
        (List.filter (fun rc => through rc.1) (files_under n)).
Proof.
  induction n as [c|es IH] using node_induction; intros rel; [reflexivity|].
  induction es as [|[k v] es IHes]; [reflexivity|].
  inversion IH as [|? ? IHv IHrest]; subst. simpl in IHv.
  rewrite readAll_cons, files_under_cons, List.filter_app, map_app, (IHes IHrest).
  f_equal. destruct v as [text|sub].
  - change (List.filter (fun rc => through rc.1) [([k], text)])
      with (if negb (existsb (JsString.endsWith k) IGNORE_EXTENSIONS)
            then [([k], text)] else []).
    now destruct (existsb (JsString.endsWith k) IGNORE_EXTENSIONS).
  - rewrite filter_map_swap.
    rewrite (filter_ext_in_list _
               (fun rc => negb (includes IGNORE_DIRS k) && through rc.1)).
    2:{ intros [r c] Hin. simpl. apply through_cons.
        now apply (files_under_nonempty (Dir sub) r c). }
    destruct (includes IGNORE_DIRS k).
    + simpl negb. cbv iota. change (fun rc : list string * string => false && through rc.1)
        with (fun _ : list string * string => false).
      now rewrite filter_none.
    + simpl negb. cbv iota.
      change (fun rc : list string * string => true && through rc.1)
        with (fun rc : list string * string => through rc.1).
      rewrite IHv, !map_map. apply map_ext_in. intros [r c] Hin. cbn [fst snd].
      apply filter_In in Hin. destruct Hin as [Hin _].
      rewrite (join_cons_nonempty k r (files_under_nonempty (Dir sub) r c Hin)).
      now rewrite !append_assoc_str.
Qed.

Lemma pairwise_independent_intro (l : list (list string)) :
  NoDup l ->
  (forall p q, In p l -> In q l -> p `prefix_of` q -> p = q) ->
  Path.pairwise_independent l = true.
Proof.
  induction l as [|p l IH]; intros Hnd H; [reflexivity|].
  apply NoDup_cons in Hnd. destruct Hnd as [Hp Hnd]. simpl.
  apply andb_true_iff. split.
  - apply forallb_forall. intros q Hq. apply independent_spec.
    split; intros Hpre; apply Hp.
    + rewrite (H p q (or_introl eq_refl) (or_intror Hq) Hpre).
      now apply list_elem_of_In.
    + rewrite <- (H q p (or_intror Hq) (or_introl eq_refl) Hpre).
      now apply list_elem_of_In.
  - apply IH; [exact Hnd|]. intros p' q' Hp' Hq'. apply H; now right.
Qed.

Lemma files_under_no_way_through (n : node) (p q : list string) (c1 c2 : string) :
  wf n = true ->
  In (p, c1) (files_under n) -> In (q, c2) (files_under n) ->
  p `prefix_of` q -> p = q.
Proof.
  intros Hwf Hp Hq [r ->].
  apply (files_under_lookup n Hwf) in Hp, Hq.
  rewrite lookup_app, Hp in Hq. destruct r; [now rewrite app_nil_r | discriminate].
Qed.

(** The files of a recursive listing that are read. *)
Local Abbreviation read_files n :=
  (List.filter (fun rc : list string * string => through rc.1) (files_under n)).

Lemma read_files_valid (n : node) (r : list string) (c : string) :
  wf n = true -> In (r, c) (read_files n) ->
  r <> [] /\ Forall (fun x => Path.valid_name x = true) r
  /\ lookup r n = Some (File c).
Proof.
  intros Hwf Hin. apply filter_In in Hin. destruct Hin as [Hin _].
  pose proof (files_under_lookup n Hwf r c Hin) as Hl.
  split; [now apply (files_under_nonempty n r c)|].
  split; [now apply (wf_lookup_valid r n (File c)) | exact Hl].
Qed.

Lemma submitted_paths (n : node) :
  wf n = true ->
  map (fun f => JsString.split SLASH (filePath f)) (submitted isNovo n)
  = map fst (read_files n).
Proof.
  intros Hwf. unfold submitted, trimFiles.
  rewrite readAll_as_files_under, !map_map. apply map_ext_in. intros [r c] Hin.
  destruct (read_files_valid n r c Hwf Hin) as (Hne & Hvalid & _).
  cbn [fst snd].
  assert (forall b (f g : FileRecord), filePath f = filePath g ->
            filePath (if b : bool then f else g) = filePath g) as Hif
    by (intros [] f g H; [exact H | reflexivity]).
  rewrite Hif by reflexivity. cbn [filePath].
  rewrite append_empty_l, slash_append. cbn [substring1].
  now apply split_join_valid.
Qed.

Lemma submitted_keys (n : node) :
  wf n = true ->
  names_without "\"%char n = true ->
  map (fun f => JsString.replace_backslashes (filePath f)) (submitted isNovo n)
  = map (fun rc => JsString.join "/" rc.1) (read_files n).
Proof.
  intros Hwf Hplain. unfold submitted, trimFiles.
  rewrite readAll_as_files_under, !map_map. apply map_ext_in. intros [r c] Hin.
  destruct (read_files_valid n r c Hwf Hin) as (Hne & Hvalid & Hl).
  cbn [fst snd].
  assert (forall b (f g : FileRecord), filePath f = filePath g ->
            filePath (if b : bool then f else g) = filePath g) as Hif
    by (intros [] f g H; [exact H | reflexivity]).
  rewrite Hif by reflexivity. cbn [filePath].
  rewrite append_empty_l, slash_append. cbn [substring1].
  apply replace_backslashes_id, contains_join; [reflexivity|].
  now apply (names_without_lookup _ r n (File c)).
Qed.

Lemma read_files_nodup (n : node) :
  wf n = true -> NoDup (map fst (read_files n)).
Proof.
  intros Hwf. apply NoDup_ListNoDup, NoDup_map_filter, NoDup_ListNoDup.
  now apply files_under_nodup.
Qed.

(** What is read from a well-formed folder whose names have no backslash
    can be prepared and compared without loss. *)
Lemma submitted_ready (n : node) :
  wf n = true ->
  names_without "\"%char n = true ->
  Forall (fun f => Path.normalized (filePath f) = true) (submitted isNovo n)
  /\ Path.pairwise_independent
       (map (fun f => JsString.split SLASH (filePath f)) (submitted isNovo n)) = true
  /\ NoDup (map (fun f => JsString.replace_backslashes (filePath f))
              (submitted isNovo n)).
Proof.
  intros Hwf Hplain. split; [|split].
  - apply List.Forall_forall. intros f Hf. unfold Path.normalized.
    assert (In (JsString.split SLASH (filePath f)) (map fst (read_files n))) as Hin.
    { rewrite <- (submitted_paths n Hwf). apply in_map_iff. now exists f. }
    apply in_map_iff in Hin. destruct Hin as ([r c] & Heq & Hin). simpl in Heq.
    rewrite <- Heq.
    destruct (read_files_valid n r c Hwf Hin) as (_ & Hvalid & _).
    apply forallb_forall. intros x Hx. rewrite List.Forall_forall in Hvalid.
    now destruct (valid_name_split x (Hvalid x Hx)).
  - rewrite (submitted_paths n Hwf). apply pairwise_independent_intro.
    + now apply read_files_nodup.
    + intros p q Hp Hq. apply in_map_iff in Hp, Hq.
      destruct Hp as ([p' c1] & <- & Hp), Hq as ([q' c2] & <- & Hq).
      apply filter_In in Hp, Hq.
      apply (files_under_no_way_through n p' q' c1 c2 Hwf); tauto.
  - rewrite (submitted_keys n Hwf Hplain), <- (map_map fst (JsString.join "/")).
    apply NoDup_map_strong; [|now apply read_files_nodup].
    intros x y Hx Hy Heq. apply in_map_iff in Hx, Hy.
    destruct Hx as ([x' c1] & <- & Hx), Hy as ([y' c2] & <- & Hy).
    destruct (read_files_valid n x' c1 Hwf Hx) as (Hnx & Hvx & _).
    destruct (read_files_valid n y' c2 Hwf Hy) as (Hny & Hvy & _).
    cbn [fst] in *.
    rewrite <- (split_join_valid x' Hnx Hvx), <- (split_join_valid y' Hny Hvy).
    now rewrite Heq.
Qed.

End UnchangedRun.

Section IdleAgent.

Import Fs Server Client.

Variable dirname : list string.

(** X21: A run in which the agent exits with code 0 and changes nothing is
    reported as a failure.  For a well-formed folder without backslash in
    its names from which at least one file is read, and a prompt that is
    not empty: when the preparation of the workspace completes and the
    agent, run on the prepared disk, exits with code 0 and leaves the disk
    as it was, the detector reports no modified file, and the client,
    reading the first element of the empty list, ends in its error path.
    The pending changes are empty, the error notification is
    [Failed to run code agent: ] followed by the message of the exception,
    the disk is the one the preparation left, and, when the folder and
    the workspace root lie apart, the files of the folder are as
    before. *)
Theorem unchanged_run_ends_in_failure (agent : Agent) (prompt : string) (w : World)
    (handle : list string) (entries : list (string * node)) (chunks : list string)
    (d' : node) (snap : gmap string string) :
  directoryHandle (app w) = Some handle ->
  lookup handle (disk w) = Some (Dir entries) ->
  wf (Dir entries) = true ->
  names_without "\"%char (Dir entries) = true ->
  submitted (isNovo (app w)) (Dir entries) <> [] ->
  prompt <> "" ->
  prepare dirname (submitted (isNovo (app w)) (Dir entries)) (disk w) = (d', Some snap) ->
  agent (cliCommand (appUseClaude (app w))) (cliArgs (appUseClaude (app w)) prompt)
        (userFilesDir dirname) d'
  = Exited chunks (Some 0%Z) d' ->
  let after := step dirname (RunCodeAgent agent prompt) w in
  pendingChanges (app after) = []
  /\ notification (app after) = Some (Failed "Failed to run code agent" NoFirstFile)
  /\ disk after = d'
  /\ (Path.independent handle (userFilesDir dirname) = true ->
      forall q, handle `prefix_of` q -> file_at q (disk after) = file_at q (disk w)).
Proof.
  intros Hh Hl Hwf Hplain Hfiles Hprompt Hprep Hagent after.
  destruct (submitted_ready (isNovo (app w)) (Dir entries) Hwf Hplain) as (Hn & Hi & Hk).
  pose proof (prepare_then_detect_nothing dirname _ (disk w) d' snap Hn Hi Hk Hprep)
    as Hdet.
  pose proof (submitted_dotdot_free (isNovo (app w)) (Dir entries) Hwf) as Hfree.
  unfold submitted in Hfiles, Hprep, Hfree.
  set (req := {| prompt := prompt;
                 files := trimFiles
                            (readAllFilesFromDirectoryHandle (isNovo (app w))
                               (Dir entries) "");
                 useClaude := appUseClaude (app w) |}).
  pose proof (code_agent_after_exit dirname agent req (disk w) d' d' snap chunks
                (Some 0%Z) Hprompt Hfiles Hprep Hagent) as Hca.
  assert (on_close dirname (Some 0%Z) snap (fold_left on_stdout_data chunks res_init) d'
          = (d', Some (res_end (res_write (ModifiedFilesRecord [])
                                  (fold_left on_stdout_data chunks res_init))))) as Hclose.
  { unfold on_close, Fs.bind. cbn [exited_ok negb]. now rewrite Hdet. }
  rewrite Hclose in Hca.
  pose proof (handleCodeAgent_after_response (code_agent dirname agent) prompt w handle
                entries (flat_map stdout_lines chunks) [] Hh Hl) as Hres.
  cbv zeta in Hres. fold req in Hres. rewrite Hca in Hres.
  cbn [snd statusCode body res_end res_write] in Hres.
  rewrite statusCode_on_stdout_data, body_on_stdout_data in Hres.
  specialize (Hres eq_refl eq_refl).
  assert (disk after = d') as Hdisk.
  { subst after. change (step dirname (RunCodeAgent agent prompt) w)
      with (handleCodeAgent (code_agent dirname agent) prompt w).
    unfold handleCodeAgent. rewrite Hh, Hl.
    change (code_agent dirname agent
              {| prompt := prompt;
                 files := trimFiles
                            (readAllFilesFromDirectoryHandle (isNovo (app w))
                               (Dir entries) "");
                 useClaude :=
                   appUseClaude
                     (setOriginalFiles
                        (readAllFilesFromDirectoryHandle (isNovo (app w))
                           (Dir entries) "")
                        (app w)) |} (disk w))
      with (code_agent dirname agent req (disk w)).
    now rewrite Hca. }
  subst after. change (step dirname (RunCodeAgent agent prompt) w)
    with (handleCodeAgent (code_agent dirname agent) prompt w) in Hdisk |- *.
  rewrite Hres. split; [reflexivity|]. split; [reflexivity|].
  split; [exact Hdisk|].
  intros Hind q Hq. rewrite Hdisk.
  assert (~ userFilesDir dirname `prefix_of` q) as Hout.
  { intros HW. apply independent_spec in Hind. destruct Hind as [H1 H2].
    destruct (prefix_weak_total _ _ _ Hq HW); contradiction. }
  pose proof (prepare_file_at_outside dirname _ (disk w) q Hfree Hout) as Hframe.
  now rewrite Hprep in Hframe.
Qed.

End IdleAgent.

(** ** Examples of the further properties *)

Section FurtherExamples.

Import Fs Server Client.

Lemma read_body_recovers_written_lines_witness :
  Forall (fun line => JsString.non_blank line = true /\ JsText.contains LF line = false)
    Cases.sent_lines
  /\ JsString.join "" Cases.received_chunks = Reader.written Cases.sent_lines
  /\ Reader.read_body "" Cases.received_chunks = (Cases.sent_lines, "").
Proof.
  assert (Forall (fun line => JsString.non_blank line = true
                              /\ JsText.contains LF line = false) Cases.sent_lines)
    as H1 by (repeat constructor).
  assert (JsString.join "" Cases.received_chunks = Reader.written Cases.sent_lines)
    as H2 by reflexivity.
  split; [exact H1|]. split; [exact H2|].
  exact (read_body_recovers_written_lines Cases.sent_lines Cases.received_chunks H1 H2).
Defined.

Lemma prepare_snapshot_last_submission_wins_witness :
  prepare Examples.dirname Examples.two_files Examples.disk
  = (Examples.prepared_disk, Some Examples.snapshot)
  /\ Examples.snapshot !! "src/b.txt"
     = content <$> find (fun f => String.eqb (JsString.replace_backslashes (filePath f))
                                             "src/b.txt")
                        (rev Examples.two_files).
Proof.
  assert (prepare Examples.dirname Examples.two_files Examples.disk
          = (Examples.prepared_disk, Some Examples.snapshot)) as H
    by (vm_compute; reflexivity).
  split; [exact H|].
  exact (prepare_snapshot_last_submission_wins Examples.dirname Examples.two_files
           Examples.disk Examples.prepared_disk Examples.snapshot "src/b.txt" H).
Defined.

Lemma detect_after_prepare_reports_nothing_witness :
  Forall (fun f => Path.normalized (filePath f) = true) Examples.two_files
  /\ Path.pairwise_independent
       (map (fun f => JsString.split SLASH (filePath f)) Examples.two_files) = true
  /\ NoDup (map (fun f => JsString.replace_backslashes (filePath f)) Examples.two_files)
  /\ prepare Examples.dirname Examples.two_files Examples.disk
     = (Examples.prepared_disk, Some Examples.snapshot)
  /\ detect Examples.dirname Examples.snapshot Examples.prepared_disk
     = (Examples.prepared_disk, Some []).
Proof.
  assert (Forall (fun f => Path.normalized (filePath f) = true) Examples.two_files) as H2
    by (repeat constructor).
  assert (Path.pairwise_independent
            (map (fun f => JsString.split SLASH (filePath f)) Examples.two_files) = true)
    as H3 by reflexivity.
  assert (NoDup (map (fun f => JsString.replace_backslashes (filePath f))
                   Examples.two_files)) as H4
    by (apply (bool_decide_unpack _); vm_compute; exact I).
  assert (prepare Examples.dirname Examples.two_files Examples.disk
          = (Examples.prepared_disk, Some Examples.snapshot)) as H5
    by (vm_compute; reflexivity).
  split; [exact H2|]. split; [exact H3|]. split; [exact H4|]. split; [exact H5|].
  exact (detect_after_prepare_reports_nothing Examples.dirname Examples.two_files
           Examples.disk Examples.prepared_disk Examples.snapshot H2 H3 H4 H5).
Defined.

Lemma detect_reports_each_path_once_witness :
  lookup (userFilesDir Examples.dirname) Examples.final_disk
  = Some (Dir Examples.final_workspace)
  /\ wf (Dir Examples.final_workspace) = true
  /\ names_without "\"%char (Dir Examples.final_workspace) = true
  /\ exists result,
       detect Examples.dirname Examples.snapshot Examples.final_disk
       = (Examples.final_disk, Some result)
       /\ NoDup (map mf_filePath result).
Proof.
  assert (lookup (userFilesDir Examples.dirname) Examples.final_disk
          = Some (Dir Examples.final_workspace)) as H1 by reflexivity.
  assert (wf (Dir Examples.final_workspace) = true) as H2 by reflexivity.
  assert (names_without "\"%char (Dir Examples.final_workspace) = true) as H3
    by reflexivity.
  split; [exact H1|]. split; [exact H2|]. split; [exact H3|].
  exact (detect_reports_each_path_once Examples.dirname Examples.snapshot
           Examples.final_disk Examples.final_workspace H1 H2 H3).
Defined.

Lemma handleCodeAgent_outcome_witness :
  directoryHandle (app Examples.world) = Some Examples.folder
  /\ lookup Examples.folder (disk Examples.world)
     = Some (Dir [("a.txt", File "hello"); ("src", Dir [("b.txt", File "bb")])])
  /\ statusCode
       (code_agent Examples.dirname Cases.idle_agent
          {| prompt := "tidy up";
             files := trimFiles
                        (readAllFilesFromDirectoryHandle false Examples.project "");
             useClaude := false |} Examples.host).2 = 200
  /\ body
       (code_agent Examples.dirname Cases.idle_agent
          {| prompt := "tidy up";
             files := trimFiles
                        (readAllFilesFromDirectoryHandle false Examples.project "");
             useClaude := false |} Examples.host).2
     = map StdoutRecord ["nothing to do"] ++ [ModifiedFilesRecord []]
  /\ pendingChanges
       (app (handleCodeAgent (code_agent Examples.dirname Cases.idle_agent) "tidy up"
               Examples.world)) = []
  /\ notification
       (app (handleCodeAgent (code_agent Examples.dirname Cases.idle_agent) "tidy up"
               Examples.world))
     = Some (Failed "Failed to run code agent" NoFirstFile).
Proof.
  assert (directoryHandle (app Examples.world) = Some Examples.folder) as H1
    by reflexivity.
  assert (lookup Examples.folder (disk Examples.world)
          = Some (Dir [("a.txt", File "hello"); ("src", Dir [("b.txt", File "bb")])]))
    as H0 by reflexivity.
  assert (statusCode
            (code_agent Examples.dirname Cases.idle_agent
               {| prompt := "tidy up";
                  files := trimFiles
                             (readAllFilesFromDirectoryHandle false Examples.project "");
                  useClaude := false |} Examples.host).2 = 200) as H2
    by (vm_compute; reflexivity).
  assert (body
            (code_agent Examples.dirname Cases.idle_agent
               {| prompt := "tidy up";
                  files := trimFiles
                             (readAllFilesFromDirectoryHandle false Examples.project "");
                  useClaude := false |} Examples.host).2
          = map StdoutRecord ["nothing to do"] ++ [ModifiedFilesRecord []]) as H3
    by (vm_compute; reflexivity).
  split; [exact H1|]. split; [exact H0|]. split; [exact H2|]. split; [exact H3|].
  destruct (handleCodeAgent_outcome (code_agent Examples.dirname Cases.idle_agent)
              "tidy up" Examples.world Examples.folder
              [("a.txt", File "hello"); ("src", Dir [("b.txt", File "bb")])]
              ["nothing to do"] [] H1 H0 H2 H3)
    as (Hpending & _ & Hnotification & _).
  split; [exact Hpending | exact Hnotification].
Defined.

Lemma approve_leaves_untargeted_files_witness :
  (forall handle,
     directoryHandle (Examples.app_with Examples.good_changes) = Some handle ->
     ~ In ["a"] (map (target handle)
                   (pendingChanges (Examples.app_with Examples.good_changes))))
  /\ file_at ["a"]
       (handleApproveChanges (Examples.app_with Examples.good_changes) Examples.store).1
     = file_at ["a"] Examples.store.
Proof.
  assert (forall handle,
            directoryHandle (Examples.app_with Examples.good_changes) = Some handle ->
            ~ In ["a"] (map (target handle)
                          (pendingChanges (Examples.app_with Examples.good_changes))))
    as H1.
  { intros handle H. injection H as <-. vm_compute.
    intros [H | [H | [H | []]]]; discriminate. }
  split; [exact H1|].
  exact (approve_leaves_untargeted_files (Examples.app_with Examples.good_changes)
           Examples.store ["a"] H1).
Defined.

Lemma readAllFilesFromDirectoryHandle_reads_exactly_witness :
  wf Examples.project = true
  /\ (In {| filePath := "src/b.txt"; content := "bb" |}
        (readAllFilesFromDirectoryHandle false Examples.project "")
      <-> exists names,
            names <> []
            /\ "src/b.txt" = JsString.join "/" names
            /\ lookup names Examples.project = Some (File "bb")
            /\ Forall (fun name => includes IGNORE_DIRS_COMMON name = false)
                 (removelast names)
            /\ existsb (JsString.endsWith (List.last names "")) IGNORE_EXTENSIONS = false).
Proof.
  assert (wf Examples.project = true) as H1 by reflexivity.
  split; [exact H1|].
  exact (readAllFilesFromDirectoryHandle_reads_exactly false Examples.project
           {| filePath := "src/b.txt"; content := "bb" |} H1).
Defined.

Lemma post_schema_then_find_witness :
  (Schemas.post_schema Cases.renamed Cases.stored).2 = Schemas.Saved
  /\ JsValue.strict_equal (Schemas.id Cases.renamed) (Schemas.id Cases.renamed) = true
  /\ find (fun s => JsValue.strict_equal (Schemas.id s) (Schemas.id Cases.renamed))
          (Schemas.post_schema Cases.renamed Cases.stored).1
     = Some Cases.renamed.
Proof.
  assert ((Schemas.post_schema Cases.renamed Cases.stored).2 = Schemas.Saved) as H1
    by reflexivity.
  assert (JsValue.strict_equal (Schemas.id Cases.renamed) (Schemas.id Cases.renamed)
          = true) as H2 by reflexivity.
  split; [exact H1|]. split; [exact H2|].
  exact (proj1 (post_schema_then_find Cases.renamed Cases.stored H1 H2)).
Defined.

Lemma post_schema_compound_id_appends_witness :
  (Schemas.post_schema Cases.compound (Cases.stored ++ [Cases.compound])).2
  = Schemas.Saved
  /\ JsValue.strict_equal (Schemas.id Cases.compound) (Schemas.id Cases.compound) = false
  /\ Schemas.post_schema Cases.compound (Cases.stored ++ [Cases.compound])
     = ((Cases.stored ++ [Cases.compound]) ++ [Cases.compound], Schemas.Saved).
Proof.
  assert ((Schemas.post_schema Cases.compound (Cases.stored ++ [Cases.compound])).2
          = Schemas.Saved) as H1 by reflexivity.
  assert (JsValue.strict_equal (Schemas.id Cases.compound) (Schemas.id Cases.compound)
          = false) as H2 by reflexivity.
  split; [exact H1|]. split; [exact H2|].
  exact (post_schema_compound_id_appends Cases.compound
           (Cases.stored ++ [Cases.compound]) H1 H2).
Defined.

Lemma cleanOldBackups_keeps_the_newest_witness :
  NoDup (map Backups.name Cases.backup_dir)
  /\ length (List.filter
               (fun e => Backups.is_backup_name (Backups.name e) && Backups.isFile e)
               (Backups.cleanOldBackups Cases.backup_dir)) <= 24.
Proof.
  assert (NoDup (map Backups.name Cases.backup_dir)) as H1
    by (apply (bool_decide_unpack _); vm_compute; exact I).
  split; [exact H1|].
  exact (proj1 (proj2 (proj2 (cleanOldBackups_keeps_the_newest Cases.backup_dir H1)))).
Defined.

Lemma unchanged_run_ends_in_failure_witness :
  directoryHandle (app Examples.world) = Some Examples.folder
  /\ lookup Examples.folder (disk Examples.world)
     = Some (Dir [("a.txt", File "hello"); ("src", Dir [("b.txt", File "bb")])])
  /\ prepare Examples.dirname
       (submitted (isNovo (app Examples.world)) Examples.project)
       (disk Examples.world)
     = (Cases.prepared_host, Some Examples.snapshot)
  /\ pendingChanges
       (app (step Examples.dirname (RunCodeAgent Cases.idle_agent "tidy up")
               Examples.world)) = []
  /\ notification
       (app (step Examples.dirname (RunCodeAgent Cases.idle_agent "tidy up")
               Examples.world))
     = Some (Failed "Failed to run code agent" NoFirstFile)
  /\ disk (step Examples.dirname (RunCodeAgent Cases.idle_agent "tidy up")
             Examples.world) = Cases.prepared_host
  /\ file_at (Examples.folder ++ ["a.txt"])
       (disk (step Examples.dirname (RunCodeAgent Cases.idle_agent "tidy up")
                Examples.world))
     = file_at (Examples.folder ++ ["a.txt"]) (disk Examples.world).
Proof.
  assert (directoryHandle (app Examples.world) = Some Examples.folder) as H1
    by reflexivity.
  assert (lookup Examples.folder (disk Examples.world)
          = Some (Dir [("a.txt", File "hello"); ("src", Dir [("b.txt", File "bb")])]))
    as H2 by reflexivity.
  assert (wf (Dir [("a.txt", File "hello"); ("src", Dir [("b.txt", File "bb")])]) = true)
    as H3 by reflexivity.
  assert (names_without "\"%char
            (Dir [("a.txt", File "hello"); ("src", Dir [("b.txt", File "bb")])]) = true)
    as H4 by reflexivity.
  assert (submitted (isNovo (app Examples.world)) Examples.project <> []) as H5
    by (vm_compute; discriminate).
  assert ("tidy up" <> "") as H6 by discriminate.
  assert (prepare Examples.dirname
            (submitted (isNovo (app Examples.world)) Examples.project)
            (disk Examples.world)
          = (Cases.prepared_host, Some Examples.snapshot)) as H7
    by (vm_compute; reflexivity).
  assert (Cases.idle_agent (cliCommand (appUseClaude (app Examples.world)))
            (cliArgs (appUseClaude (app Examples.world)) "tidy up")
            (userFilesDir Examples.dirname) Cases.prepared_host
          = Exited ["nothing to do" +:+ String LF ""] (Some 0%Z) Cases.prepared_host)
    as H8 by reflexivity.
  split; [exact H1|]. split; [exact H2|]. split; [exact H7|].
  destruct (unchanged_run_ends_in_failure Examples.dirname Cases.idle_agent "tidy up"
              Examples.world Examples.folder
              [("a.txt", File "hello"); ("src", Dir [("b.txt", File "bb")])]
              ["nothing to do" +:+ String LF ""]
              Cases.prepared_host Examples.snapshot
              H1 H2 H3 H4 H5 H6 H7 H8) as (Hp & Hn & Hd & Hf).
  split; [exact Hp|]. split; [exact Hn|]. split; [exact Hd|].
  apply Hf; [reflexivity | now exists ["a.txt"]].
Defined.

End FurtherExamples.

(** ** Looking for the [main] directory *)

Section FindMain.

Import Fs CliInject.

Lemma findMain_cons (dir : list string) (k : string) (v : node)
    (es : list (string * node)) (m : option (list string)) :
  Path.valid_name k = true ->
  findMain dir (Dir ((k, v) :: es)) m
  = match v with
    | Dir _ =>
        if String.eqb k "main" && String.eqb (basename_of dir) "src"
        then Some (dir ++ [k])
        else findMain dir (Dir es)
               match m with
               | None => findMain (dir ++ [k]) v m
               | Some _ => m
               end
    | File _ => findMain dir (Dir es) m
    end.
Proof.
  intros Hk.
  assert (Path.dirname (Path.of_segments (dir ++ [k])) = dir) as Hd
    by (unfold Path.dirname; simpl; apply removelast_last).
  destruct v as [c|sub]; [reflexivity|].
  change (findMain dir (Dir ((k, Dir sub) :: es)) m)
    with (if String.eqb k "main"
             && String.eqb (basename_of (Path.dirname (Path.join dir k))) "src"
          then Some (Path.segments (Path.join dir k))
          else findMain dir (Dir es)
                 match m with
                 | None => findMain (Path.segments (Path.join dir k)) (Dir sub) m
                 | Some _ => m
                 end).
  now rewrite (join_valid_name dir k Hk), Hd.
Qed.

(** Once set, [mainFolderPath] stays set. *)
Lemma findMain_stays_set (dir : list string) (es : list (string * node)) :
  wf (Dir es) = true ->
  forall m, m <> None -> findMain dir (Dir es) m <> None.
Proof.
  intros Hwf. apply wf_Dir in Hwf. destruct Hwf as [Hall _].
  induction Hall as [|[k v] es [Hk _] Hall IH]; intros m Hm; [exact Hm|].
  simpl in Hk. rewrite (findMain_cons dir k v es m Hk).
  destruct v as [c|sub]; [now apply IH|].
  destruct (_ && _); [discriminate|].
  apply IH. now destruct m.
Qed.

Lemma lookup_skip (k : string) (v : node) (es : list (string * node))
    (q : list string) (x : node) :
  ~ In k (map fst es) -> q <> [] ->
  lookup q (Dir es) = Some x -> lookup q (Dir ((k, v) :: es)) = Some x.
Proof.
  intros Hk Hq H. destruct q as [|y q]; [congruence|].
  rewrite lookup_cons_dir in H |- *. simpl.
  destruct (String.eqb k y) eqn:E; [|exact H].
  apply String.eqb_eq in E. subst y. exfalso. apply Hk.
  destruct (alookup k es) as [v'|] eqn:E'; [|discriminate].
  now apply (alookup_Some_in k v').
Qed.

Lemma main_under_src_skip (dir : list string) (k : string) (v : node)
    (es : list (string * node)) (r : list string) :
  ~ In k (map fst es) ->
  main_under_src dir (Dir es) r -> main_under_src dir (Dir ((k, v) :: es)) r.
Proof.
  intros Hk [[es' Hl] Hb]. split; [|exact Hb].
  exists es'. apply lookup_skip; [exact Hk | now destruct r | exact Hl].
Qed.

Lemma main_under_src_below (dir : list string) (k : string) (v : node)
    (es : list (string * node)) (r : list string) :
  main_under_src (dir ++ [k]) v r -> main_under_src dir (Dir ((k, v) :: es)) (k :: r).
Proof.
  intros [[es' Hl] Hb]. split.
  - exists es'. change ((k :: r) ++ ["main"]) with (k :: r ++ ["main"]).
    rewrite lookup_cons_dir. simpl. now rewrite String.eqb_refl.
  - rewrite <- Hb. now rewrite <- app_assoc.
Qed.

(** What [findMain] sets is a directory [main] directly in a directory
    [src]. *)
Lemma findMain_sound (n : node) :
  wf n = true ->
  forall dir m p,
    findMain dir n m = Some p ->
    m = Some p \/ exists r, p = dir ++ r ++ ["main"] /\ main_under_src dir n r.
Proof.
  induction n as [c|es IH] using node_induction; intros Hwf dir m p H; [now left|].
  apply wf_Dir in Hwf. destruct Hwf as [Hall Hnd].
  revert m H. induction es as [|[k v] es IHes]; intros m H; [now left|].
  inversion IH as [|? ? IHv IHrest]; subst.
  inversion Hall as [|? ? [Hk Hv] Hall']; subst. simpl in Hk, Hv, IHv.
  inversion Hnd as [|? ? Hnotin Hnd']; subst.
  specialize (IHes IHrest Hall' Hnd').
  rewrite (findMain_cons dir k v es m Hk) in H.
  assert (forall m', findMain dir (Dir es) m' = Some p ->
            m' = Some p
            \/ exists r, p = dir ++ r ++ ["main"]
                         /\ main_under_src dir (Dir ((k, v) :: es)) r) as Hrest.
  { intros m' H'. destruct (IHes m' H') as [Hm | (r & Hp & Hr)]; [now left|].
    right. exists r. split; [exact Hp | now apply main_under_src_skip]. }
  destruct v as [c|sub]; [now apply Hrest|].
  destruct (String.eqb k "main" && String.eqb (basename_of dir) "src") eqn:E.
  - injection H as <-. apply andb_true_iff in E. destruct E as [E1 E2].
    apply String.eqb_eq in E1, E2. subst k. right. exists [].
    split; [reflexivity|]. split.
    + exists sub. reflexivity.
    + now rewrite app_nil_r.
  - destruct (Hrest _ H) as [Hm | Hr]; [|now right].
    destruct m as [p0|]; [now left|].
    destruct (IHv Hv (dir ++ [k]) None p Hm) as [Hn | (r & Hp & Hr)]; [discriminate|].
    right. exists (k :: r). split.
    + rewrite Hp. now rewrite <- app_assoc.
    + now apply main_under_src_below.
Qed.

(** [findMain] misses no directory [main] directly in a directory
    [src]. *)
Lemma findMain_complete (n : node) :
  wf n = true ->
  forall dir m r,
    main_under_src dir n r -> findMain dir n m <> None.
Proof.
  induction n as [c|es IH] using node_induction; intros Hwf dir m r Hr.
  { destruct Hr as [[es' Hl] _]. destruct r; discriminate. }
  apply wf_Dir in Hwf. destruct Hwf as [Hall Hnd].
  revert IH Hall Hnd m Hr.
  induction es as [|[k v] es IHes]; intros IH Hall Hnd m Hr.
  { destruct Hr as [[es' Hl] _]. destruct r; discriminate. }
  inversion IH as [|? ? IHv IHrest]; subst.
  inversion Hall as [|? ? [Hk Hv] Hall']; subst. simpl in Hk, Hv, IHv.
  inversion Hnd as [|? ? Hnotin Hnd']; subst.
  assert (wf (Dir es) = true) as Hwfes by now apply wf_Dir_intro.
  specialize (IHes IHrest Hall' Hnd').
  rewrite (findMain_cons dir k v es m Hk).
  destruct Hr as [[es' Hl] Hb].
  assert (match r with
          | [] => k = "main" /\ v = Dir es' \/ main_under_src dir (Dir es) r
          | y :: r0 =>
              (y = k /\ main_under_src (dir ++ [k]) v r0)
              \/ main_under_src dir (Dir es) r
          end) as Hcases.
  { destruct r as [|y r0].
    - simpl in Hl. destruct (String.eqb k "main") eqn:E.
      + left. apply String.eqb_eq in E. split; [exact E | congruence].
      + right. split; [|exact Hb]. exists es'. simpl. exact Hl.
    - change ((y :: r0) ++ ["main"]) with (y :: r0 ++ ["main"]) in Hl.
      rewrite lookup_cons_dir in Hl. simpl in Hl.
      destruct (String.eqb k y) eqn:E.
      + left. apply String.eqb_eq in E. subst y. split; [reflexivity|].
        split; [now exists es'|]. now rewrite <- app_assoc.
      + right. split; [|exact Hb]. exists es'.
        change ((y :: r0) ++ ["main"]) with (y :: r0 ++ ["main"]).
        now rewrite lookup_cons_dir. }
  destruct v as [c|sub].
  - destruct r as [|y r0].
    + destruct Hcases as [[_ Hv'] | Hr]; [discriminate | now apply IHes].
    + destruct Hcases as [[_ [[es0 Hl0] _]] | Hr]; [|now apply IHes].
      destruct r0; discriminate.
  - destruct (String.eqb k "main" && String.eqb (basename_of dir) "src") eqn:Ec;
      [discriminate|].
    destruct r as [|y r0].
    + destruct Hcases as [[-> _] | Hr]; [|now apply IHes].
      rewrite app_nil_r in Hb. rewrite Hb in Ec. discriminate.
    + destruct Hcases as [[-> Hr0] | Hr]; [|now apply IHes].
      apply (findMain_stays_set dir es Hwfes).
      destruct m as [p0|]; [discriminate|].
      now apply (IHv Hv (dir ++ [k]) None r0).
Qed.

(** X22: [findMain] leaves [mainFolderPath] unset, on which [/api/cli-inject]
    answers 404, exactly when no directory [main] lies directly in a
    directory [src]; what it sets otherwise is the path of such a
    directory. *)
Theorem findMain_finds_main_under_src (dir : list string) (n : node) :
  wf n = true ->
  (findMain dir n None = None <-> forall r, ~ main_under_src dir n r)
  /\ (forall p, findMain dir n None = Some p ->
        exists r, p = dir ++ r ++ ["main"] /\ main_under_src dir n r).
Proof.
  intros Hwf. split; [split|].
  - intros Hnone r Hr. now apply (findMain_complete n Hwf dir None r Hr).
  - intros Hno. destruct (findMain dir n None) as [p|] eqn:E; [|reflexivity].
    destruct (findMain_sound n Hwf dir None p E) as [H | (r & _ & Hr)];
      [discriminate|].
    now destruct (Hno r).
  - intros p E.
    destruct (findMain_sound n Hwf dir None p E) as [H | H]; [discriminate | exact H].
Qed.

End FindMain.

(** ** The name of a backup *)

Section BackupName.

Import Backups.

Lemma prefix_append (p s : string) : String.prefix p (p +:+ s) = true.
Proof.
  induction p as [|c p IH]; [now destruct s|].
  rewrite append_cons. simpl. destruct (ascii_dec c c); [exact IH | congruence].
Qed.

Lemma length_append_str (a b : string) :
  String.length (a +:+ b) = String.length a + String.length b.
Proof.
  induction a as [|c a IH]; [reflexivity|]. rewrite append_cons. simpl. now rewrite IH.
Qed.

Lemma substring_all (b : string) : String.substring 0 (String.length b) b = b.
Proof. induction b as [|c b IH]; [reflexivity|]. simpl. now rewrite IH. Qed.

Lemma substring_append (a b : string) :
  String.substring (String.length a) (String.length b) (a +:+ b) = b.
Proof.
  induction a as [|c a IH]; [apply substring_all|].
  rewrite append_cons. simpl. exact IH.
Qed.

Lemma endsWith_append (a b : string) : JsString.endsWith (a +:+ b) b = true.
Proof.
  unfold JsString.endsWith. rewrite length_append_str.
  replace (String.length a + String.length b - String.length b) with (String.length a)
    by lia.
  rewrite substring_append, String.eqb_refl, andb_true_r.
  apply Nat.leb_le. lia.
Qed.

Lemma contains_replace_colons (s : string) :
  JsText.contains ":"%char (replace_colons s) = false.
Proof.
  induction s as [|c s IH]; [reflexivity|].
  simpl. rewrite IH. destruct (Ascii.eqb c ":"%char) eqn:E; [reflexivity|].
  now rewrite E.
Qed.

Lemma contains_from_line_end (c : ascii) (s : string) :
  JsText.contains c s = false -> JsText.contains c (from_line_end s) = false.
Proof.
  induction s as [|d s IH]; [reflexivity|].
  intros H. simpl. destruct (is_line_terminator d); [exact H|].
  simpl in H. apply orb_false_iff in H. now apply IH.
Qed.

Lemma contains_strip_fraction (c : ascii) (s : string) :
  JsText.contains c s = false -> JsText.contains c (strip_fraction s) = false.
Proof.
  induction s as [|d s IH]; [reflexivity|].
  intros H. simpl in H. apply orb_false_iff in H. destruct H as [Hd Hs].
  simpl. destruct (_ && _).
  - now apply contains_from_line_end.
  - simpl. now rewrite Hd, (IH Hs).
Qed.

(** X23: Whatever the time, the file that [createBackup] writes has a name
    that [cleanOldBackups] and [loadLatestBackup] take for a backup, and
    the name has no colon. *)
Theorem createBackup_writes_a_backup_name (iso : string) :
  is_backup_name (backup_name iso) = true
  /\ JsText.contains ":"%char (backup_name iso) = false.
Proof.
  unfold is_backup_name, backup_name, JsText.startsWith. split.
  - rewrite prefix_append. rewrite <- append_assoc_str. now rewrite endsWith_append.
  - rewrite !contains_append, contains_strip_fraction by apply contains_replace_colons.
    reflexivity.
Qed.

End BackupName.

(** ** A commit that completes *)

Section CommitRoundTrip.

Import Fs Server Client.

(** X24: Round trip of a commit that completes: the user's folder is the one
    the writes leave, each target holds the content of the last pending
    change written to it, the proposal is cleared and the chat is marked
    as implemented. *)
Theorem approve_success_writes_every_change (a : App) (store store' : node)
    (handle : list string) :
  directoryHandle a = Some handle ->
  pendingChanges a <> [] ->
  apply_changes handle (pendingChanges a) store = (store', Some tt) ->
  (handleApproveChanges a store).1 = store'
  /\ (forall before m after,
        pendingChanges a = before ++ m :: after ->
        (forall m', In m' after -> target handle m' <> target handle m) ->
        file_at (target handle m) store' = Some (modifiedContent m))
  /\ pendingChanges (handleApproveChanges a store).2 = []
  /\ originalFiles (handleApproveChanges a store).2 = []
  /\ implemented (handleApproveChanges a store).2 = true
  /\ showCodeAgentDiff (handleApproveChanges a store).2 = false
  /\ notification (handleApproveChanges a store).2
     = Some (Success "Changes approved and applied to local files!").
Proof.
  intros Hh Hp Hrun.
  rewrite (handleApproveChanges_pending a store handle Hh Hp), Hrun.
  split; [reflexivity|]. split; [|repeat (split; [reflexivity|]); reflexivity].
  intros before m after Hsplit Hlast. rewrite Hsplit in Hrun.
  apply apply_changes_app_inv in Hrun. destruct Hrun as (sa & _ & Hrun).
  rewrite apply_changes_cons in Hrun.
  destruct (writeFileToDirectoryHandle handle _ _ sa) as [sb [[]|]] eqn:Hw;
    [|discriminate].
  pose proof (write_spec _ _ _ _ _ _ Hw) as (_ & P2).
  destruct (P2 eq_refl) as (Hwritten & _).
  apply file_at_Some.
  apply (apply_changes_frame handle _ _ _ _ _ _ Hrun Hwritten).
  intros Hin. apply executed_targets, in_map_iff in Hin.
  destruct Hin as (m' & Heq & Hin). now apply (Hlast m' Hin).
Qed.

End CommitRoundTrip.

Section MoreExamples.

Import Fs CliInject.

Lemma findMain_finds_main_under_src_witness :
  wf Cases.android = true
  /\ forall p,
       findMain (Server.userFilesDir Examples.dirname) Cases.android None = Some p ->
       exists r, p = Server.userFilesDir Examples.dirname ++ r ++ ["main"]
                 /\ main_under_src (Server.userFilesDir Examples.dirname) Cases.android r.
Proof.
  assert (wf Cases.android = true) as H1 by reflexivity.
  split; [exact H1|].
  exact (proj2 (findMain_finds_main_under_src (Server.userFilesDir Examples.dirname)
                  Cases.android H1)).
Defined.

Lemma approve_success_writes_every_change_witness :
  Client.directoryHandle (Examples.app_with Examples.good_changes) = Some []
  /\ Client.pendingChanges (Examples.app_with Examples.good_changes) <> []
  /\ Client.apply_changes []
       (Client.pendingChanges (Examples.app_with Examples.good_changes)) Examples.store
     = ((Client.apply_changes [] Examples.good_changes Examples.store).1, Some tt)
  /\ file_at ["c.txt"] (Client.apply_changes [] Examples.good_changes Examples.store).1
     = Some "4".
Proof.
  assert (Client.directoryHandle (Examples.app_with Examples.good_changes) = Some [])
    as H1 by reflexivity.
  assert (Client.pendingChanges (Examples.app_with Examples.good_changes) <> []) as H2
    by discriminate.
  assert (Client.apply_changes []
            (Client.pendingChanges (Examples.app_with Examples.good_changes))
            Examples.store
          = ((Client.apply_changes [] Examples.good_changes Examples.store).1, Some tt))
    as H3 by (vm_compute; reflexivity).
  split; [exact H1|]. split; [exact H2|]. split; [exact H3|].
  exact (proj1 (proj2 (approve_success_writes_every_change
                         (Examples.app_with Examples.good_changes) Examples.store _ []
                         H1 H2 H3))
           [ {| Server.mf_filePath := "c.txt"; Server.modifiedContent := "2" |};
             {| Server.mf_filePath := "lib/d.txt"; Server.modifiedContent := "3" |} ]
           {| Server.mf_filePath := "c.txt"; Server.modifiedContent := "4" |} []
           eq_refl (fun m' (H : In m' []) => match H with end)).
Defined.

End MoreExamples.
